(** * duncan: one-off Chronos commands (package chronos)

    A shallow embedding of the one-off command runner of
    [github.com/betterdoctor/duncan/chronos]: task-name derivation
    ([sanitizedCommand], [RunCommand]), the paginated catalog fetch
    ([scheduledTasks]), submission ([launchChronosOneOffCommand]), the polling
    monitor ([handleTask]) and the log helpers ([printLogs], [openLogPage]),
    with the [run] command of package cmd that calls them; then the [scale]
    command of package cmd, [Read], [Write] and [Delete] of package vault,
    and [waitForDeployment] of package marathon.  [Deploy] and the file
    rewriting of package marathon, which stand on [path.Join] and on regular
    expressions built at run time, are left out.

    Go strings are byte strings: they are modelled by [string], whose
    characters are the 256 values of [ascii]. *)

From Stdlib Require Import String Ascii List ZArith NArith QArith Bool Arith Lia.
Import ListNotations.

Local Close Scope Q_scope.
Local Open Scope nat_scope.
Local Open Scope string_scope.
Local Open Scope list_scope.

(** ** Go's string library, as far as the package uses it *)

Module GoStrings.

Definition byteval (c : ascii) : N := N_of_ascii c.

(** [s[i:]] *)
Fixpoint drop (n : nat) (s : string) : string :=
  match n, s with
  | O, _ => s
  | S k, EmptyString => EmptyString
  | S k, String _ s' => drop k s'
  end.

(** [s[:i]] *)
Fixpoint take (n : nat) (s : string) : string :=
  match n, s with
  | O, _ => EmptyString
  | S k, EmptyString => EmptyString
  | S k, String c s' => String c (take k s')
  end.

(** [s[i:j]] *)
Definition slice (i j : nat) (s : string) : string := take (j - i) (drop i s).

Fixpoint all_chars (p : ascii -> bool) (s : string) : bool :=
  match s with
  | EmptyString => true
  | String c s' => p c && all_chars p s'
  end.

(** [strings.Join(elems, sep)] *)
Fixpoint Join (elems : list string) (sep : string) : string :=
  match elems with
  | [] => EmptyString
  | [e] => e
  | e :: rest => e ++ sep ++ Join rest sep
  end.

(** [strings.Split(s, sep)] for a non-empty [sep]: the pieces between the
    successive non-overlapping occurrences of [sep], found left to right.
    [skip] counts the bytes of an occurrence still to be stepped over and
    [cur] holds the piece being read, last byte first. *)
Fixpoint splitFrom (sep : string) (skip : nat) (cur : list ascii) (s : string)
  : list string :=
  match s with
  | EmptyString => [string_of_list_ascii (rev cur)]
  | String c s' =>
      match skip with
      | S k => splitFrom sep k cur s'
      | O =>
          if prefix sep s
          then string_of_list_ascii (rev cur)
                 :: splitFrom sep (String.length sep - 1) [] s'
          else splitFrom sep 0 (c :: cur) s'
      end
  end.

Definition Split (s sep : string) : list string := splitFrom sep 0 [] s.

(** [strings.Contains(s, substr)] *)
Fixpoint Contains (s substr : string) : bool :=
  prefix substr s ||
  match s with
  | EmptyString => false
  | String _ s' => Contains s' substr
  end.

End GoStrings.

(** ** UTF-8 decoding and [unicode.IsSpace] (packages unicode/utf8, unicode) *)

Module Utf8.
Import GoStrings.
Local Open Scope N_scope.

Definition RuneError : N := 0xFFFD.
Definition RuneSelf : N := 0x80.
Definition UTFMax : nat := 4.

(** The table [first] together with [acceptRanges]: for a lead byte, the
    length of the encoding and the range allowed for the second byte;
    [None] for the entries [as] (ASCII) and [xx] (invalid). *)
Definition first (b : N) : option (nat * N * N) :=
  if b <? 0xC2 then None
  else if b <=? 0xDF then Some (2%nat, 0x80, 0xBF)
  else if b =? 0xE0 then Some (3%nat, 0xA0, 0xBF)
  else if b <=? 0xEC then Some (3%nat, 0x80, 0xBF)
  else if b =? 0xED then Some (3%nat, 0x80, 0x9F)
  else if b <=? 0xEF then Some (3%nat, 0x80, 0xBF)
  else if b =? 0xF0 then Some (4%nat, 0x90, 0xBF)
  else if b <=? 0xF3 then Some (4%nat, 0x80, 0xBF)
  else if b =? 0xF4 then Some (4%nat, 0x80, 0x8F)
  else None.

Definition continuation (b : N) : bool := (0x80 <=? b) && (b <=? 0xBF).

(** [utf8.DecodeRuneInString]: the rune and its width in bytes. *)
Definition DecodeRuneInString (s : string) : N * nat :=
  match s with
  | EmptyString => (RuneError, 0%nat)
  | String c0 t0 =>
      let s0 := byteval c0 in
      match first s0 with
      | None => (if s0 <? RuneSelf then s0 else RuneError, 1%nat)
      | Some (sz, lo, hi) =>
          if (String.length s <? sz)%nat then (RuneError, 1%nat) else
          match t0 with
          | EmptyString => (RuneError, 1%nat)
          | String c1 t1 =>
              let s1 := byteval c1 in
              if (s1 <? lo) || (hi <? s1) then (RuneError, 1%nat) else
              if (sz <=? 2)%nat
              then (N.lor (N.shiftl (N.land s0 0x1F) 6) (N.land s1 0x3F), 2%nat)
              else
              match t1 with
              | EmptyString => (RuneError, 1%nat)
              | String c2 t2 =>
                  let s2 := byteval c2 in
                  if negb (continuation s2) then (RuneError, 1%nat) else
                  if (sz <=? 3)%nat
                  then (N.lor (N.shiftl (N.land s0 0x0F) 12)
                          (N.lor (N.shiftl (N.land s1 0x3F) 6) (N.land s2 0x3F)),
                        3%nat)
                  else
                  match t2 with
                  | EmptyString => (RuneError, 1%nat)
                  | String c3 _ =>
                      let s3 := byteval c3 in
                      if negb (continuation s3) then (RuneError, 1%nat) else
                      (N.lor (N.shiftl (N.land s0 0x07) 18)
                         (N.lor (N.shiftl (N.land s1 0x3F) 12)
                            (N.lor (N.shiftl (N.land s2 0x3F) 6)
                               (N.land s3 0x3F))),
                       4%nat)
                  end
              end
          end
      end
  end.

(** [utf8.RuneStart] *)
Definition RuneStart (b : N) : bool := negb (N.land b 0xC0 =? 0x80).

Definition byteAt (s : string) (i : Z) : N :=
  match String.get (Z.to_nat i) s with
  | Some c => byteval c
  | None => 0
  end.

(** The loop [for start--; start >= lim; start-- { if RuneStart(s[start]) { break } }]
    of [DecodeLastRuneInString], entered after [start--]. *)
Fixpoint scanBack (fuel : nat) (s : string) (start lim : Z) : Z :=
  match fuel with
  | O => start
  | S k =>
      if (start <? lim)%Z then start
      else if RuneStart (byteAt s start) then start
      else scanBack k s (start - 1)%Z lim
  end.

(** [utf8.DecodeLastRuneInString] *)
Definition DecodeLastRuneInString (s : string) : N * nat :=
  let e := Z.of_nat (String.length s) in
  if (e =? 0)%Z then (RuneError, 0%nat) else
  let r := byteAt s (e - 1)%Z in
  if r <? RuneSelf then (r, 1%nat) else
  let lim := Z.max 0 (e - Z.of_nat UTFMax) in
  let start := Z.max 0 (scanBack UTFMax s (e - 2)%Z lim) in
  let '(r, size) := DecodeRuneInString (drop (Z.to_nat start) s) in
  if (start + Z.of_nat size =? e)%Z then (r, size) else (RuneError, 1%nat).

(** [unicode.IsSpace] *)
Definition IsSpace (r : N) : bool :=
  if r <=? 0xFF
  then (r =? 0x09) || (r =? 0x0A) || (r =? 0x0B) || (r =? 0x0C) || (r =? 0x0D)
       || (r =? 0x20) || (r =? 0x85) || (r =? 0xA0)
  else (r =? 0x1680) || ((0x2000 <=? r) && (r <=? 0x200A))
       || (r =? 0x2028) || (r =? 0x2029) || (r =? 0x202F) || (r =? 0x205F)
       || (r =? 0x3000).

(** [strings.TrimLeftFunc(s, unicode.IsSpace)]: [range s] decodes one rune at
    a time; [skip] counts the remaining bytes of a space rune. *)
Fixpoint trimLeftFrom (skip : nat) (s : string) : string :=
  match s with
  | EmptyString => EmptyString
  | String _ s' =>
      match skip with
      | S k => trimLeftFrom k s'
      | O =>
          let '(r, size) := DecodeRuneInString s in
          if IsSpace r then trimLeftFrom (size - 1) s' else s
      end
  end.

Definition TrimLeftSpace (s : string) : string := trimLeftFrom 0 s.

(** [lastIndexFunc(s, unicode.IsSpace, false)]: the index of the last rune
    that is not a space, [-1] when there is none.  Every iteration moves [i]
    down, so more than [i] iterations are enough (lemma
    [lastIndexNonSpace_fuel] below). *)
Fixpoint lastIndexNonSpace (fuel : nat) (s : string) (i : Z) : Z :=
  match fuel with
  | O => (-1)%Z
  | S k =>
      if (0 <? i)%Z then
        let '(r, size) := DecodeLastRuneInString (take (Z.to_nat i) s) in
        let i := (i - Z.of_nat size)%Z in
        if IsSpace r then lastIndexNonSpace k s i else i
      else (-1)%Z
  end.

(** [strings.TrimRightFunc(s, unicode.IsSpace)] *)
Definition TrimRightSpace (s : string) : string :=
  let n := String.length s in
  let i := lastIndexNonSpace (S n) s (Z.of_nat n) in
  let i := if (0 <=? i)%Z && (RuneSelf <=? byteAt s i)
           then (i + Z.of_nat (snd (DecodeRuneInString (drop (Z.to_nat i) s))))%Z
           else (i + 1)%Z in
  take (Z.to_nat i) s.

(** [strings.TrimSpace] *)
Definition TrimSpace (s : string) : string := TrimRightSpace (TrimLeftSpace s).

End Utf8.

(** ** Package regexp, for the two expressions the package compiles *)

Module Regexp.
Import GoStrings Utf8.

Definition is_lower (c : ascii) : bool :=
  ((97 <=? byteval c) && (byteval c <=? 122))%N.

(** Length of the run of bytes [a]..[z] at the start of [s]. *)
Fixpoint lowerRun (s : string) : nat :=
  match s with
  | String c s' => if is_lower c then S (lowerRun s') else O
  | EmptyString => O
  end.

(** [re.doExecute] for the program of ["[a-z]*"], searching from [pos]: the
    expression matches the empty string, so the leftmost match starts at
    [pos], and the star is greedy, so it ends after the whole run. *)
Definition execLowerStar (s : string) (pos : nat) : option (nat * nat) :=
  Some (pos, pos + lowerRun (drop pos s)).

(** [inputString.step]: the width of the rune at [pos], [0] at the end. *)
Definition stepWidth (s : string) (pos : nat) : nat :=
  snd (DecodeRuneInString (drop pos s)).

(** [re.allMatches(s, nil, n, deliver)]: the loop
    [for pos, i, prevMatchEnd := 0, 0, -1; i < n && pos <= end; ],
    one iteration per unit of [fuel]. *)
Fixpoint allMatches (fuel : nat) (exec : string -> nat -> option (nat * nat))
    (s : string) (n : nat) (pos i : nat) (prevMatchEnd : Z)
  : list (nat * nat) :=
  match fuel with
  | O => []
  | S fuel' =>
      if ((i <? n) && (pos <=? String.length s))%nat then
        match exec s pos with
        | None => []
        | Some (m0, m1) =>
            if (m1 =? pos)%nat then
              (* an empty match: refused right after a previous match;
                 move forward by one rune *)
              let accept := negb (Z.of_nat m0 =? prevMatchEnd)%Z in
              let width := stepWidth s pos in
              let pos' := if (0 <? width)%nat then pos + width
                          else String.length s + 1 in
              if accept
              then (m0, m1) :: allMatches fuel' exec s n pos' (S i) (Z.of_nat m1)
              else allMatches fuel' exec s n pos' i (Z.of_nat m1)
            else (m0, m1) :: allMatches fuel' exec s n m1 (S i) (Z.of_nat m1)
        end
      else []
  end.

(** [regexp.MustCompile("[a-z]*").FindAllString(s, -1)]; a negative [n] is
    replaced by [len(s) + 1].  Every iteration moves [pos] forward, so
    [len(s) + 2] iterations are enough (lemma [allMatches_fuel] below). *)
Definition FindAllString_lowerStar (s : string) : list string :=
  map (fun m => slice (fst m) (snd m) s)
      (allMatches (String.length s + 2) execLowerStar s
         (String.length s + 1) 0 0 (-1)).

(** [regexp.MustCompile("cpp:").MatchString(l)]: the expression is a literal. *)
Definition MatchString_cpp (l : string) : bool := Contains l "cpp:".

End Regexp.

(** ** Task names *)

Module Namer.
Import GoStrings Utf8 Regexp.

(** The body of the loop of [sanitizedCommand] for one element [c] of [p]. *)
Definition sanitizedToken (c : string) : string :=
  Join (FindAllString_lowerStar (TrimSpace c)) "-".

(** [sanitizedCommand] *)
Definition sanitizedCommand (cmd : string) : string :=
  let p := Split cmd " " in
  let out := map sanitizedToken p in
  Join out "-".

(** The field [TaskName] that [RunCommand] builds. *)
Definition deriveTaskName (app env cmd : string) : string :=
  Join [app; env; sanitizedCommand cmd] "-".

(** The separator. *)
Definition is_dash (c : ascii) : bool := Ascii.eqb c "-"%char.

(** A lower-case letter or the separator. *)
Definition name_char (c : ascii) : bool := is_lower c || is_dash c.

End Namer.

(** ** Package mesos: the task records the scheduler's catalog returns *)

Module Mesos.

(** Error values.  Those made by [fmt.Errorf] in package chronos carry the
    arguments of their format; the others are made outside the package. *)
Inductive error : Type :=
| TransportError (e : string)        (* the [err] of [http.Get], [http.Post], a body read *)
| DecodeError (e : string)           (* the [err] of [json] decoding *)
| TemplateError (e : string)         (* the [err] of [text/template] *)
| MesosError (e : string)            (* the [err] of [TasksFor], [LogDirectory], [SlaveIP] *)
| ExecError (e : string)             (* the [err] of [cmd.Start] *)
| MissingTimestamp                   (* the [err] of [Duration] *)
| ErrACL (app env : string)          (* "ACL does not allow you to run comand for %s-%s" *)
| ErrParsingTemplate (e : error)     (* "error parsing template: %v" *)
| ErrExecutingTemplate (e : error)   (* "error executing template: %v" *)
| ErrLaunchFailed (body : string)    (* "failed to launch command: %s" *)
| ErrTaskFailed (dur : Q)            (* "task failed: %.02f seconds\n" *)
| ErrTaskKilled (dur : Q)            (* "task killed: %.02f seconds\n" *)
| ErrStateUnhandled (state : string) (* "task state unhandled: %s" *).

(** Modelled from the spec: the type [mesos.Task], whose declaration is not
    among the sources.  A job record has an identifier, a name, a current
    state, a working directory path, a slave identifier, and start and stop
    timestamps that are absent before execution. *)
Record Task : Type := mkTask {
  ID : string;
  Name : string;
  State : string;
  Directory : string;
  SlaveID : string;
  StartTime : option Q;
  StopTime : option Q
}.

(** Modelled from the spec: the method [Duration] of [mesos.Task], which is not
    among the sources.  The duration is the stop timestamp minus the start
    timestamp, in seconds, and the computation fails with
    [MissingTimestamp] when either timestamp is absent. *)
Definition Duration (t : Task) : Q + error :=
  match StartTime t, StopTime t with
  | Some t0, Some t1 => inl (t1 - t0)%Q
  | _, _ => inr MissingTimestamp
  end.

(** Modelled from the spec: the method [TasksFor] of [mesos.Tasks], which is
    not among the sources, as the spec words it: the records whose name
    equals the requested name, in the order the remote API gave them. *)
Definition TasksFor_by_name (name : string) (tasks : list Task)
  : list Task + error :=
  inl (filter (fun t => String.eqb (Name t) name) tasks).

End Mesos.

(** ** The environment of a run *)

Module World.
Import Mesos.

(** [http.Response], as far as the package reads it; [ReadErr] is the error
    the body's reader ends with, if any. *)
Record Response : Type := mkResponse {
  StatusCode : Z;
  Status : string;
  Body : string;
  ReadErr : option error
}.

Definition StatusOK : Z := 200.
Definition StatusNoContent : Z := 204.
Definition StatusForbidden : Z := 403.

(** What [http.Get] and [http.Post] return, [(resp, err)]: with a nil [err]
    the response is present; with an error it is nil, except after a failed
    redirect policy check, when the last response comes with the error. *)
Inductive HttpResult : Type :=
| HttpOk (resp : Response)
| HttpErr (err : error) (resp : option Response).

(** [TaskVars] *)
Record TaskVars : Type := mkTaskVars {
  App : string;
  Env : string;
  Tag : string;
  Command : string;
  TaskName : string
}.

(** Everything package chronos takes from outside: the configuration read
    through viper, the constants and methods of package mesos that are not
    among the sources, and the answers of the network, of the JSON decoder,
    of the template engine and of the operating system.  The answers that
    may change during a run take the number of the call, counted over the
    whole run, as their first argument. *)
Record External : Type := mkExternal {
  marathon_host : string;
  chronos_host : string;
  (* package mesos *)
  TaskStaging : string;
  TaskRunning : string;
  TaskFinished : string;
  TaskFailed : string;
  TaskKilled : string;
  TasksFor : string -> list Task -> list Task + error;
  LogDirectory : nat -> Task -> string + error;
  SlaveIP : nat -> Task -> string + error;
  (* package consul *)
  CurrentDeploymentTagURL : string -> string -> string;
  (* net/http *)
  httpGet : nat -> string -> HttpResult;
  httpPost : nat -> string -> string -> string -> HttpResult;
  (* encoding/json: the decoded value and the error of [Decode] *)
  decodeTasks : Response -> list Task + error;
  decodeLogs : Response -> string * option error;
  (* text/template, on the constant [taskTemplate] *)
  templateParse : option error;
  templateExecute : TaskVars -> string * option error;
  (* os/exec: the error of [cmd.Start] *)
  execStart : nat -> string -> list string -> option error
}.

(** The state constants in the case list of the switch of [handleTask].
    They are pairwise different: the Go compiler rejects an expression
    switch with duplicate constant cases. *)
Definition handled (E : External) : list string :=
  [TaskRunning E; TaskStaging E; TaskFinished E; TaskFailed E; TaskKilled E].
Definition states_distinct (E : External) : Prop := NoDup (handled E).

(** What the package writes to standard output, one constructor per
    [fmt.Printf] or [fmt.Println] of the source with its arguments. *)
Inductive Msg : Type :=
| MsgExecuting (command app tag env : string) (* "executing '%s' in instance of %s:%s (%s)\n" *)
| MsgScheduling                               (* "scheduling task" *)
| MsgDot                                      (* "." *)
| MsgTaskState (state : string)               (* "\rtask state: %s           \n" *)
| MsgTaskFinished (dur : Q)                   (* "task finished: %.02f seconds\n" *)
| MsgCannotFetchLogs (err : error)            (* "cannot fetch logs: %s\n" *)
| MsgCouldNotFetchLogs (status : string)      (* "could not fetch logs: %s\n" *)
| MsgError (err : error)                      (* [fmt.Println(err)] *)
| MsgLogLine (l : string)                     (* "\r%s\n" *)
| MsgCouldNotOpen                             (* "could not open link to task logs" *)
| MsgMustSupplyCommand                        (* "must supply COMMAND to run" *).

(** The observable actions of a run, in the order they happen. *)
Inductive Event : Type :=
| Print (m : Msg)
| Sleep (ms : Z)
| Get (url : string)
| Post (url contentType body : string)
| AskLogDirectory (t : Task)
| AskSlaveIP (t : Task)
| ExecStart (name : string) (args : list string).

(** The state of a run: the number of calls answered by the environment so
    far and the actions so far, oldest first. *)
Record St : Type := mkSt { clock : nat; trace : list Event }.

(** How a computation ends: with a value, by [os.Exit], by a run-time panic,
    or not within the given number of loop iterations. *)
Inductive Res (A : Type) : Type :=
| Val (a : A)
| Exited (code : Z)
| Panicked (why : string)
| OutOfFuel.
Arguments Val {A} a.
Arguments Exited {A} code.
Arguments Panicked {A} why.
Arguments OutOfFuel {A}.

Definition M (A : Type) : Type := St -> Res A * St.

Definition ret {A} (a : A) : M A := fun st => (Val a, st).

Definition bind {A B} (m : M A) (k : A -> M B) : M B :=
  fun st =>
    match m st with
    | (Val a, st') => k a st'
    | (Exited c, st') => (Exited c, st')
    | (Panicked w, st') => (Panicked w, st')
    | (OutOfFuel, st') => (OutOfFuel, st')
    end.

Definition emit (e : Event) : M unit :=
  fun st => (Val tt, mkSt (clock st) (trace st ++ [e])).

(** The number of the next call to the environment. *)
Definition tick : M nat :=
  fun st => (Val (clock st), mkSt (S (clock st)) (trace st)).

(** [os.Exit(code)] *)
Definition osExit {A} (code : Z) : M A := fun st => (Exited code, st).

Definition panic {A} (why : string) : M A := fun st => (Panicked why, st).

Definition outOfFuel {A} : M A := fun st => (OutOfFuel, st).

(** A computation only moves the clock forward and only adds actions to
    the trace, all of them of the kind [p]. *)
Definition adds {A} (p : Event -> bool) (m : M A) : Prop :=
  forall st r st',
    m st = (r, st') ->
    clock st <= clock st' /\
    exists l, trace st' = trace st ++ l /\ forallb p l = true.

Definition any (e : Event) : bool := true.
Definition is_get (e : Event) : bool :=
  match e with Get _ => true | _ => false end.

End World.

Module MNotations.
Notation "x <- m ;; k" := (World.bind m (fun x => k))
  (at level 61, m at next level, right associativity).
Notation "' pat <- m ;; k" := (World.bind m (fun x => match x with pat => k end))
  (at level 61, pat pattern, m at next level, right associativity).
Notation "m ;; k" := (World.bind m (fun _ => k))
  (at level 61, right associativity).
End MNotations.

(** ** Package chronos: the catalog fetch, submission, the monitor, the logs *)

From Stdlib Require Import DecimalString.

Module Chronos.
Import GoStrings Regexp Namer Mesos World MNotations.

(** [%d] of an [int] *)
Definition itoa (n : Z) : string := NilZero.string_of_int (Z.to_int n).

Definition len {A} (l : list A) : Z := Z.of_nat (List.length l).

(** A [for] loop with loop variables of type [S]: an iteration ends with
    [continue] (the next values of the variables) or leaves the loop with a
    value.  [fuel] bounds the number of iterations. *)
Inductive Ctl (S R : Type) : Type :=
| Continue (s : S)
| Leave (r : R).
Arguments Continue {S R} s.
Arguments Leave {S R} r.

Fixpoint loop {S R} (fuel : nat) (body : S -> M (Ctl S R)) (s : S) : M R :=
  match fuel with
  | O => outOfFuel
  | Datatypes.S fuel' =>
      c <- body s ;;
      match c with
      | Continue s' => loop fuel' body s'
      | Leave r => ret r
      end
  end.

Section WithExternal.
Variable E : External.

Definition Println (m : Msg) : M unit := emit (Print m).
Definition Printf (m : Msg) : M unit := emit (Print m).

(** [time.Sleep(ms * time.Millisecond)] *)
Definition timeSleep (ms : Z) : M unit := emit (Sleep ms).

(** [http.Get(url)] *)
Definition http_Get (url : string) : M HttpResult :=
  n <- tick ;; emit (Get url) ;; ret (httpGet E n url).

(** [http.Post(url, contentType, strings.NewReader(body))] *)
Definition http_Post (url contentType body : string) : M HttpResult :=
  n <- tick ;; emit (Post url contentType body) ;;
  ret (httpPost E n url contentType body).

(** [t.LogDirectory()] *)
Definition callLogDirectory (t : Task) : M (string + error) :=
  n <- tick ;; emit (AskLogDirectory t) ;; ret (LogDirectory E n t).

(** [t.SlaveIP()] *)
Definition callSlaveIP (t : Task) : M (string + error) :=
  n <- tick ;; emit (AskSlaveIP t) ;; ret (SlaveIP E n t).

(** The selector [resp.f] on [resp *http.Response]: a nil pointer panics. *)
Definition deref (resp : option Response) : M Response :=
  match resp with
  | Some r => ret r
  | None => panic "invalid memory address or nil pointer dereference"
  end.

(** The index expression [a[i]] on a slice: out of range panics. *)
Definition index {A} (a : list A) (i : nat) : M A :=
  match nth_error a i with
  | Some x => ret x
  | None => panic "index out of range"
  end.

(** [scheduledTasks]: the URL of one page. *)
Definition tasksURL (offset : Z) : string :=
  (marathon_host E ++ "/mesos/tasks?offset=" ++ itoa offset)%string.

(** [scheduledTasks]: one iteration of the [for] loop, on the variables
    [offset] and [tasks.Tasks].  The loop is left by [break] with the
    accumulated records, or by [return nil, err].  The deferred
    [resp.Body.Close()] calls have no effect the package observes. *)
Definition scheduledTasks_iter (v : Z * list Task)
  : M (Ctl (Z * list Task) (list Task + error)) :=
  let '(offset, tasks) := v in
  let url := tasksURL offset in
  r <- http_Get url ;;
  match r with
  | HttpErr err _ => ret (Leave (inr err))
  | HttpOk resp =>
      match decodeTasks E resp with
      | inr err => ret (Leave (inr err))
      | inl t =>
          let tasks := tasks ++ t in
          if (100 <=? len t)%Z
          then ret (Continue ((offset + 100)%Z, tasks))
          else ret (Leave (inl tasks))
      end
  end.

(** [scheduledTasks] *)
Definition scheduledTasks (fuel : nat) (name : string)
  : M (list Task + error) :=
  r <- loop fuel scheduledTasks_iter (0%Z, []) ;;
  match r with
  | inr err => ret (inr err)
  | inl tasks =>
      match TasksFor E name tasks with
      | inr err => ret (inr err)
      | inl rt => ret (inl rt)
      end
  end.

(** [openLogPage] *)
Definition openLogPage (t : Task) : M unit :=
  d <- callLogDirectory t ;;
  dir <- match d with
         | inr err => Printf (MsgCannotFetchLogs err) ;; osExit (-1)
         | inl dir => ret dir
         end ;;
  let p := Split dir "/var/lib/mesos/slave/slaves/" in
  p1 <- index p 1 ;;
  slaveID <- index (Split p1 "/") 0 ;;
  let url := (marathon_host E ++ "/mesos/#/agents/" ++ slaveID
              ++ "/browse?path=" ++ dir)%string in
  n <- tick ;;
  emit (ExecStart "open" [url]) ;;
  match execStart E n "open" [url] with
  | Some _ => Println MsgCouldNotOpen
  | None => ret tt
  end.

(** [printLogs]: the loop over the lines of the log. *)
Fixpoint printLines (lines : list string) : M unit :=
  match lines with
  | [] => ret tt
  | l :: rest =>
      (if negb (MatchString_cpp l) then Printf (MsgLogLine l) else ret tt) ;;
      printLines rest
  end.

Definition newline : string := String (ascii_of_nat 10) EmptyString.

(** [printLogs]: the file to read, [out]. *)
Definition logStream (t : Task) : string :=
  if String.eqb (State t) (TaskFinished E) then "stdout" else "stderr".

(** [printLogs]: the URL of the file. *)
Definition logsURL (ip dir out : string) : string :=
  ("http://" ++ ip ++ ":5051/files/read?path=" ++ dir ++ "/" ++ out
   ++ "&offset=0")%string.

(** [printLogs] *)
Definition printLogs (t : Task) : M unit :=
  d <- callLogDirectory t ;;
  dir <- match d with
         | inr err => Printf (MsgCannotFetchLogs err) ;; osExit (-1)
         | inl dir => ret dir
         end ;;
  let out := logStream t in
  i <- callSlaveIP t ;;
  match i with
  | inr err => Println (MsgError err)
  | inl ip =>
      let url := logsURL ip dir out in
      r <- http_Get url ;;
      (* [resp] and whether [err != nil || resp.StatusCode != http.StatusOK] *)
      let '(resp, failed) :=
        match r with
        | HttpOk resp => (Some resp, negb (StatusCode resp =? StatusOK)%Z)
        | HttpErr _ resp => (resp, true)
        end in
      (if failed
       then rs <- deref resp ;; Printf (MsgCouldNotFetchLogs (Status rs))
       else ret tt) ;;
      rb <- deref resp ;;
      let '(data, derr) := decodeLogs E rb in
      match derr with
      | Some err => Println (MsgError err)
      | None => ret tt
      end ;;
      printLines (Split data newline)
  end.

(** [handleTask]: the [switch task.State]; the cases are tried in order. *)
Definition handleTask_switch (task : Task) : M (Ctl unit (option error)) :=
  if String.eqb (State task) (TaskRunning E) then
    openLogPage task ;;
    ret (Continue tt)
  else if String.eqb (State task) (TaskStaging E) then
    ret (Continue tt)
  else if String.eqb (State task) (TaskFinished E) then
    openLogPage task ;;
    match Duration task with
    | inr err => ret (Leave (Some err))
    | inl dur =>
        Printf (MsgTaskFinished dur) ;;
        printLogs task ;;
        ret (Leave None)
    end
  else if String.eqb (State task) (TaskFailed E) then
    openLogPage task ;;
    printLogs task ;;
    match Duration task with
    | inr err => ret (Leave (Some err))
    | inl dur => ret (Leave (Some (ErrTaskFailed dur)))
    end
  else if String.eqb (State task) (TaskKilled E) then
    match Duration task with
    | inr err => ret (Leave (Some err))
    | inl dur => ret (Leave (Some (ErrTaskKilled dur)))
    end
  else
    ret (Leave (Some (ErrStateUnhandled (State task)))).

(** [handleTask]: what follows [len(tasks) == count+1]. *)
Definition handleTask_selected (tasks : list Task)
  : M (Ctl unit (option error)) :=
  task <- index tasks 0 ;;
  Printf (MsgTaskState (State task)) ;;
  handleTask_switch task.

(** [handleTask]: one iteration of the [for] loop, which has no loop
    variables.  [Leave err] is [return err]. *)
Definition handleTask_iter (fuel : nat) (name : string) (count : Z) (_ : unit)
  : M (Ctl unit (option error)) :=
  timeSleep 500 ;;
  r <- scheduledTasks fuel name ;;
  match r with
  | inr err => ret (Leave (Some err))
  | inl tasks =>
      if (len tasks =? count)%Z then
        Printf MsgDot ;;
        ret (Continue tt)
      else if (len tasks =? count + 1)%Z then
        handleTask_selected tasks
      else ret (Continue tt)
  end.

(** [handleTask]; [fuel] bounds the iterations of this loop and of the
    loop of each [scheduledTasks] call. *)
Definition handleTask (fuel : nat) (name : string) (count : Z)
  : M (option error) :=
  Println MsgScheduling ;;
  loop fuel (handleTask_iter fuel name count) tt.

(** [renderChronosTaskJSON] *)
Definition renderChronosTaskJSON (task : TaskVars) : string + error :=
  match templateParse E with
  | Some err => inr (ErrParsingTemplate err)
  | None =>
      match templateExecute E task with
      | (_, Some err) => inr (ErrExecutingTemplate err)
      | (j, None) => inl j
      end
  end.

(** [launchChronosOneOffCommand] *)
Definition launchChronosOneOffCommand (fuel : nat) (url : string)
    (task : TaskVars) : M (option error) :=
  r <- scheduledTasks fuel (TaskName task) ;;
  match r with
  | inr err => ret (Some err)
  | inl tasks =>
      match renderChronosTaskJSON task with
      | inr err => ret (Some err)
      | inl cj =>
          p <- http_Post url "application/json" cj ;;
          match p with
          | HttpErr err _ => ret (Some err)
          | HttpOk resp =>
              if negb (StatusCode resp =? StatusNoContent)%Z then
                ret (Some (ErrLaunchFailed (Body resp)))
              else
              Printf (MsgExecuting (Command task) (App task) (Tag task)
                        (Env task)) ;;
              err <- handleTask fuel (TaskName task) (len tasks) ;;
              match err with
              | Some e => ret (Some e)
              | None => ret None
              end
          end
      end
  end.

(** [fetchCurrentTag] *)
Definition fetchCurrentTag (app env : string) : M (string * option error) :=
  r <- http_Get (CurrentDeploymentTagURL E app env) ;;
  match r with
  | HttpErr err _ => ret (EmptyString, Some err)
  | HttpOk resp =>
      if (StatusCode resp =? StatusForbidden)%Z
      then ret (EmptyString, Some (ErrACL app env))
      else ret (Body resp, ReadErr resp)
  end.

(** [RunCommand] *)
Definition RunCommand (fuel : nat) (app env cmd : string) : M (option error) :=
  t <- fetchCurrentTag app env ;;
  match t with
  | (_, Some err) => ret (Some err)
  | (tag, None) =>
      let task := mkTaskVars app env tag cmd
                    (Join [app; env; sanitizedCommand cmd] "-") in
      let url := (chronos_host E
                  ++ "/service/chronos/v1/scheduler/iso8601")%string in
      err <- launchChronosOneOffCommand fuel url task ;;
      match err with
      | Some e => ret (Some e)
      | None => ret None
      end
  end.

End WithExternal.
End Chronos.

(** ** Package cmd: the [run] command *)

Module Cmd.
Import GoStrings Mesos World Chronos MNotations.

(** The function [Run] of [runCmd], for the values [app] and [env] of the
    flags: an error of [RunCommand] is printed and ends the process with
    [os.Exit(-1)]. *)
Definition runCmd_Run (E : External) (fuel : nat) (app env : string)
    (args : list string) : M unit :=
  (if (len args =? 0)%Z
   then Println (MsgMustSupplyCommand) ;; osExit (-1)
   else ret tt) ;;
  let command := Join args " " in
  err <- RunCommand E fuel app env command ;;
  match err with
  | Some e => Println (MsgError e) ;; osExit (-1)
  | None => ret tt
  end.

End Cmd.

(** ** Statements about sequences of requests and polls *)

Module Polls.
Import Mesos World Chronos.

(** The catalog answers the requests number [k], [k+1], ... for the offsets
    [offset], [offset+100], ... with the pages [pages], in this order. *)
Fixpoint served (E : External) (k : nat) (offset : Z) (pages : list (list Task))
  : Prop :=
  match pages with
  | [] => True
  | p :: ps =>
      (exists resp, httpGet E k (tasksURL E offset) = HttpOk resp /\
                    decodeTasks E resp = inl p) /\
      served E (S k) (offset + 100)%Z ps
  end.

(** The requests of a fetch that reads [n] pages. *)
Definition pageRequests (E : External) (n : nat) : list Event :=
  map (fun i => Get (tasksURL E (100 * Z.of_nat i))) (seq 0 n).


(** What a run has printed. *)
Definition is_print (e : Event) : bool :=
  match e with Print _ => true | _ => false end.
Definition printed (st : St) : list Event := filter is_print (trace st).


(** The lines of the log [printLogs] shows: those that do not match
    ["cpp:"]. *)
Definition shownLines (data : string) : list Event :=
  map (fun l => Print (MsgLogLine l))
      (filter (fun l => negb (Regexp.MatchString_cpp l))
              (GoStrings.Split data newline)).

(** What [printLogs] adds to the trace after the request for the log file,
    for a response [resp] that is present: the diagnostic of a failed
    request, the diagnostic of a failed decoding, and the lines of what the
    decoder left. *)
Definition afterFetch (E : External) (failed : bool) (resp : Response)
  : list Event :=
  (if failed then [Print (MsgCouldNotFetchLogs (Status resp))] else [])
  ++ match snd (decodeLogs E resp) with
     | Some err => [Print (MsgError err)]
     | None => []
     end
  ++ shownLines (fst (decodeLogs E resp)).

End Polls.

(** ** Concrete runs *)

Module Scenario.
Import GoStrings Namer Mesos World Chronos.

Definition name : string := "foo-production-rake-stuff-junk".

Definition sandbox : string :=
  "/var/lib/mesos/slave/slaves/S1/frameworks/F1/executors/ct/runs/latest".

(** A record of the tracked name in [state]. *)
Definition job (state : string) (start stop : option Q) : Task :=
  mkTask "ct:new" name state sandbox "S1" start stop.

Definition finished : Task := job "TASK_FINISHED" (Some 0%Q) (Some 12%Q).

(** An older record of the same name, and a record of another name. *)
Definition old : Task :=
  mkTask "ct:old" name "TASK_FINISHED" sandbox "S1" (Some 0%Q) (Some 5%Q).
Definition other : Task :=
  mkTask "ct:other" "bar-stage-rake-x" "TASK_FINISHED" sandbox "S1" None None.

(** The catalog pages the runs below are served, by the body of the
    response that carries them. *)
Definition pageOf (body : string) : list Task + error :=
  if String.eqb body "old2" then inl [old; other; old]
  else if String.eqb body "running"
    then inl [job "TASK_RUNNING" (Some 0%Q) None; old; old]
  else if String.eqb body "finished" then inl [finished; other; old; old]
  else if String.eqb body "killed"
    then inl [job "TASK_KILLED" (Some 0%Q) (Some 7%Q); old; old]
  else if String.eqb body "killed-no-stop"
    then inl [job "TASK_KILLED" (Some 0%Q) None; old; old]
  else if String.eqb body "lost" then inl [job "TASK_LOST" None None; old; old]
  else if String.eqb body "two-new"
    then inl [job "TASK_RUNNING" None None; job "TASK_RUNNING" None None; old; old]
  else if String.eqb body "full" then inl (repeat other 100)
  else inr (DecodeError "invalid character").

Definition ok (body : string) : Response := mkResponse 200 "200 OK" body None.

(** An environment: [catalog] gives the body answered to a catalog request
    by the number of the call, [logdir] and [slaveip] the answers of package
    mesos, [logs] the answer to a log request and [post] the answer to the
    submission. *)
Definition world (catalog : nat -> string)
    (logdir slaveip : nat -> Task -> string + error)
    (logs post : HttpResult) : External :=
  mkExternal "http://marathon" "http://chronos"
    "TASK_STAGING" "TASK_RUNNING" "TASK_FINISHED" "TASK_FAILED" "TASK_KILLED"
    TasksFor_by_name logdir slaveip
    (fun app env => "http://consul/tag")
    (fun n url =>
       if prefix "http://marathon/mesos/tasks?offset=" url
       then HttpOk (ok (catalog n))
       else if prefix "http://consul/" url then HttpOk (ok "v1.2.3")
       else logs)
    (fun n url ct body => post)
    (fun resp => pageOf (Body resp))
    (fun resp => if (StatusCode resp =? 200)%Z then (Body resp, None)
                 else (EmptyString, Some (DecodeError "unexpected end of JSON input")))
    None
    (fun task => ("{}", None))
    (fun n prog args => None).

Definition dirOk (n : nat) (t : Task) : string + error := inl (Directory t).
Definition dirFails (n : nat) (t : Task) : string + error :=
  inr (MesosError "no log directory").
Definition ipOk (n : nat) (t : Task) : string + error := inl "10.0.0.7".
Definition ipFails (n : nat) (t : Task) : string + error :=
  inr (MesosError "unknown slave").

Definition noContent : HttpResult :=
  HttpOk (mkResponse 204 "204 No Content" EmptyString None).
Definition badRequest : HttpResult :=
  HttpOk (mkResponse 400 "400 Bad Request" "invalid job" None).
Definition logText : HttpResult := HttpOk (ok "line one").
Definition refused : HttpResult :=
  HttpErr (TransportError "connection refused") None.

Definition st0 : St := mkSt 0 [].

(** The URL [openLogPage] opens for the records above. *)
Definition logPage : string :=
  ("http://marathon/mesos/#/agents/S1/browse?path=" ++ sandbox)%string.

(** The job of the example of [duncan run]. *)
Definition rake : TaskVars :=
  mkTaskVars "foo" "production" "v1.2.3" "rake stuff:junk" name.

(** The environments of the runs used below. *)
Definition w_running : External :=
  world (fun _ => "running") dirOk ipOk logText noContent.
Definition w_lost : External :=
  world (fun _ => "lost") dirOk ipOk logText noContent.
Definition w_nodir : External :=
  world (fun _ => "running") dirFails ipOk logText noContent.
Definition w_two_new : External :=
  world (fun _ => "two-new") dirOk ipOk logText noContent.
Definition w_pages : External :=
  world (fun n => if (n =? 0)%nat then "full" else "old2")
    dirOk ipOk logText noContent.
Definition w_refused : External :=
  world (fun _ => "finished") dirOk ipOk refused noContent.
Definition w_noip : External :=
  world (fun _ => "finished") dirOk ipFails logText noContent.
Definition w_dir_once : External :=
  world (fun _ => "finished")
    (fun n t => if (n <? 2)%nat then dirOk n t else dirFails n t)
    ipOk logText noContent.
Definition w_rejected : External :=
  world (fun _ => "old2") dirOk ipOk logText badRequest.
Definition w_accepted : External :=
  world (fun n => if (n <? 1)%nat then "old2" else "killed")
    dirOk ipOk logText noContent.

(** The run of the example of [duncan run]: two older records of the name,
    then the new record running at the first poll and finished at the
    second. *)
Definition w_example : External :=
  world (fun n => if (n <? 2)%nat then "old2"
                  else if (n <? 6)%nat then "running" else "finished")
    dirOk ipOk
    (HttpOk (ok ("I0101 12:00:00 exec.cpp:12] Starting task" ++ newline
                 ++ "migrating" ++ newline ++ "done")%string))
    noContent.

(** A run whose new record is killed and has no stop timestamp. *)
Definition w_killed_no_stop : External :=
  world (fun n => if (n <? 2)%nat then "old2" else "killed-no-stop")
    dirOk ipOk logText noContent.

End Scenario.

From Stdlib Require FMapList FMapFacts OrderedTypeEx Permutation.

(** ** Go maps with string keys *)

Module StrMap := FMapList.Make OrderedTypeEx.String_as_OT.
Module StrMapFacts := FMapFacts.WFacts_fun OrderedTypeEx.String_as_OT StrMap.
Module StrMapProps := FMapFacts.WProperties_fun OrderedTypeEx.String_as_OT StrMap.

(** ** Runs of the other packages *)

(** The monad of runs once more, for any type [Ev] of actions and with a
    store of type [Store] for an object the functions share with their caller. *)
Module Proc.
Import World(Res, Val, Exited, Panicked, OutOfFuel).
Import Chronos(Ctl, Continue, Leave).

Section Run.
Variables Ev Store : Type.

Record St : Type := mkSt { clock : nat; trace : list Ev; store : Store }.

Definition M (A : Type) : Type := St -> Res A * St.

Definition ret {A} (a : A) : M A := fun st => (Val a, st).

Definition bind {A B} (m : M A) (k : A -> M B) : M B :=
  fun st =>
    match m st with
    | (Val a, st') => k a st'
    | (Exited c, st') => (Exited c, st')
    | (Panicked w, st') => (Panicked w, st')
    | (OutOfFuel, st') => (OutOfFuel, st')
    end.

Definition emit (e : Ev) : M unit :=
  fun st => (Val tt, mkSt (clock st) (trace st ++ [e]) (store st)).

(** The number of the next call to the environment. *)
Definition tick : M nat :=
  fun st => (Val (clock st), mkSt (S (clock st)) (trace st) (store st)).

Definition get : M Store := fun st => (Val (store st), st).

Definition put (s : Store) : M unit :=
  fun st => (Val tt, mkSt (clock st) (trace st) s).

(** [os.Exit(code)] *)
Definition osExit {A} (code : Z) : M A := fun st => (Exited code, st).

Definition panic {A} (why : string) : M A := fun st => (Panicked why, st).

(** The index expression [a[i]] on a slice. *)
Definition index {A} (a : list A) (i : nat) : M A :=
  match nth_error a i with
  | Some x => ret x
  | None => panic "index out of range"
  end.

(** [for _, x := range l] over a slice, with the variables [c] the body
    updates. *)
Fixpoint forEach {A C} (l : list A) (body : A -> C -> M C) (c : C) : M C :=
  match l with
  | [] => ret c
  | x :: rest => bind (body x c) (fun c' => forEach rest body c')
  end.

(** A [for] loop that is left by [return] or [break] only. *)
Fixpoint loop {R} (fuel : nat) (body : M (Ctl unit R)) : M R :=
  match fuel with
  | O => fun st => (OutOfFuel, st)
  | S fuel' =>
      bind body (fun c =>
                   match c with
                   | Continue _ => loop fuel' body
                   | Leave r => ret r
                   end)
  end.

End Run.

Arguments mkSt {Ev Store} clock trace store.
Arguments clock {Ev Store} s.
Arguments trace {Ev Store} s.
Arguments store {Ev Store} s.
Arguments ret {Ev Store A} a st.
Arguments bind {Ev Store A B} m k st.
Arguments emit {Ev Store} e st.
Arguments tick {Ev Store} st.
Arguments get {Ev Store} st.
Arguments put {Ev Store} s st.
Arguments osExit {Ev Store A} code st.
Arguments panic {Ev Store A} why st.
Arguments index {Ev Store A} a i st.
Arguments forEach {Ev Store A C} l body c st.
Arguments loop {Ev Store R} fuel body st.

End Proc.

Module ProcNotations.
Notation "x <- m ;; k" := (Proc.bind m (fun x => k))
  (at level 61, m at next level, right associativity).
Notation "m ;; k" := (Proc.bind m (fun _ => k))
  (at level 61, right associativity).
End ProcNotations.

(** ** Package vault *)

Module Vault.
Import GoStrings Mesos.
Import World(Res, Val, Exited, Panicked, OutOfFuel).
Import World(Response, StatusCode, Status, Body, ReadErr, HttpResult, HttpOk, HttpErr).
Import World(StatusOK, StatusNoContent).
Import Proc ProcNotations.

(** The field [KVPairs] of [Secrets], a [map[string]string]: [None] is the
    nil map. *)
Definition KVPairs : Type := option (StrMap.t string).

(** [len(m)] *)
Definition mapLen (m : KVPairs) : Z :=
  match m with
  | None => 0
  | Some kv => Z.of_nat (StrMap.cardinal kv)
  end.

(** Error values: those of the callees (transport, reading a body, decoding)
    and the three the package makes. *)
Inductive error : Type :=
| Upstream (e : Mesos.error)
| NoSecretsYet                               (* "no secrets yet" *)
| FailedToReachVault (status body : string)  (* "failed to reach vault: %s\n%s" *)
| FailedToSetSecrets (status body : string)  (* "failed to set vault secrets: %s\n%s" *).

Inductive Msg : Type :=
| MsgChanging (k v new : string)             (* "changing %s from %s => %s\n" *)
| MsgDeleted (key : string)                  (* "deleted key %s\n" *).

(** The actions of a run: what is printed, and the requests, with their
    method, URL, token header and, for a POST, the map that is marshalled
    into the body. *)
Inductive Event : Type :=
| Print (m : Msg)
| Do (method url token : string) (body : option KVPairs).

(** What the package takes from outside: the configuration, whether
    [http.NewRequest] accepts a URL, the answers of the HTTP client and of
    the JSON decoder, and the order in which the Go runtime goes through a
    map, which it chooses anew for every [range]. *)
Record External : Type := mkExternal {
  vault_token : string;
  vault_host : string;
  validURL : string -> bool;
  clientDo : nat -> string -> string -> string -> option KVPairs -> HttpResult;
  decodeSecrets : Response -> KVPairs + Mesos.error;
  rangeOrder : nat -> StrMap.t string -> list string
}.

(** The runtime goes through every key of the map once. *)
Definition fair_order (E : External) : Prop :=
  forall n kv,
    Permutation.Permutation (rangeOrder E n kv) (map fst (StrMap.elements kv)).

(** The state of a run holds the map of the one [Secrets] object of the
    caller, which [Write] and [Delete] change in place; their argument [s]
    is nil or points to it. *)
Inductive Ptr : Type := Nil | Obj.

Definition M (A : Type) : Type := Proc.M Event KVPairs A.
Definition St : Type := Proc.St Event KVPairs.

Section WithExternal.
Variable E : External.

Definition Printf (m : Msg) : M unit := emit (Print m).

(** [s.KVPairs] *)
Definition kvPairs (s : Ptr) : M KVPairs :=
  match s with
  | Nil => panic "invalid memory address or nil pointer dereference"
  | Obj => get
  end.

(** [for k, v := range s.KVPairs]: the keys in the order the runtime chose;
    an entry removed before it is reached is not produced, and the value is
    the one the map holds when the entry is reached.  A nil map has no
    entries. *)
Definition rangeMap {C} (s : Ptr) (body : string -> string -> C -> M C) (c : C)
  : M C :=
  m <- kvPairs s ;;
  match m with
  | None => ret c
  | Some kv =>
      n <- tick ;;
      forEach (rangeOrder E n kv)
        (fun k c =>
           m' <- get ;;
           match m' with
           | None => ret c
           | Some kv' =>
               match StrMap.find k kv' with
               | Some v => body k v c
               | None => ret c
               end
           end) c
  end.

(** [s.KVPairs[k] = v], the operands being evaluated already *)
Definition assign (m : KVPairs) (k v : string) : M unit :=
  match m with
  | None => panic "assignment to entry in nil map"
  | Some _ =>
      m' <- get ;;
      match m' with
      | None => panic "assignment to entry in nil map"
      | Some kv => put (Some (StrMap.add k v kv))
      end
  end.

(** [delete(s.KVPairs, k)] *)
Definition deleteKey (s : Ptr) (k : string) : M unit :=
  m <- kvPairs s ;;
  match m with
  | None => ret tt
  | Some kv => put (Some (StrMap.remove k kv))
  end.

(** [req, _ := http.NewRequest(method, url, body)] and [req.Header.Set]:
    the methods are constants the function accepts; for a URL it does not
    accept, [req] is nil and the access to its header panics. *)
Definition newRequest (url : string) : M unit :=
  if validURL E url then ret tt
  else panic "invalid memory address or nil pointer dereference".

(** [readSecrets] *)
Definition readSecrets (url : string) : M (KVPairs + error) :=
  newRequest url ;;
  n <- tick ;;
  emit (Do "GET" url (vault_token E) None) ;;
  match clientDo E n "GET" url (vault_token E) None with
  | HttpErr err _ => ret (inr (Upstream err))
  | HttpOk resp =>
      if negb (StatusCode resp =? StatusOK)%Z then
        match ReadErr resp with
        | Some err => ret (inr (Upstream err))
        | None => ret (inr (FailedToReachVault (Status resp) (Body resp)))
        end
      else
        match decodeSecrets E resp with
        | inr err => ret (inr (Upstream err))
        | inl s => ret (inl s)
        end
  end.

(** [updateSecrets]; [json.Marshal] of a [map[string]string] does not
    fail. *)
Definition updateSecrets (url : string) (s : Ptr) : M (option error) :=
  m <- kvPairs s ;;
  newRequest url ;;
  n <- tick ;;
  emit (Do "POST" url (vault_token E) (Some m)) ;;
  match clientDo E n "POST" url (vault_token E) (Some m) with
  | HttpErr err _ => ret (Some (Upstream err))
  | HttpOk resp =>
      if negb (StatusCode resp =? StatusNoContent)%Z then
        match ReadErr resp with
        | Some err => ret (Some (Upstream err))
        | None => ret (Some (FailedToSetSecrets (Status resp) (Body resp)))
        end
      else ret None
  end.

(** [Read] *)
Definition Read (url : string) : M (KVPairs + error) :=
  r <- readSecrets url ;;
  match r with
  | inr err => ret (inr err)
  | inl s =>
      if (mapLen s =? 0)%Z then ret (inr NoSecretsYet) else ret (inl s)
  end.

(** [Write]: the body of the first loop, for one element of [kvs]. *)
Definition announce (s : Ptr) (kvp : string) (_ : unit) : M unit :=
  let p := Split kvp "=" in
  rangeMap s (fun k v _ =>
              p0 <- index p 0 ;;
              if String.eqb k p0 then
                p1 <- index p 1 ;;
                Printf (MsgChanging k v p1)
              else ret tt) tt.

(** [Write]: the body of the second loop; the operands [p[0]] and [p[1]] are
    evaluated before the assignment. *)
Definition store1 (s : Ptr) (kvp : string) (_ : unit) : M unit :=
  let p := Split kvp "=" in
  m <- kvPairs s ;;
  p0 <- index p 0 ;;
  p1 <- index p 1 ;;
  assign m p0 p1.

(** [Write]: the result is [(s, nil)] or [(nil, err)]. *)
Definition Write (url : string) (kvs : list string) (s : Ptr)
  : M (Ptr * option error) :=
  forEach kvs (announce s) tt ;;
  forEach kvs (store1 s) tt ;;
  r <- updateSecrets url s ;;
  match r with
  | Some err => ret (Nil, Some err)
  | None => ret (s, None)
  end.

(** [Delete]: the body of the loop over [keys], on the variable [count]. *)
Definition delete1 (s : Ptr) (key : string) (count : Z) : M Z :=
  count <- rangeMap s (fun k _ _ =>
                         (if String.eqb k key then deleteKey s k else ret tt) ;;
                         m <- kvPairs s ;;
                         ret (mapLen m)) count ;;
  m <- kvPairs s ;;
  (if negb (mapLen m =? count)%Z then Printf (MsgDeleted key) else ret tt) ;;
  ret count.

(** [Delete] *)
Definition Delete (url : string) (keys : list string) (s : Ptr)
  : M (Ptr * option error) :=
  forEach keys (delete1 s) 0%Z ;;
  r <- updateSecrets url s ;;
  match r with
  | Some err => ret (Nil, Some err)
  | None => ret (s, None)
  end.

(** [prefix] *)
Definition secretPrefix (app env : string) : string :=
  ("secret/" ++ app ++ "/" ++ env)%string.

(** [SecretsURL] *)
Definition SecretsURL (app env : string) : string :=
  ("https://" ++ vault_host E ++ "/v1/" ++ secretPrefix app env)%string.

End WithExternal.
End Vault.

(** ** Package strconv: [Atoi] *)

Module Strconv.
Import GoStrings.

Inductive NumError : Type :=
| ErrSyntax                                  (* "invalid syntax" *)
| ErrRange                                   (* "value out of range" *).

Definition is_digit (c : ascii) : bool :=
  (48 <=? byteval c)%N && (byteval c <=? 57)%N.

(** The value of a run of decimal digits after [acc]; [None] at any other
    byte. *)
Fixpoint digits (s : string) (acc : N) : option N :=
  match s with
  | EmptyString => Some acc
  | String c rest =>
      if is_digit c then digits rest (10 * acc + (byteval c - 48))%N
      else None
  end.

(** An optional sign and the digits after it. *)
Definition sign_and_digits (s : string) : bool * string :=
  match s with
  | String "-" rest => (true, rest)
  | String "+" rest => (false, rest)
  | _ => (false, s)
  end.

(** [strconv.Atoi] for an [int] of [intSize] bits: an optional sign, at
    least one digit and nothing else, and a value an [int] holds. *)
Definition Atoi (intSize : Z) (s : string) : Z + NumError :=
  let (neg, ds) := sign_and_digits s in
  match ds with
  | EmptyString => inr ErrSyntax
  | _ =>
      match digits ds 0 with
      | None => inr ErrSyntax
      | Some n =>
          let v := if neg then (- Z.of_N n)%Z else Z.of_N n in
          if ((- 2 ^ (intSize - 1) <=? v) && (v <? 2 ^ (intSize - 1)))%Z
          then inl v
          else inr ErrRange
      end
  end.

End Strconv.

(** ** Package cmd: the [scale] command *)

Module ScaleCmd.
Import GoStrings Mesos.
Import Proc ProcNotations.

Inductive Msg : Type :=
| MsgUsage        (* "USAGE: duncan scale web=3 [worker=2, ...] --app foo --env production" *)
| MsgBadEnv (env : string)   (* "env %s is not a valid deployment environment\n" *)
| MsgErr (e : Mesos.error)   (* fmt.Println(err) *).

(** The actions of a run: what is printed and the calls of
    [marathon.Scale]. *)
Inductive Event : Type :=
| Print (m : Msg)
| Scale (app env : string) (args : list string).

(** What the command takes from outside: the size of an [int] and what
    [marathon.Scale] returns. *)
Record External : Type := mkExternal {
  intSize : Z;
  marathonScale : nat -> string -> string -> list string -> option Mesos.error
}.

Definition M (A : Type) : Type := Proc.M Event unit A.
Definition St : Type := Proc.St Event unit.

Section WithExternal.
Variable E : External.

(** [printUsageAndExit] *)
Definition printUsageAndExit : M unit :=
  emit (Print MsgUsage) ;;
  osExit (-1).

(** The body of the loop of [Run], for one argument. *)
Definition checkArg (p : string) (_ : unit) : M unit :=
  let s := Split p "=" in
  (if negb (List.length s =? 2)%nat then printUsageAndExit else ret tt) ;;
  s1 <- index s 1 ;;
  match Strconv.Atoi (intSize E) s1 with
  | inr _ => printUsageAndExit
  | inl _ => ret tt
  end.

(** The function [Run] of [scaleCmd], with the flags [app] and [env]. *)
Definition Run (app env : string) (args : list string) : M unit :=
  (if (List.length args =? 0)%nat then printUsageAndExit else ret tt) ;;
  (if negb (String.eqb env EmptyString) && negb (String.eqb env "stage")
      && negb (String.eqb env "production")
   then emit (Print (MsgBadEnv env)) ;; osExit (-1)
   else ret tt) ;;
  forEach args checkArg tt ;;
  n <- tick ;;
  emit (Scale app env args) ;;
  match marathonScale E n app env args with
  | Some err => emit (Print (MsgErr err)) ;; osExit (-1)
  | None => ret tt
  end.

End WithExternal.
End ScaleCmd.

(** ** Package marathon: waiting for a deployment *)

Module Marathon.
Import Mesos.
Import World(Response, StatusCode, Status, Body, ReadErr, HttpResult, HttpOk, HttpErr).
Import Chronos(Ctl, Continue, Leave).
Import Proc ProcNotations.

Inductive Msg : Type :=
| MsgWaiting                                 (* "Waiting for deploy...." *)
| MsgDone                                    (* "\rDONE\n" *).

(** The actions of the goroutine that calls [waitForDeployment].  The
    goroutine it starts writes the spinner to standard output for as long as
    the program runs and shares nothing with its caller; of it the trace has
    the [go] statement only. *)
Inductive Event : Type :=
| Print (m : Msg)
| GoSpinner
| Sleep (milliseconds : Z)
| Get (url : string).

(** What the function takes from outside: the configuration, the answers of
    the network and, of the decoded [[]Deployment], its length. *)
Record External : Type := mkExternal {
  marathon_host : string;
  httpGet : nat -> string -> HttpResult;
  unmarshalDeployments : Response -> nat + Mesos.error
}.

Definition M (A : Type) : Type := Proc.M Event unit A.
Definition St : Type := Proc.St Event unit.

Section WithExternal.
Variable E : External.

Definition deploymentsURL : string :=
  (marathon_host E ++ "/service/marathon/v2/deployments")%string.

(** [deploymentURL] *)
Definition deploymentURL : string :=
  (marathon_host E ++ "/service/marathon/v2/groups/")%string.

(** The body of the loop of [waitForDeployment]. *)
Definition poll : M (Ctl unit (option Mesos.error)) :=
  emit (Sleep 5000) ;;
  n <- tick ;;
  emit (Get deploymentsURL) ;;
  match httpGet E n deploymentsURL with
  | HttpErr err _ => ret (Leave (Some err))
  | HttpOk resp =>
      match unmarshalDeployments E resp with
      | inr err => ret (Leave (Some err))
      | inl len =>
          if (len =? 0)%nat then emit (Print MsgDone) ;; ret (Leave None)
          else ret (Continue tt)
      end
  end.

(** [waitForDeployment]; [fuel] bounds the number of polls. *)
Definition waitForDeployment (fuel : nat) (id : string)
  : M (option Mesos.error) :=
  emit (Print MsgWaiting) ;;
  emit GoSpinner ;;
  loop fuel poll.

End WithExternal.
End Marathon.

(** ** Vocabulary of the further properties *)

Module Specs.
Import GoStrings Mesos World Chronos.

(** [c] does not occur in [s]. *)
Definition lacks (c : ascii) (s : string) : bool :=
  all_chars (fun a => negb (Ascii.eqb a c)) s.

(** [p] put in front of the first piece. *)
Definition prepend (p : string) (l : list string) : list string :=
  match l with
  | [] => [p]
  | h :: tl => (p ++ h)%string :: tl
  end.

(** The submissions among the actions of a run. *)
Definition is_post (e : Event) : bool :=
  match e with Post _ _ _ => true | _ => false end.
Definition not_post (e : Event) : bool := negb (is_post e).
Definition posts (st : St) : nat := List.length (filter is_post (trace st)).

(** A computation adds at most [n] submissions. *)
Definition posts_le {A} (n : nat) (m : M A) : Prop :=
  forall st r st', m st = (r, st') -> posts st' <= posts st + n.

(** The marker [openLogPage] splits the log directory on. *)
Definition slavesMarker : string := "/var/lib/mesos/slave/slaves/".

End Specs.

(** ** Runs for the further properties *)

Module MoreRuns.
Import GoStrings Namer Mesos World Chronos Scenario.

(** A catalog whose second page cannot be decoded. *)
Definition w_second_page_bad : External :=
  world (fun n => if (n =? 0)%nat then "full" else "garbled")
    dirOk ipOk logText noContent.

(** A worker whose sandbox is not below the slaves directory. *)
Definition w_tmp_dir : External :=
  world (fun _ => "finished") (fun _ _ => inl "/tmp/sandbox") ipOk logText
    noContent.



End MoreRuns.

(** ** Vocabulary of the running poll *)

Module MonitorSpecs.
Import Mesos World Chronos.


End MonitorSpecs.

(** ** Vocabulary of task names *)

Module NameSpecs.
Import GoStrings Utf8 Regexp.

(** [s] with every rune that is not a lower-case letter replaced by one
    "-".  The runes are those Go decodes, a byte that starts no valid
    encoding being a rune of its own; [skip] counts the bytes still to step
    over of the rune replaced last. *)
Fixpoint dashFrom (skip : nat) (s : string) : string :=
  match s with
  | EmptyString => EmptyString
  | String c s' =>
      match skip with
      | S k => dashFrom k s'
      | O =>
          if is_lower c then String c (dashFrom 0 s')
          else String "-" (dashFrom (snd (DecodeRuneInString s) - 1) s')
      end
  end.

Definition dashed (s : string) : string := dashFrom 0 s.

(** [s] with every byte that is not a lower-case letter replaced by "-". *)
Fixpoint dashBytes (s : string) : string :=
  match s with
  | EmptyString => EmptyString
  | String c s' => String (if is_lower c then c else "-"%char) (dashBytes s')
  end.

(** An ASCII byte other than tab, line feed, vertical tab, form feed and
    carriage return: a space is the only white space among them. *)
Definition plain (c : ascii) : bool :=
  ((byteval c <? 128) && negb ((9 <=? byteval c) && (byteval c <=? 13)))%N.

End NameSpecs.


(** ** Vocabulary of the [scale] command *)

Module ScaleSpecs.
Import GoStrings Specs.

(** [p] is [proc=count] with one [=] only and a count that [Atoi] reads. *)
Definition well_formed (intSize : Z) (p : string) : Prop :=
  exists proc count n,
    p = (proc ++ "=" ++ count)%string /\
    lacks "=" proc = true /\ lacks "=" count = true /\
    Strconv.Atoi intSize count = inl n.

(** The same as a test on the pieces of [p]. *)
Definition accepted (intSize : Z) (p : string) : bool :=
  match Split p "=" with
  | [_; c] =>
      match Strconv.Atoi intSize c with inl _ => true | inr _ => false end
  | _ => false
  end.

(** The values the command takes for the flag [env]. *)
Definition known_env (env : string) : Prop :=
  env = EmptyString \/ env = "stage" \/ env = "production".

(** An environment in which [marathon.Scale] succeeds. *)
Definition scaleOk : ScaleCmd.External :=
  ScaleCmd.mkExternal 64 (fun _ _ _ _ => None).

Definition st0 : ScaleCmd.St := Proc.mkSt 0 [] tt.

End ScaleSpecs.

(** ** Vocabulary of package vault *)

Module VaultSpecs.
Import GoStrings Specs Mesos World.

(** The key and the value [Write] takes from an element of [kvs]: the first
    two pieces between [=]. *)
Definition key (kvp : string) : string := nth 0 (Split kvp "=") EmptyString.
Definition value (kvp : string) : string := nth 1 (Split kvp "=") EmptyString.

(** The value the elements of [kvs] give the key [k]: that of the last
    element with this key. *)
Fixpoint written (kvs : list string) (k : string) : option string :=
  match kvs with
  | [] => None
  | kvp :: rest =>
      match written rest k with
      | Some v => Some v
      | None => if String.eqb (key kvp) k then Some (value kvp) else None
      end
  end.

(** The lines [Write] prints for [kvs] on a map [kv]. *)
Definition changes (kv : StrMap.t string) (kvs : list string)
  : list Vault.Event :=
  flat_map (fun kvp =>
              match StrMap.find (key kvp) kv with
              | Some v =>
                  [Vault.Print (Vault.MsgChanging (key kvp) v (value kvp))]
              | None => []
              end) kvs.

(** A computation that leaves the map alone, sends nothing, and returns or
    panics. *)
Definition calm {A} (m : Vault.M A) : Prop :=
  forall st r st',
    m st = (r, st') ->
    Proc.store st' = Proc.store st
    /\ Proc.clock st <= Proc.clock st'
    /\ (exists msgs,
           Proc.trace st' = Proc.trace st ++ map Vault.Print msgs)
    /\ ((exists a, r = Val a) \/ (exists w, r = Panicked w)).

(** [m'] is [m] without the keys [keys]. *)
Definition pruned (keys : list string) (m m' : Vault.KVPairs) : Prop :=
  match m, m' with
  | None, None => True
  | Some kv, Some kv' =>
      forall k,
        StrMap.find k kv'
        = if existsb (String.eqb k) keys then None else StrMap.find k kv
  | _, _ => False
  end.

(** The answer 204 to the request numbered [n], a POST of the map [m]. *)
Definition stored (E : Vault.External) (n : nat) (url : string)
    (m : Vault.KVPairs) : Prop :=
  exists resp,
    Vault.clientDo E n "POST" url (Vault.vault_token E) (Some m) = HttpOk resp
    /\ StatusCode resp = StatusNoContent.

(** A map from a list of pairs. *)
Definition mapOf (l : list (string * string)) : StrMap.t string :=
  fold_right (fun p m => StrMap.add (fst p) (snd p) m) (StrMap.empty string) l.

(** A Vault that accepts every request and holds the pairs [l]; the runtime
    goes through a map in the order of its keys. *)
Definition vaultOk (l : list (string * string)) : Vault.External :=
  Vault.mkExternal "token" "vault.example.com" (fun _ => true)
    (fun _ method _ _ _ =>
       if String.eqb method "GET"
       then HttpOk (mkResponse StatusOK "200 OK" "{}" None)
       else HttpOk (mkResponse StatusNoContent "204 No Content" EmptyString None))
    (fun _ => inl (Some (mapOf l)))
    (fun _ kv => map fst (StrMap.elements kv)).

Definition holding (l : list (string * string)) : Vault.St :=
  Proc.mkSt 0 [] (Some (mapOf l)).

End VaultSpecs.

(** ** Vocabulary of package marathon *)

Module MarathonSpecs.
Import Mesos World.

(** The poll numbered [k] shows deployments in progress. *)
Definition pending (E : Marathon.External) (k : nat) : Prop :=
  exists resp len,
    Marathon.httpGet E k (Marathon.deploymentsURL E) = HttpOk resp
    /\ Marathon.unmarshalDeployments E resp = inl (S len).

(** The poll numbered [k] shows none. *)
Definition settled (E : Marathon.External) (k : nat) : Prop :=
  exists resp,
    Marathon.httpGet E k (Marathon.deploymentsURL E) = HttpOk resp
    /\ Marathon.unmarshalDeployments E resp = inl 0.

(** The poll numbered [k] fails with [err]: no answer, or one that is not a
    list of deployments. *)
Definition failed (E : Marathon.External) (k : nat) (err : Mesos.error)
  : Prop :=
  (exists resp, Marathon.httpGet E k (Marathon.deploymentsURL E)
                = HttpErr err resp)
  \/ (exists resp,
         Marathon.httpGet E k (Marathon.deploymentsURL E) = HttpOk resp
         /\ Marathon.unmarshalDeployments E resp = inr err).

(** [n] rounds of the loop: five seconds of sleep, then the request. *)
Fixpoint rounds (url : string) (n : nat) : list Marathon.Event :=
  match n with
  | O => []
  | S n' => Marathon.Sleep 5000 :: Marathon.Get url :: rounds url n'
  end.

(** A Marathon with deployments in progress during the first [n] polls. *)
Definition busyFor (n : nat) : Marathon.External :=
  Marathon.mkExternal "http://marathon"
    (fun k _ =>
       HttpOk (mkResponse StatusOK "200 OK"
                 (if (k <? n)%nat then "busy" else "idle") None))
    (fun resp => if String.eqb (Body resp) "busy" then inl 1 else inl 0).

End MarathonSpecs.

(** * Properties *)

(** ** The string library *)

Module Utf8Facts.
Import GoStrings Utf8 Regexp.
Local Open Scope nat_scope.

(** A rune of a non-empty string is at least one byte wide. *)
Lemma DecodeRuneInString_width s :
  s <> EmptyString -> 1 <= snd (DecodeRuneInString s) <= UTFMax.
Proof.
  destruct s as [|c0 t0]; [congruence|]; intros _.
  unfold DecodeRuneInString, UTFMax.
  destruct (first (byteval c0)) as [[[sz lo] hi]|]; [|simpl; lia].
  repeat match goal with
         | |- context [if ?b then _ else _] => destruct b
         | |- context [match ?t with EmptyString => _ | String _ _ => _ end] =>
             destruct t
         end; simpl; lia.
Qed.

Lemma scanBack_le fuel s start lim : (scanBack fuel s start lim <= start)%Z.
Proof.
  revert start; induction fuel as [|fuel IH]; intros start; simpl; [lia|].
  destruct (start <? lim)%Z; [lia|].
  destruct (RuneStart (byteAt s start)); [lia|].
  specialize (IH (start - 1)%Z); lia.
Qed.

Lemma length_drop n s : String.length (drop n s) = String.length s - n.
Proof.
  revert s; induction n as [|n IH]; intros [|c s]; simpl; auto.
Qed.

Lemma length_take n s : String.length (take n s) = Nat.min n (String.length s).
Proof.
  revert s; induction n as [|n IH]; intros [|c s]; simpl; auto.
Qed.

(** The last rune of a non-empty string is at least one byte wide. *)
Lemma DecodeLastRuneInString_width s :
  s <> EmptyString -> 1 <= snd (DecodeLastRuneInString s).
Proof.
  intros Hs; unfold DecodeLastRuneInString.
  assert (He : 0 < String.length s) by (destruct s; [congruence|simpl; lia]).
  replace (Z.of_nat (String.length s) =? 0)%Z with false
    by (symmetry; apply Z.eqb_neq; lia).
  destruct (byteAt s (Z.of_nat (String.length s) - 1) <? RuneSelf)%N;
    [simpl; lia|].
  set (start := Z.max 0 (scanBack UTFMax s (Z.of_nat (String.length s) - 2)
                           (Z.max 0 (Z.of_nat (String.length s) - Z.of_nat UTFMax)))).
  assert (Hstart : (0 <= start < Z.of_nat (String.length s))%Z).
  { subst start.
    pose proof (scanBack_le UTFMax s (Z.of_nat (String.length s) - 2)
                  (Z.max 0 (Z.of_nat (String.length s) - Z.of_nat UTFMax))).
    lia. }
  destruct (DecodeRuneInString (drop (Z.to_nat start) s)) as [r size] eqn:Hd.
  destruct (start + Z.of_nat size =? Z.of_nat (String.length s))%Z eqn:Heq;
    [|simpl; lia].
  simpl.
  assert (Hne : drop (Z.to_nat start) s <> EmptyString).
  { intros H0; apply (f_equal String.length) in H0.
    rewrite length_drop in H0; simpl in H0; lia. }
  pose proof (DecodeRuneInString_width _ Hne) as Hw; rewrite Hd in Hw.
  simpl in Hw; lia.
Qed.

(** The loop of [lastIndexFunc] moves [i] down by at least one byte at each
    iteration: more iterations than [i] change nothing. *)
Lemma lastIndexNonSpace_fuel fuel k s i :
  (i < Z.of_nat fuel)%Z -> (i <= Z.of_nat (String.length s))%Z ->
  lastIndexNonSpace (fuel + k) s i = lastIndexNonSpace fuel s i.
Proof.
  revert i; induction fuel as [|fuel IH]; intros i Hi Hlen.
  - destruct k as [|k]; simpl; [reflexivity|].
    replace (0 <? i)%Z with false by (symmetry; apply Z.ltb_ge; lia).
    reflexivity.
  - simpl. destruct (0 <? i)%Z eqn:Hpos; [|reflexivity].
    apply Z.ltb_lt in Hpos.
    assert (Hne : take (Z.to_nat i) s <> EmptyString).
    { intros H0; apply (f_equal String.length) in H0.
      rewrite length_take in H0; simpl in H0; lia. }
    pose proof (DecodeLastRuneInString_width _ Hne) as Hw.
    destruct (DecodeLastRuneInString (take (Z.to_nat i) s)) as [r size].
    simpl in Hw.
    destruct (IsSpace r); [|reflexivity].
    apply IH; lia.
Qed.

End Utf8Facts.

(** ** Task names *)

Module NamerFacts.
Import GoStrings Utf8 Regexp Namer.
Local Open Scope nat_scope.

Lemma all_chars_app p s1 s2 :
  all_chars p (s1 ++ s2)%string = all_chars p s1 && all_chars p s2.
Proof.
  induction s1 as [|c s1 IH]; simpl; [reflexivity|].
  now rewrite IH, andb_assoc.
Qed.

Lemma all_chars_take p n s : all_chars p s = true -> all_chars p (take n s) = true.
Proof.
  revert s; induction n as [|n IH]; intros [|c s]; simpl; auto.
  intros H; apply andb_true_iff in H as [Hc Hs].
  now rewrite Hc, IH.
Qed.

Lemma all_chars_drop p n s : all_chars p s = true -> all_chars p (drop n s) = true.
Proof.
  revert s; induction n as [|n IH]; intros [|c s]; simpl; auto.
  intros H; apply andb_true_iff in H as [_ Hs]; auto.
Qed.

Lemma all_chars_weaken (p q : ascii -> bool) s :
  (forall c, p c = true -> q c = true) ->
  all_chars p s = true -> all_chars q s = true.
Proof.
  intros Hpq; induction s as [|c s IH]; simpl; auto.
  intros H; apply andb_true_iff in H as [Hc Hs].
  now rewrite (Hpq _ Hc), IH.
Qed.

Lemma all_chars_Join p elems sep :
  all_chars p sep = true ->
  Forall (fun e => all_chars p e = true) elems ->
  all_chars p (Join elems sep) = true.
Proof.
  intros Hsep; induction 1 as [|e rest He Hrest IH]; simpl; [reflexivity|].
  destruct rest as [|e' rest']; [assumption|].
  now rewrite !all_chars_app, He, Hsep, IH.
Qed.

Lemma lowerRun_lower s : all_chars is_lower (take (lowerRun s) s) = true.
Proof.
  induction s as [|c s IH]; simpl; [reflexivity|].
  destruct (is_lower c) eqn:Hc; simpl; [now rewrite Hc|reflexivity].
Qed.

Lemma lowerRun_none s :
  all_chars (fun c => negb (is_lower c)) s = true -> lowerRun s = 0.
Proof.
  destruct s as [|c s]; simpl; [reflexivity|].
  intros H; apply andb_true_iff in H as [Hc _].
  apply negb_true_iff in Hc; now rewrite Hc.
Qed.

Lemma slice_run pos k s : slice pos (pos + k) s = take k (drop pos s).
Proof. unfold slice; f_equal; lia. Qed.

(** Every match of ["[a-z]*"] is a run of lower-case letters. *)
Lemma allMatches_lower fuel s n pos i prev :
  Forall (fun m => all_chars is_lower (slice (fst m) (snd m) s) = true)
         (allMatches fuel execLowerStar s n pos i prev).
Proof.
  revert pos i prev; induction fuel as [|fuel IH]; intros pos i prev; simpl;
    [constructor|].
  destruct ((i <? n) && (pos <=? String.length s)); [|constructor].
  assert (Hm : all_chars is_lower
                 (slice pos (pos + lowerRun (drop pos s)) s) = true)
    by (rewrite slice_run; apply lowerRun_lower).
  destruct (pos + lowerRun (drop pos s) =? pos).
  - destruct (negb _); [constructor; [exact Hm|]|]; apply IH.
  - constructor; [exact Hm | apply IH].
Qed.

(** In a string without lower-case letters every match is empty. *)
Lemma allMatches_empty fuel s n pos i prev :
  all_chars (fun c => negb (is_lower c)) s = true ->
  Forall (fun m => slice (fst m) (snd m) s = EmptyString)
         (allMatches fuel execLowerStar s n pos i prev).
Proof.
  intros Hs; revert pos i prev; induction fuel as [|fuel IH]; intros pos i prev;
    simpl; [constructor|].
  destruct ((i <? n) && (pos <=? String.length s)); [|constructor].
  assert (Hr : lowerRun (drop pos s) = 0)
    by (apply lowerRun_none, all_chars_drop, Hs).
  assert (Hm : slice pos (pos + lowerRun (drop pos s)) s = EmptyString)
    by (rewrite slice_run, Hr; reflexivity).
  destruct (pos + lowerRun (drop pos s) =? pos).
  - destruct (negb _); [constructor; [exact Hm|]|]; apply IH.
  - constructor; [exact Hm | apply IH].
Qed.

(** Further iterations change nothing once [pos] has passed the end:
    [len(s) + 2 - pos] iterations are enough. *)
Lemma allMatches_fuel fuel k s n pos i prev :
  String.length s + 2 <= fuel + pos ->
  allMatches (fuel + k) execLowerStar s n pos i prev
  = allMatches fuel execLowerStar s n pos i prev.
Proof.
  revert pos i prev; induction fuel as [|fuel IH]; intros pos i prev Hf.
  - simpl. destruct k as [|k]; simpl; [reflexivity|].
    replace (pos <=? String.length s) with false
      by (symmetry; apply Nat.leb_gt; lia).
    now rewrite andb_false_r.
  - simpl.
    destruct ((i <? n) && (pos <=? String.length s)) eqn:Hg; [|reflexivity].
    apply andb_true_iff in Hg as [_ Hg]; apply Nat.leb_le in Hg.
    destruct (pos + lowerRun (drop pos s) =? pos) eqn:Hem.
    + assert (Hp : String.length s + 2 <=
                   fuel + (if 0 <? stepWidth s pos then pos + stepWidth s pos
                           else String.length s + 1)).
      { destruct (0 <? stepWidth s pos) eqn:Hw; [|lia].
        apply Nat.ltb_lt in Hw; lia. }
      destruct (negb _); rewrite IH by exact Hp; reflexivity.
    + apply Nat.eqb_neq in Hem.
      rewrite IH by lia; reflexivity.
Qed.

(** [FindAllString] has all the matches: more iterations add none. *)
Lemma FindAllString_fuel k s :
  map (fun m => slice (fst m) (snd m) s)
      (allMatches (String.length s + 2 + k) execLowerStar s
         (String.length s + 1) 0 0 (-1))
  = FindAllString_lowerStar s.
Proof.
  unfold FindAllString_lowerStar; rewrite allMatches_fuel by lia; reflexivity.
Qed.

Lemma trimLeftFrom_chars p skip s :
  all_chars p s = true -> all_chars p (trimLeftFrom skip s) = true.
Proof.
  revert skip; induction s as [|c s IH]; intros skip H; [reflexivity|].
  pose proof H as H'; simpl in H'; apply andb_true_iff in H' as [_ Hs].
  cbn [trimLeftFrom].
  destruct skip as [|k]; [|now apply IH].
  destruct (DecodeRuneInString (String c s)) as [r size].
  destruct (IsSpace r); [now apply IH | exact H].
Qed.

(** [TrimSpace] returns a part of its argument. *)
Lemma TrimSpace_chars p s :
  all_chars p s = true -> all_chars p (TrimSpace s) = true.
Proof.
  intros H; unfold TrimSpace, TrimRightSpace.
  apply all_chars_take, trimLeftFrom_chars, H.
Qed.

Lemma FindAllString_lower s :
  Forall (fun e => all_chars name_char e = true) (FindAllString_lowerStar s).
Proof.
  unfold FindAllString_lowerStar; apply Forall_map.
  eapply Forall_impl; [|apply allMatches_lower].
  intros m Hm; simpl.
  eapply all_chars_weaken; [|exact Hm].
  intros c Hc; unfold name_char; now rewrite Hc.
Qed.

Lemma sanitizedToken_chars c : all_chars name_char (sanitizedToken c) = true.
Proof.
  unfold sanitizedToken; apply all_chars_Join; [reflexivity|].
  apply FindAllString_lower.
Qed.

Lemma sanitizedCommand_chars cmd :
  all_chars name_char (sanitizedCommand cmd) = true.
Proof.
  unfold sanitizedCommand; apply all_chars_Join; [reflexivity|].
  apply Forall_map, Forall_forall; intros c _; apply sanitizedToken_chars.
Qed.

Lemma Join_empties elems :
  Forall (fun e => e = EmptyString) elems -> all_chars is_dash (Join elems "-") = true.
Proof.
  induction 1 as [|e rest He Hrest IH]; simpl; [reflexivity|].
  subst e; destruct rest as [|e' rest']; [reflexivity|].
  simpl; exact IH.
Qed.

Lemma sanitizedToken_no_lower c :
  all_chars (fun ch => negb (is_lower ch)) c = true ->
  all_chars is_dash (sanitizedToken c) = true.
Proof.
  intros H; unfold sanitizedToken, FindAllString_lowerStar.
  apply Join_empties, Forall_map, allMatches_empty, TrimSpace_chars, H.
Qed.

Lemma RunCommand_task E fuel app env cmd st resp :
  World.httpGet E (World.clock st) (World.CurrentDeploymentTagURL E app env)
  = World.HttpOk resp ->
  World.StatusCode resp <> World.StatusForbidden ->
  World.ReadErr resp = None ->
  Chronos.RunCommand E fuel app env cmd st
  = Chronos.launchChronosOneOffCommand E fuel
      (World.chronos_host E ++ "/service/chronos/v1/scheduler/iso8601")%string
      (World.mkTaskVars app env (World.Body resp) cmd (deriveTaskName app env cmd))
      (World.mkSt (S (World.clock st))
         (World.trace st ++ [World.Get (World.CurrentDeploymentTagURL E app env)])).
Proof.
  intros Hget Hs Herr.
  unfold Chronos.RunCommand, Chronos.fetchCurrentTag, Chronos.http_Get,
    World.bind at 1 2 3 4, World.tick, World.emit, World.ret at 1.
  cbn [World.clock World.trace]; rewrite Hget.
  apply Z.eqb_neq in Hs; rewrite Hs.
  unfold World.ret at 1; rewrite Herr.
  unfold World.bind.
  destruct (Chronos.launchChronosOneOffCommand _ _ _ _ _) as [[[e|]|c|w|] st'];
    reflexivity.
Qed.

(** C3, as the spec words it, fails: the example is not named
    "foo-production-rake-stuffjunk", because "stuff:junk" gives two
    segments; a piece without lower-case letters such as "123" does not
    give an empty segment; and the name keeps the bytes of the app, so it
    has an upper-case letter when the app has one. *)
Lemma example_name_is_not_stuffjunk :
  deriveTaskName "foo" "production" "rake stuff:junk"
  <> "foo-production-rake-stuffjunk" /\
  sanitizedToken "stuff:junk" <> "stuffjunk" /\
  sanitizedToken "123" <> EmptyString /\
  all_chars name_char (deriveTaskName "Foo" "production" "rake") = false.
Proof. repeat split; try discriminate; reflexivity. Qed.

End NamerFacts.

(** ** The monad of runs *)

Module RunFacts.
Import Mesos World Chronos MNotations.

Lemma adds_ret {A} p (a : A) : adds p (ret a).
Proof.
  intros st r st' H; inversion H; subst; split; [lia|].
  exists []; now rewrite app_nil_r.
Qed.

Lemma adds_osExit {A} p c : adds p (@osExit A c).
Proof.
  intros st r st' H; inversion H; subst; split; [lia|].
  exists []; now rewrite app_nil_r.
Qed.

Lemma adds_panic {A} p w : adds p (@panic A w).
Proof.
  intros st r st' H; inversion H; subst; split; [lia|].
  exists []; now rewrite app_nil_r.
Qed.

Lemma adds_outOfFuel {A} p : adds p (@outOfFuel A).
Proof.
  intros st r st' H; inversion H; subst; split; [lia|].
  exists []; now rewrite app_nil_r.
Qed.

Lemma adds_emit (p : Event -> bool) e : p e = true -> adds p (emit e).
Proof.
  intros Hp st r st' H; inversion H; subst; simpl; split; [lia|].
  exists [e]; simpl; now rewrite Hp.
Qed.

Lemma adds_tick p : adds p tick.
Proof.
  intros st r st' H; inversion H; subst; simpl; split; [lia|].
  exists []; now rewrite app_nil_r.
Qed.

Lemma adds_bind {A B} p (m : M A) (k : A -> M B) :
  adds p m -> (forall a, adds p (k a)) -> adds p (bind m k).
Proof.
  intros Hm Hk st r st' H; unfold bind in H.
  destruct (m st) as [[a|c|w|] st1] eqn:Hr;
    try (inversion H; subst; exact (Hm _ _ _ Hr)).
  destruct (Hm _ _ _ Hr) as [C1 [l1 [E1 P1]]], (Hk a _ _ _ H) as [C2 [l2 [E2 P2]]].
  split; [lia|].
  exists (l1 ++ l2); split; [now rewrite E2, E1, app_assoc|].
  now rewrite forallb_app, P1, P2.
Qed.

Lemma adds_loop {S R} p fuel (body : S -> M (Ctl S R)) s :
  (forall s, adds p (body s)) -> adds p (loop fuel body s).
Proof.
  intros Hb; revert s; induction fuel as [|fuel IH]; intros s; simpl.
  - apply adds_outOfFuel.
  - apply adds_bind; [apply Hb|].
    intros [s'|r]; [apply IH | apply adds_ret].
Qed.

Lemma adds_any {A} (p : Event -> bool) (m : M A) : adds p m -> adds any m.
Proof.
  intros H st r st' Hr; destruct (H _ _ _ Hr) as [C [l [El _]]].
  split; [exact C|]; exists l; split; [exact El|].
  apply forallb_forall; reflexivity.
Qed.

Create HintDb adds.
#[export] Hint Resolve adds_ret adds_osExit adds_panic adds_outOfFuel
  adds_tick : adds.
#[export] Hint Extern 1 (adds _ (emit _)) =>
  (apply adds_emit; reflexivity) : adds.

Ltac adds_step :=
  match goal with
  | |- adds _ (bind _ _) => apply adds_bind; [|intros ?]
  | |- adds _ (loop _ _ _) => apply adds_loop; intros ?
  | |- adds _ (match ?x with _ => _ end) => destruct x
  | |- adds _ (if ?b then _ else _) => destruct b
  | |- adds _ (let '(_, _) := ?x in _) => destruct x
  | |- adds _ _ => solve [auto with adds]
  end.

Ltac adds_auto := repeat adds_step.

Section WithExternal.
Variable E : External.

Lemma adds_http_Get url : adds is_get (http_Get E url).
Proof. unfold http_Get; adds_auto. Qed.

Lemma adds_deref p r : adds p (deref r).
Proof. unfold deref; adds_auto. Qed.

Lemma adds_index {A} p (a : list A) i : adds p (index a i).
Proof. unfold index; adds_auto. Qed.

Hint Resolve adds_http_Get adds_deref adds_index : adds.

(** The catalog fetch does nothing but [GET] requests. *)
Lemma adds_scheduledTasks fuel name : adds is_get (scheduledTasks E fuel name).
Proof.
  unfold scheduledTasks; adds_auto.
  unfold scheduledTasks_iter; adds_auto.
Qed.

Lemma any_http_Get url : adds any (http_Get E url).
Proof. exact (adds_any _ _ (adds_http_Get url)). Qed.

Lemma any_scheduledTasks fuel name : adds any (scheduledTasks E fuel name).
Proof. exact (adds_any _ _ (adds_scheduledTasks fuel name)). Qed.

Lemma any_http_Post url ct body : adds any (http_Post E url ct body).
Proof. unfold http_Post; adds_auto. Qed.

Lemma any_callLogDirectory t : adds any (callLogDirectory E t).
Proof. unfold callLogDirectory; adds_auto. Qed.

Lemma any_callSlaveIP t : adds any (callSlaveIP E t).
Proof. unfold callSlaveIP; adds_auto. Qed.

Hint Resolve any_http_Get any_scheduledTasks any_http_Post
  any_callLogDirectory any_callSlaveIP : adds.

Lemma any_openLogPage t : adds any (openLogPage E t).
Proof. unfold openLogPage, Printf, Println; adds_auto. Qed.

Lemma any_printLines lines : adds any (printLines lines).
Proof.
  induction lines as [|l rest IH]; simpl; [apply adds_ret|].
  unfold Printf; adds_auto; exact IH.
Qed.

Hint Resolve any_openLogPage any_printLines : adds.

Lemma any_printLogs t : adds any (printLogs E t).
Proof. unfold printLogs, Printf, Println; adds_auto. Qed.

Hint Resolve any_printLogs : adds.

Lemma any_handleTask_switch t : adds any (handleTask_switch E t).
Proof. unfold handleTask_switch, Printf; adds_auto. Qed.

Hint Resolve any_handleTask_switch : adds.

Lemma any_handleTask_iter fuel name count u :
  adds any (handleTask_iter E fuel name count u).
Proof.
  unfold handleTask_iter, handleTask_selected, timeSleep, Printf; adds_auto.
Qed.

End WithExternal.

End RunFacts.

(** ** The monitor *)

Module MonitorFacts.
Import GoStrings Mesos World Chronos MNotations Scenario Polls RunFacts.

Lemma bind_val {A B} (m : M A) (k : A -> M B) st a st' :
  m st = (Val a, st') -> bind m k st = k a st'.
Proof. intros H; unfold bind; now rewrite H. Qed.

(** C1. Disambiguation: whatever the number of records [baseline] the fetch
    before submission returned, when a poll returns one record more, the
    monitor takes the first record of the polled sequence, prints its state
    and dispatches on that record alone. *)
Theorem handleTask_selects_first (E : External) (fuel : nat) (name : string)
    (baseline post : list Task) (st st' : St) :
  scheduledTasks E fuel name (snd (timeSleep 500 st)) = (Val (inl post), st') ->
  List.length post = S (List.length baseline) ->
  exists task rest,
    post = task :: rest /\
    handleTask_iter E fuel name (len baseline) tt st
    = (Printf (MsgTaskState (State task)) ;; handleTask_switch E task) st'.
Proof.
  intros Hpoll Hlen.
  destruct post as [|task rest]; [discriminate|].
  exists task, rest; split; [reflexivity|].
  unfold handleTask_iter.
  rewrite (bind_val (timeSleep 500) _ st tt (snd (timeSleep 500 st)))
    by reflexivity.
  rewrite (bind_val _ _ _ _ _ Hpoll).
  replace (len (task :: rest) =? len baseline)%Z with false
    by (symmetry; apply Z.eqb_neq; unfold len; rewrite Hlen; lia).
  replace (len (task :: rest) =? len baseline + 1)%Z with true
    by (symmetry; apply Z.eqb_eq; unfold len; rewrite Hlen; lia).
  reflexivity.
Qed.

Lemma handleTask_selects_first_witness :
  scheduledTasks w_running 1 Scenario.name (snd (timeSleep 500 st0))
  = (Val (inl [job "TASK_RUNNING" (Some 0%Q) None; old; old]),
     mkSt 1 [Sleep 500; Get "http://marathon/mesos/tasks?offset=0"]) /\
  exists task rest,
    [job "TASK_RUNNING" (Some 0%Q) None; old; old] = task :: rest /\
    handleTask_iter w_running 1 Scenario.name (len [old; old]) tt st0
    = (Printf (MsgTaskState (State task)) ;; handleTask_switch w_running task)
        (mkSt 1 [Sleep 500; Get "http://marathon/mesos/tasks?offset=0"]).
Proof.
  split; [reflexivity|].
  apply (handleTask_selects_first w_running 1 Scenario.name [old; old]
           [job "TASK_RUNNING" (Some 0%Q) None; old; old] st0);
    reflexivity.
Defined.


(** *** The cases of the switch *)

Lemma states_neq (E : External) :
  states_distinct E ->
  TaskRunning E <> TaskStaging E /\ TaskRunning E <> TaskFinished E /\
  TaskRunning E <> TaskFailed E /\ TaskRunning E <> TaskKilled E /\
  TaskStaging E <> TaskFinished E /\ TaskStaging E <> TaskFailed E /\
  TaskStaging E <> TaskKilled E /\ TaskFinished E <> TaskFailed E /\
  TaskFinished E <> TaskKilled E /\ TaskFailed E <> TaskKilled E.
Proof.
  unfold states_distinct, handled; intros H.
  repeat match goal with
         | H : NoDup (_ :: _) |- _ => inversion H; clear H; subst
         end.
  cbn [In] in *; intuition congruence.
Qed.

Lemma eqb_state_neq (a b : string) : a <> b -> String.eqb a b = false.
Proof. intros H; now apply String.eqb_neq. Qed.

(** Rewrites the tests of the switch once the state is known. *)
Ltac switch_on E Hd Hs :=
  destruct (states_neq E Hd) as (? & ? & ? & ? & ? & ? & ? & ? & ? & ?);
  unfold handleTask_switch; rewrite Hs;
  repeat (rewrite String.eqb_refl
          || rewrite eqb_state_neq by congruence).

Lemma switch_staging E task st :
  states_distinct E -> State task = TaskStaging E ->
  handleTask_switch E task st = (Val (Continue tt), st).
Proof. intros Hd Hs; switch_on E Hd Hs; reflexivity. Qed.

Lemma switch_running E task st :
  State task = TaskRunning E ->
  handleTask_switch E task st = (openLogPage E task ;; ret (Continue tt)) st.
Proof.
  intros Hs; unfold handleTask_switch; now rewrite Hs, String.eqb_refl.
Qed.

Lemma switch_finished E task st :
  states_distinct E -> State task = TaskFinished E ->
  handleTask_switch E task st
  = (openLogPage E task ;;
     match Duration task with
     | inr err => ret (Leave (Some err))
     | inl dur =>
         Printf (MsgTaskFinished dur) ;; printLogs E task ;; ret (Leave None)
     end) st.
Proof. intros Hd Hs; switch_on E Hd Hs; reflexivity. Qed.

Lemma switch_failed E task st :
  states_distinct E -> State task = TaskFailed E ->
  handleTask_switch E task st
  = (openLogPage E task ;; printLogs E task ;;
     match Duration task with
     | inr err => ret (Leave (Some err))
     | inl dur => ret (Leave (Some (ErrTaskFailed dur)))
     end) st.
Proof. intros Hd Hs; switch_on E Hd Hs; reflexivity. Qed.

Lemma switch_killed E task st :
  states_distinct E -> State task = TaskKilled E ->
  handleTask_switch E task st
  = match Duration task with
    | inr err => (Val (Leave (Some err)), st)
    | inl dur => (Val (Leave (Some (ErrTaskKilled dur))), st)
    end.
Proof.
  intros Hd Hs; switch_on E Hd Hs; now destruct (Duration task).
Qed.

Lemma switch_default E task st :
  ~ In (State task) (handled E) ->
  handleTask_switch E task st
  = (Val (Leave (Some (ErrStateUnhandled (State task)))), st).
Proof.
  intros Hn; unfold handled in Hn; cbn [In] in Hn.
  unfold handleTask_switch.
  repeat rewrite eqb_state_neq by (intros Heq; apply Hn; rewrite Heq; tauto).
  reflexivity.
Qed.

(** An iteration that ends in [return] ends the loop. *)
Lemma loop_leave {S R} fuel (body : S -> M (Ctl S R)) s st r st' :
  body s st = (Val (Leave r), st') ->
  loop (Datatypes.S fuel) body s st = (Val r, st').
Proof. intros H; simpl; unfold bind; now rewrite H. Qed.

Lemma loop_continue {S R} fuel (body : S -> M (Ctl S R)) s st s' st' :
  body s st = (Val (Continue s'), st') ->
  loop (Datatypes.S fuel) body s st = loop fuel body s' st'.
Proof. intros H; simpl; unfold bind; now rewrite H. Qed.

Lemma iter_selected E fuel name count st tasks st' :
  scheduledTasks E fuel name (snd (timeSleep 500 st)) = (Val (inl tasks), st') ->
  len tasks = (count + 1)%Z ->
  handleTask_iter E fuel name count tt st = handleTask_selected E tasks st'.
Proof.
  intros Hpoll Hlen; unfold handleTask_iter.
  rewrite (bind_val (timeSleep 500) _ st tt (snd (timeSleep 500 st)))
    by reflexivity.
  rewrite (bind_val _ _ _ _ _ Hpoll).
  replace (len tasks =? count)%Z with false by (symmetry; apply Z.eqb_neq; lia).
  replace (len tasks =? count + 1)%Z with true by (symmetry; apply Z.eqb_eq; lia).
  reflexivity.
Qed.


Lemma handleTask_first_poll E fuel name count st tasks st1 :
  scheduledTasks E (S fuel) name
    (snd (timeSleep 500 (snd (Println MsgScheduling st))))
  = (Val (inl tasks), st1) ->
  len tasks = (count + 1)%Z ->
  forall r st2,
    handleTask_selected E tasks st1 = (Val (Leave r), st2) ->
    handleTask E (S fuel) name count st = (Val r, st2).
Proof.
  intros Hpoll Hlen r st2 Hsel.
  unfold handleTask.
  rewrite (bind_val (Println MsgScheduling) _ st tt
             (snd (Println MsgScheduling st))) by reflexivity.
  apply loop_leave.
  now rewrite (iter_selected _ _ _ _ _ _ _ Hpoll Hlen).
Qed.

(** C2, as the code has it.  With pairwise different state constants, every
    state has its action in the switch: [TaskStaging] continues polling;
    [TaskRunning] continues polling once [openLogPage] has returned;
    [TaskFinished] returns nil, and [TaskFailed] and [TaskKilled] return an
    error carrying the duration, when the duration can be computed and the
    log helpers called on the way return; any other state returns the
    "unhandled" error at once, also from the polling loop of
    [handleTask]. *)
Theorem handleTask_switch_total (E : External) (task : Task) (st : St) :
  states_distinct E ->
  (State task = TaskStaging E ->
   handleTask_switch E task st = (Val (Continue tt), st)) /\
  (State task = TaskRunning E ->
   forall st1, openLogPage E task st = (Val tt, st1) ->
   handleTask_switch E task st = (Val (Continue tt), st1)) /\
  (State task = TaskFinished E ->
   forall st1 dur st2,
     openLogPage E task st = (Val tt, st1) ->
     Duration task = inl dur ->
     printLogs E task (snd (Printf (MsgTaskFinished dur) st1)) = (Val tt, st2) ->
     handleTask_switch E task st = (Val (Leave None), st2)) /\
  (State task = TaskFailed E ->
   forall st1 st2 dur,
     openLogPage E task st = (Val tt, st1) ->
     printLogs E task st1 = (Val tt, st2) ->
     Duration task = inl dur ->
     handleTask_switch E task st = (Val (Leave (Some (ErrTaskFailed dur))), st2)) /\
  (State task = TaskKilled E ->
   forall dur, Duration task = inl dur ->
   handleTask_switch E task st = (Val (Leave (Some (ErrTaskKilled dur))), st)) /\
  (~ In (State task) (handled E) ->
   handleTask_switch E task st
   = (Val (Leave (Some (ErrStateUnhandled (State task)))), st) /\
   forall fuel name count s rest,
     scheduledTasks E (S fuel) name
       (snd (timeSleep 500 (snd (Println MsgScheduling s))))
     = (Val (inl (task :: rest)), st) ->
     len (task :: rest) = (count + 1)%Z ->
     handleTask E (S fuel) name count s
     = (Val (Some (ErrStateUnhandled (State task))),
        snd (Printf (MsgTaskState (State task)) st))).
Proof.
  intros Hd; repeat split.
  - now apply switch_staging.
  - intros Hs st1 Hopen; rewrite (switch_running _ _ _ Hs).
    now rewrite (bind_val _ _ _ _ _ Hopen).
  - intros Hs st1 dur st2 Hopen Hdur Hlogs.
    rewrite (switch_finished _ _ _ Hd Hs), (bind_val _ _ _ _ _ Hopen), Hdur.
    rewrite (bind_val (Printf (MsgTaskFinished dur)) _ st1 tt
               (snd (Printf (MsgTaskFinished dur) st1))) by reflexivity.
    now rewrite (bind_val _ _ _ _ _ Hlogs).
  - intros Hs st1 st2 dur Hopen Hlogs Hdur.
    rewrite (switch_failed _ _ _ Hd Hs), (bind_val _ _ _ _ _ Hopen).
    now rewrite (bind_val _ _ _ _ _ Hlogs), Hdur.
  - intros Hs dur Hdur; now rewrite (switch_killed _ _ _ Hd Hs), Hdur.
  - now apply switch_default.
  - intros fuel name count s rest Hpoll Hlen.
    apply (handleTask_first_poll _ _ _ _ _ _ _ Hpoll Hlen).
    unfold handleTask_selected; simpl.
    rewrite (bind_val (ret task) _ st task st) by reflexivity.
    rewrite (bind_val (Printf (MsgTaskState (State task))) _ st tt
               (snd (Printf (MsgTaskState (State task)) st))) by reflexivity.
    now apply switch_default.
Qed.

Lemma scenario_states_distinct catalog logdir slaveip logs post :
  states_distinct (world catalog logdir slaveip logs post).
Proof.
  unfold states_distinct, handled; simpl.
  repeat (constructor; [cbn [In]; intuition discriminate|]).
  constructor.
Qed.

Lemma handleTask_switch_total_witness :
  states_distinct w_lost /\
  handleTask w_lost 1 Scenario.name 2 st0
  = (Val (Some (ErrStateUnhandled "TASK_LOST")),
     mkSt 1 [Print MsgScheduling; Sleep 500;
             Get "http://marathon/mesos/tasks?offset=0";
             Print (MsgTaskState "TASK_LOST")]).
Proof.
  split; [apply scenario_states_distinct|].
  refine (proj2 (proj2 (proj2 (proj2 (proj2 (proj2
           (handleTask_switch_total w_lost (job "TASK_LOST" None None)
              (mkSt 1 [Print MsgScheduling; Sleep 500;
                       Get "http://marathon/mesos/tasks?offset=0"])
              (scenario_states_distinct _ _ _ _ _)))))) _)
           0 Scenario.name 2%Z st0 [old; old] _ _).
  - simpl; intuition discriminate.
  - reflexivity.
  - reflexivity.
Defined.

(** C2, as the spec words it, fails: a record in state [TaskRunning] whose
    log directory cannot be resolved ends the process with [os.Exit(-1)]
    instead of continuing the polling. *)
Lemma handleTask_running_exits :
  states_distinct w_nodir /\
  State (job "TASK_RUNNING" (Some 0%Q) None) = TaskRunning w_nodir /\
  handleTask_switch w_nodir (job "TASK_RUNNING" (Some 0%Q) None) st0
  = (Exited (-1),
     mkSt 1 [AskLogDirectory (job "TASK_RUNNING" (Some 0%Q) None);
             Print (MsgCannotFetchLogs (MesosError "no log directory"))]) /\
  fst (handleTask_switch w_nodir (job "TASK_RUNNING" (Some 0%Q) None) st0)
  <> Val (Continue tt) /\
  fst (handleTask w_nodir 3 Scenario.name 2 st0) = Exited (-1).
Proof.
  split; [apply scenario_states_distinct|].
  repeat split; try reflexivity; discriminate.
Qed.


(** *** Durations *)

Lemma switch_no_duration E task st :
  states_distinct E ->
  Duration task = inr MissingTimestamp ->
  State task = TaskFinished E \/ State task = TaskFailed E
  \/ State task = TaskKilled E ->
  forall c st', handleTask_switch E task st = (Val c, st') ->
                c = Leave (Some MissingTimestamp).
Proof.
  intros Hd Hdur [Hs|[Hs|Hs]] c st' H.
  - rewrite (switch_finished _ _ _ Hd Hs), Hdur in H; unfold bind in H.
    destruct (openLogPage E task st) as [[[]|?|?|] ?]; inversion H; reflexivity.
  - rewrite (switch_failed _ _ _ Hd Hs), Hdur in H; unfold bind in H.
    destruct (openLogPage E task st) as [[[]|?|?|] s1]; try discriminate.
    destruct (printLogs E task s1) as [[[]|?|?|] ?]; inversion H; reflexivity.
  - rewrite (switch_killed _ _ _ Hd Hs), Hdur in H; inversion H; reflexivity.
Qed.

(** C7. The duration of a record with start timestamp [t0] and stop
    timestamp [t1] is [t1 - t0] seconds; for a record that lacks one of
    them the computation fails with [MissingTimestamp], and the switch of
    the monitor then returns that error for each terminal state (at once
    for [TaskKilled], after the log helpers have returned for
    [TaskFinished] and [TaskFailed]) and returns nothing else: no success
    and no error carrying a duration. *)
Theorem duration_or_missing_timestamp (E : External) (task : Task) (st : St) :
  states_distinct E ->
  (forall t0 t1, StartTime task = Some t0 -> StopTime task = Some t1 ->
                 Duration task = inl (t1 - t0)%Q) /\
  (StartTime task = None \/ StopTime task = None ->
   Duration task = inr MissingTimestamp /\
   (State task = TaskKilled E ->
    handleTask_switch E task st = (Val (Leave (Some MissingTimestamp)), st)) /\
   (State task = TaskFinished E ->
    forall st1, openLogPage E task st = (Val tt, st1) ->
    handleTask_switch E task st = (Val (Leave (Some MissingTimestamp)), st1)) /\
   (State task = TaskFailed E ->
    forall st1 st2, openLogPage E task st = (Val tt, st1) ->
    printLogs E task st1 = (Val tt, st2) ->
    handleTask_switch E task st = (Val (Leave (Some MissingTimestamp)), st2)) /\
   (State task = TaskFinished E \/ State task = TaskFailed E
    \/ State task = TaskKilled E ->
    forall c st', handleTask_switch E task st = (Val c, st') ->
                  c = Leave (Some MissingTimestamp)) /\
   (State task = TaskKilled E ->
    forall fuel name count s rest,
      scheduledTasks E (S fuel) name
        (snd (timeSleep 500 (snd (Println MsgScheduling s))))
      = (Val (inl (task :: rest)), st) ->
      len (task :: rest) = (count + 1)%Z ->
      handleTask E (S fuel) name count s
      = (Val (Some MissingTimestamp),
         snd (Printf (MsgTaskState (State task)) st)))).
Proof.
  intros Hd; split.
  - intros t0 t1 H0 H1; unfold Duration; now rewrite H0, H1.
  - intros Hmiss.
    assert (Hdur : Duration task = inr MissingTimestamp).
    { unfold Duration; destruct Hmiss as [H|H]; rewrite H;
        [reflexivity | now destruct (StartTime task)]. }
    split; [exact Hdur|]; repeat split.
    + intros Hs; now rewrite (switch_killed _ _ _ Hd Hs), Hdur.
    + intros Hs st1 Hopen.
      now rewrite (switch_finished _ _ _ Hd Hs), (bind_val _ _ _ _ _ Hopen), Hdur.
    + intros Hs st1 st2 Hopen Hlogs.
      rewrite (switch_failed _ _ _ Hd Hs), (bind_val _ _ _ _ _ Hopen).
      now rewrite (bind_val _ _ _ _ _ Hlogs), Hdur.
    + now apply switch_no_duration.
    + intros Hs fuel name count s rest Hpoll Hlen.
      apply (handleTask_first_poll _ _ _ _ _ _ _ Hpoll Hlen).
      unfold handleTask_selected; simpl.
      rewrite (bind_val (ret task) _ st task st) by reflexivity.
      rewrite (bind_val (Printf (MsgTaskState (State task))) _ st tt
                 (snd (Printf (MsgTaskState (State task)) st))) by reflexivity.
      now rewrite (switch_killed _ _ _ Hd Hs), Hdur.
Qed.

Lemma duration_or_missing_timestamp_witness :
  states_distinct w_running /\
  fst (Cmd.runCmd_Run w_killed_no_stop 1 "foo" "production"
         ["rake"; "stuff:junk"] st0) = Exited (-1) /\
  last (trace (snd (Cmd.runCmd_Run w_killed_no_stop 1 "foo" "production"
                      ["rake"; "stuff:junk"] st0))) (Sleep 0)
  = Print (MsgError MissingTimestamp) /\
  Duration (job "TASK_FINISHED" (Some 0%Q) (Some 12%Q)) = inl (12 - 0)%Q /\
  handleTask_switch w_running (job "TASK_KILLED" (Some 0%Q) None) st0
  = (Val (Leave (Some MissingTimestamp)), st0).
Proof.
  split; [apply scenario_states_distinct|].
  split; [reflexivity|]; split; [reflexivity|]; split.
  - exact (proj1 (duration_or_missing_timestamp w_running
                    (job "TASK_FINISHED" (Some 0%Q) (Some 12%Q)) st0
                    (scenario_states_distinct _ _ _ _ _))
             0%Q 12%Q eq_refl eq_refl).
  - exact (proj1 (proj2 (proj2 (duration_or_missing_timestamp w_running
                    (job "TASK_KILLED" (Some 0%Q) None) st0
                    (scenario_states_distinct _ _ _ _ _))
             (or_intror eq_refl))) eq_refl).
Defined.

(** *** Counts other than [count] and [count+1] *)

Lemma iter_other_count E fuel name count st tasks st' :
  scheduledTasks E fuel name (snd (timeSleep 500 st)) = (Val (inl tasks), st') ->
  len tasks <> count -> len tasks <> (count + 1)%Z ->
  handleTask_iter E fuel name count tt st = (Val (Continue tt), st').
Proof.
  intros Hpoll H0 H1; unfold handleTask_iter.
  rewrite (bind_val (timeSleep 500) _ st tt (snd (timeSleep 500 st)))
    by reflexivity.
  rewrite (bind_val _ _ _ _ _ Hpoll).
  replace (len tasks =? count)%Z with false by (symmetry; apply Z.eqb_neq; lia).
  replace (len tasks =? count + 1)%Z with false by (symmetry; apply Z.eqb_neq; lia).
  reflexivity.
Qed.

Lemma loop_never_selects E fuel name count st :
  (forall s, clock st <= clock s ->
             exists tasks s',
               scheduledTasks E fuel name s = (Val (inl tasks), s') /\
               len tasks <> (count + 1)%Z) ->
  forall n s, clock st <= clock s ->
              fst (loop n (handleTask_iter E fuel name count) tt s) = OutOfFuel.
Proof.
  intros Hnever; induction n as [|n IH]; intros s Hs; [reflexivity|].
  destruct (Hnever (snd (timeSleep 500 s)) Hs) as (tasks & s' & Hpoll & Hlen).
  assert (Hs' : clock st <= clock s').
  { destruct (adds_scheduledTasks E fuel name _ _ _ Hpoll) as [Hc _].
    simpl in Hc; lia. }
  destruct (Z.eq_dec (len tasks) count) as [Heq|Hne].
  - assert (Hit : handleTask_iter E fuel name count tt s
                  = (Val (Continue tt), snd (Printf MsgDot s'))).
    { unfold handleTask_iter.
      rewrite (bind_val (timeSleep 500) _ s tt (snd (timeSleep 500 s)))
        by reflexivity.
      rewrite (bind_val _ _ _ _ _ Hpoll).
      replace (len tasks =? count)%Z with true
        by (symmetry; apply Z.eqb_eq; exact Heq).
      reflexivity. }
    rewrite (loop_continue _ _ _ _ _ _ Hit); apply IH; exact Hs'.
  - rewrite (loop_continue _ _ _ _ _ _
               (iter_other_count _ _ _ _ _ _ _ Hpoll Hne Hlen)).
    apply IH; exact Hs'.
Qed.

(** C9. A poll whose count is neither [count] nor [count+1] selects no
    record, returns no error and prints nothing: the iteration ends with
    [continue] in the state the fetch left.  And when, from some state on,
    every fetch succeeds with a count other than [count+1], [handleTask]
    does not return, exit or panic, whatever the number of iterations it is
    given. *)
Theorem handleTask_never_selects (E : External) (name : string) (count : Z)
    (fuel0 : nat) (st : St) :
  (forall fuel s, fuel0 <= fuel -> clock st <= clock s ->
                  exists tasks s',
                    scheduledTasks E fuel name s = (Val (inl tasks), s') /\
                    len tasks <> (count + 1)%Z) ->
  (forall fuel s tasks s',
      scheduledTasks E fuel name (snd (timeSleep 500 s)) = (Val (inl tasks), s') ->
      len tasks <> count -> len tasks <> (count + 1)%Z ->
      handleTask_iter E fuel name count tt s = (Val (Continue tt), s')) /\
  (forall fuel, fuel0 <= fuel ->
                fst (handleTask E fuel name count st) = OutOfFuel).
Proof.
  intros Hnever; split.
  - intros fuel s tasks s'; apply iter_other_count.
  - intros fuel Hfuel; unfold handleTask.
    rewrite (bind_val (Println MsgScheduling) _ st tt
               (snd (Println MsgScheduling st))) by reflexivity.
    apply (loop_never_selects E fuel name count st); [|simpl; lia].
    intros s Hs; exact (Hnever fuel s Hfuel Hs).
Qed.

Lemma two_new_every_time fuel s :
  1 <= fuel ->
  scheduledTasks w_two_new fuel Scenario.name s
  = (Val (inl [job "TASK_RUNNING" None None; job "TASK_RUNNING" None None;
               old; old]),
     mkSt (S (clock s))
       (trace s ++ [Get "http://marathon/mesos/tasks?offset=0"])).
Proof. intros H; destruct fuel as [|fuel]; [lia|reflexivity]. Qed.

Lemma handleTask_never_selects_witness :
  handleTask_iter w_two_new 1 Scenario.name 2 tt st0
  = (Val (Continue tt),
     mkSt 1 [Sleep 500; Get "http://marathon/mesos/tasks?offset=0"]) /\
  forall fuel, 1 <= fuel ->
               fst (handleTask w_two_new fuel Scenario.name 2 st0) = OutOfFuel.
Proof.
  assert (Hnever : forall fuel s, 1 <= fuel -> clock st0 <= clock s ->
            exists tasks s',
              scheduledTasks w_two_new fuel Scenario.name s
              = (Val (inl tasks), s') /\ len tasks <> (2 + 1)%Z).
  { intros fuel s Hf _; eexists; eexists; split;
      [apply two_new_every_time; exact Hf | discriminate]. }
  destruct (handleTask_never_selects w_two_new Scenario.name 2 1 st0 Hnever)
    as [Hiter Hloop].
  split; [|exact Hloop].
  apply (Hiter 1 st0
           [job "TASK_RUNNING" None None; job "TASK_RUNNING" None None; old; old]);
    [reflexivity | discriminate | discriminate].
Defined.


(** *** The log page *)







(** Evaluates the left-hand side of an equation between runs. *)
Ltac run :=
  match goal with
  | |- ?lhs = _ => let v := eval vm_compute in lhs in change lhs with v; reflexivity
  end.



End MonitorFacts.


(** ** The catalog fetch *)

Module CatalogFacts.
Import GoStrings Mesos World Chronos MNotations Scenario Polls RunFacts.

Lemma http_Get_run E url st :
  http_Get E url st
  = (Val (httpGet E (clock st) url),
     mkSt (S (clock st)) (trace st ++ [Get url])).
Proof. reflexivity. Qed.

Lemma iter_page E offset acc st resp page :
  httpGet E (clock st) (tasksURL E offset) = HttpOk resp ->
  decodeTasks E resp = inl page ->
  scheduledTasks_iter E (offset, acc) st
  = (Val (if (100 <=? len page)%Z
          then Continue ((offset + 100)%Z, acc ++ page)
          else Leave (inl (acc ++ page))),
     mkSt (S (clock st)) (trace st ++ [Get (tasksURL E offset)])).
Proof.
  intros Hget Hdec; unfold scheduledTasks_iter.
  rewrite (MonitorFacts.bind_val _ _ _ _ _ (http_Get_run E _ st)), Hget, Hdec.
  now destruct (100 <=? len page)%Z.
Qed.

Lemma requests_shift E offset n :
  Get (tasksURL E offset)
    :: map (fun i => Get (tasksURL E (offset + 100 + 100 * Z.of_nat i))) (seq 0 n)
  = map (fun i => Get (tasksURL E (offset + 100 * Z.of_nat i))) (seq 0 (S n)).
Proof.
  cbn [seq map]; f_equal; [do 2 f_equal; lia|].
  rewrite <- seq_shift, map_map; apply map_ext; intros i.
  do 2 f_equal; lia.
Qed.


(** [offset] never exceeds the number of records read so far, which Go holds
    in an [int]: the addition [offset += 100] does not wrap around. *)
Lemma iter_offset_bound E offset acc st offset' acc' st' :
  scheduledTasks_iter E (offset, acc) st = (Val (Continue (offset', acc')), st') ->
  (offset <= len acc)%Z -> (offset' <= len acc')%Z.
Proof.
  unfold scheduledTasks_iter, bind, http_Get, tick, emit, ret; simpl.
  destruct (httpGet E (clock st) (tasksURL E offset)) as [resp|err resp];
    [|intros H; discriminate H].
  destruct (decodeTasks E resp) as [page|err]; [|intros H; discriminate H].
  destruct (100 <=? len page)%Z eqn:Hfull; intros H; inversion H; subst.
  apply Z.leb_le in Hfull; unfold len in *; rewrite length_app; lia.
Qed.

(** The loop of [scheduledTasks] on full pages followed by a short one. *)
Lemma loop_pages E pages : forall last acc offset st fuel,
  served E (clock st) offset (pages ++ [last]) ->
  Forall (fun p => List.length p = 100) pages ->
  List.length last < 100 ->
  List.length pages < fuel ->
  loop fuel (scheduledTasks_iter E) (offset, acc) st
  = (Val (inl (acc ++ concat (pages ++ [last]))),
     mkSt (clock st + S (List.length pages))
       (trace st ++
        map (fun i => Get (tasksURL E (offset + 100 * Z.of_nat i)))
            (seq 0 (S (List.length pages))))).
Proof.
  induction pages as [|p pages IH]; intros last acc offset st fuel Hs Hfull Hlast Hfuel;
    (destruct fuel as [|fuel]; [lia|]);
    destruct Hs as [(resp & Hget & Hdec) Hs].
  - cbn [loop]; unfold bind.
    rewrite (iter_page _ _ _ _ _ _ Hget Hdec).
    replace (100 <=? len last)%Z with false
      by (symmetry; apply Z.leb_gt; unfold len; lia).
    cbn [ret app concat List.length seq map].
    rewrite app_nil_r; unfold ret.
    replace (offset + 100 * Z.of_nat 0)%Z with offset by lia.
    replace (clock st + 1) with (S (clock st)) by lia.
    reflexivity.
  - inversion Hfull as [|? ? Hp Hfull']; subst.
    cbn [loop]; unfold bind.
    rewrite (iter_page _ _ _ _ _ _ Hget Hdec).
    replace (100 <=? len p)%Z with true
      by (symmetry; apply Z.leb_le; unfold len; lia).
    rewrite (IH last (acc ++ p) (offset + 100)%Z
               (mkSt (S (clock st)) (trace st ++ [Get (tasksURL E offset)])) fuel
               Hs Hfull' Hlast) by (simpl in Hfuel; lia).
    cbn [clock trace app concat List.length].
    rewrite <- (requests_shift E offset (S (List.length pages))).
    rewrite <- !app_assoc; cbn [app].
    replace (S (clock st) + S (List.length pages))
      with (clock st + S (S (List.length pages))) by lia.
    reflexivity.
Qed.

(** C4. Pagination: when the catalog answers with pages of exactly 100
    records followed by a page of fewer than 100, the fetch ends as soon as
    it is given more iterations than there are full pages; it has then
    requested the offsets 0, 100, 200, ... once each, in this order, and
    nothing else, and it returns [TasksFor] of the concatenation of all the
    pages, each record once, in page order. *)
Theorem scheduledTasks_pagination (E : External) (name : string)
    (pages : list (list Task)) (last : list Task) (st : St) (fuel : nat) :
  served E (clock st) 0 (pages ++ [last]) ->
  Forall (fun p => List.length p = 100) pages ->
  List.length last < 100 ->
  List.length pages < fuel ->
  scheduledTasks E fuel name st
  = (Val (TasksFor E name (concat (pages ++ [last]))),
     mkSt (clock st + S (List.length pages))
       (trace st ++ pageRequests E (S (List.length pages)))).
Proof.
  intros Hs Hfull Hlast Hfuel; unfold scheduledTasks.
  rewrite (MonitorFacts.bind_val _ _ _ _ _
             (loop_pages E pages last [] 0%Z st fuel Hs Hfull Hlast Hfuel)).
  cbn [app]; unfold pageRequests.
  now destruct (TasksFor E name (concat (pages ++ [last]))).
Qed.

Lemma scheduledTasks_pagination_witness :
  scheduledTasks w_pages 2 Scenario.name st0
  = (Val (inl [old; old]),
     mkSt 2 [Get "http://marathon/mesos/tasks?offset=0";
             Get "http://marathon/mesos/tasks?offset=100"]).
Proof.
  apply (scheduledTasks_pagination w_pages Scenario.name
           [repeat other 100] [old; other; old] st0 2).
  - simpl; repeat split; eexists; split; reflexivity.
  - repeat constructor.
  - simpl; lia.
  - simpl; lia.
Defined.

End CatalogFacts.

(** ** The log helpers *)

Module LogFacts.
Import GoStrings Regexp Mesos World Chronos MNotations Scenario Polls RunFacts.
Import MonitorFacts CatalogFacts.

Lemma callLogDirectory_run E t st :
  callLogDirectory E t st
  = (Val (LogDirectory E (clock st) t),
     mkSt (S (clock st)) (trace st ++ [AskLogDirectory t])).
Proof. reflexivity. Qed.

Lemma callSlaveIP_run E t st :
  callSlaveIP E t st
  = (Val (SlaveIP E (clock st) t),
     mkSt (S (clock st)) (trace st ++ [AskSlaveIP t])).
Proof. reflexivity. Qed.

Lemma printLines_run lines st :
  printLines lines st
  = (Val tt,
     mkSt (clock st)
       (trace st ++ map (fun l => Print (MsgLogLine l))
                      (filter (fun l => negb (MatchString_cpp l)) lines))).
Proof.
  revert st; induction lines as [|l rest IH]; intros [c tr]; simpl.
  - now rewrite app_nil_r.
  - unfold bind; destruct (negb (MatchString_cpp l)); simpl;
      rewrite IH; simpl; [now rewrite <- app_assoc | reflexivity].
Qed.

(** [printLogs] and [openLogPage] when the log directory cannot be
    resolved. *)
Lemma no_directory E t st err :
  LogDirectory E (clock st) t = inr err ->
  printLogs E t st
  = (Exited (-1),
     mkSt (S (clock st))
       (trace st ++ [AskLogDirectory t; Print (MsgCannotFetchLogs err)])) /\
  openLogPage E t st
  = (Exited (-1),
     mkSt (S (clock st))
       (trace st ++ [AskLogDirectory t; Print (MsgCannotFetchLogs err)])).
Proof.
  intros Hdir; unfold printLogs, openLogPage.
  rewrite !(bind_val _ _ _ _ _ (callLogDirectory_run E t st)), Hdir.
  unfold bind, Printf, emit, osExit; simpl.
  now rewrite <- app_assoc.
Qed.

(** [printLogs] from the request for the log file on, given what
    [http.Get] returned as [resp]. *)
Lemma printLogs_tail E t st dir ip :
  LogDirectory E (clock st) t = inl dir ->
  SlaveIP E (S (clock st)) t = inl ip ->
  forall k : HttpResult -> M unit,
    (d <- callLogDirectory E t ;;
     dir <- match d with
            | inr err => Printf (MsgCannotFetchLogs err) ;; osExit (-1)
            | inl dir => ret dir
            end ;;
     i <- callSlaveIP E t ;;
     match i with
     | inr err => Println (MsgError err)
     | inl ip => r <- http_Get E (logsURL ip dir (logStream E t)) ;; k r
     end) st
    = k (httpGet E (S (S (clock st))) (logsURL ip dir (logStream E t)))
        (mkSt (S (S (S (clock st))))
           (trace st ++ [AskLogDirectory t; AskSlaveIP t;
                         Get (logsURL ip dir (logStream E t))])).
Proof.
  intros Hdir Hip k.
  rewrite (bind_val _ _ _ _ _ (callLogDirectory_run E t st)), Hdir.
  rewrite (bind_val (ret dir) _ _ dir _) by reflexivity.
  rewrite (bind_val _ _ _ _ _ (callSlaveIP_run E t _)); cbn [clock trace].
  rewrite Hip.
  rewrite (bind_val _ _ _ _ _ (http_Get_run E _ _)); cbn [clock trace].
  now rewrite <- !app_assoc.
Qed.

Lemma printLogs_present E t st dir ip :
  LogDirectory E (clock st) t = inl dir ->
  SlaveIP E (S (clock st)) t = inl ip ->
  forall r resp failed,
    httpGet E (S (S (clock st))) (logsURL ip dir (logStream E t)) = r ->
    (r = HttpOk resp /\ failed = negb (StatusCode resp =? StatusOK)%Z) \/
    (exists err, r = HttpErr err (Some resp) /\ failed = true) ->
    printLogs E t st
    = (Val tt,
       mkSt (S (S (S (clock st))))
         (trace st ++ [AskLogDirectory t; AskSlaveIP t;
                       Get (logsURL ip dir (logStream E t))]
          ++ afterFetch E failed resp)).
Proof.
  intros Hdir Hip r resp failed Hget Hr.
  unfold printLogs; cbv zeta.
  rewrite (printLogs_tail E t st dir ip Hdir Hip), Hget.
  destruct r as [resp'|err' resp'];
    [destruct Hr as [[Heq ->]|[err [Heq _]]]; inversion Heq; subst resp'
    |destruct Hr as [[Heq _]|[err [Heq ->]]]; inversion Heq; subst];
    unfold afterFetch, bind, deref, Printf, Println, emit, ret;
    destruct (decodeLogs E resp) as [data [derr|]];
    try destruct (negb (StatusCode resp =? StatusOK)%Z);
    cbn [fst snd clock trace]; rewrite printLines_run; cbn [clock trace];
    unfold shownLines; rewrite <- ?app_assoc; reflexivity.
Qed.


(** C5, as the code has it.  A worker host that cannot be resolved, a
    response to the log request with a status other than 200 and a payload
    that cannot be decoded are not fatal: [printLogs] prints a diagnostic
    and returns to its caller ([afterFetch] lists what it prints once a
    response has arrived), so that the switch of the monitor ends with the
    outcome the state of the record decides.  A log directory that cannot be
    resolved is fatal: [printLogs] and [openLogPage] print "cannot fetch
    logs" and end the process with [os.Exit(-1)]. *)
Theorem log_failures (E : External) (t : Task) (st : St) :
  (forall err,
      LogDirectory E (clock st) t = inr err ->
      printLogs E t st
      = (Exited (-1),
         mkSt (S (clock st))
           (trace st ++ [AskLogDirectory t; Print (MsgCannotFetchLogs err)])) /\
      openLogPage E t st
      = (Exited (-1),
         mkSt (S (clock st))
           (trace st ++ [AskLogDirectory t; Print (MsgCannotFetchLogs err)]))) /\
  (forall dir err,
      LogDirectory E (clock st) t = inl dir ->
      SlaveIP E (S (clock st)) t = inr err ->
      printLogs E t st
      = (Val tt,
         mkSt (S (S (clock st)))
           (trace st ++ [AskLogDirectory t; AskSlaveIP t; Print (MsgError err)]))) /\
  (forall dir ip resp,
      LogDirectory E (clock st) t = inl dir ->
      SlaveIP E (S (clock st)) t = inl ip ->
      httpGet E (S (S (clock st))) (logsURL ip dir (logStream E t)) = HttpOk resp ->
      printLogs E t st
      = (Val tt,
         mkSt (S (S (S (clock st))))
           (trace st ++ [AskLogDirectory t; AskSlaveIP t;
                         Get (logsURL ip dir (logStream E t))]
            ++ afterFetch E (negb (StatusCode resp =? StatusOK)%Z) resp))) /\
  (states_distinct E ->
   forall st1 st2 dur,
     openLogPage E t st = (Val tt, st1) ->
     Duration t = inl dur ->
     (State t = TaskFinished E ->
      printLogs E t (snd (Printf (MsgTaskFinished dur) st1)) = (Val tt, st2) ->
      handleTask_switch E t st = (Val (Leave None), st2)) /\
     (State t = TaskFailed E ->
      printLogs E t st1 = (Val tt, st2) ->
      handleTask_switch E t st = (Val (Leave (Some (ErrTaskFailed dur))), st2))).
Proof.
  split; [|split; [|split]].
  - intros err Herr; now apply no_directory.
  - intros dir err Hdir Hip; unfold printLogs.
    rewrite (bind_val _ _ _ _ _ (callLogDirectory_run E t st)), Hdir.
    rewrite (bind_val (ret dir) _ _ dir _) by reflexivity.
    rewrite (bind_val _ _ _ _ _ (callSlaveIP_run E t _)); cbn [clock trace].
    rewrite Hip; unfold Println, emit; cbn [clock trace].
    now rewrite <- !app_assoc.
  - intros dir ip resp Hdir Hip Hget.
    apply (printLogs_present E t st dir ip Hdir Hip _ resp _ Hget).
    left; split; reflexivity.
  - intros Hd st1 st2 dur Hopen Hdur; split; intros Hs Hlogs.
    + rewrite (switch_finished _ _ _ Hd Hs), (bind_val _ _ _ _ _ Hopen), Hdur.
      rewrite (bind_val (Printf (MsgTaskFinished dur)) _ st1 tt
                 (snd (Printf (MsgTaskFinished dur) st1))) by reflexivity.
      now rewrite (bind_val _ _ _ _ _ Hlogs).
    + rewrite (switch_failed _ _ _ Hd Hs), (bind_val _ _ _ _ _ Hopen).
      now rewrite (bind_val _ _ _ _ _ Hlogs), Hdur.
Qed.


(** A worker host that cannot be resolved leaves the outcome of the run as
    the state of the job decided it. *)
Lemma unknown_worker_is_not_fatal :
  fst (handleTask w_noip 1 Scenario.name 2 st0) = Val None /\
  printed (snd (handleTask w_noip 1 Scenario.name 2 st0))
  = [Print MsgScheduling; Print (MsgTaskState "TASK_FINISHED");
     Print (MsgTaskFinished 12); Print (MsgError (MesosError "unknown slave"))].
Proof. split; reflexivity. Qed.

(** C5, as the spec words it, fails: when the log directory of a finished
    record cannot be resolved, [printLogs] ends the process, and the run of
    the monitor ends with exit status -1 after it has printed the duration,
    instead of returning nil. *)
Lemma log_directory_failure_is_fatal :
  LogDirectory w_nodir 0 finished = inr (MesosError "no log directory") /\
  fst (printLogs w_nodir finished st0) = Exited (-1) /\
  fst (printLogs w_nodir finished st0) <> Val tt /\
  fst (handleTask w_dir_once 1 Scenario.name 2 st0) <> Val None /\
  fst (handleTask w_dir_once 1 Scenario.name 2 st0) = Exited (-1) /\
  printed (snd (handleTask w_dir_once 1 Scenario.name 2 st0))
  = [Print MsgScheduling; Print (MsgTaskState "TASK_FINISHED");
     Print (MsgTaskFinished 12);
     Print (MsgCannotFetchLogs (MesosError "no log directory"))].
Proof. repeat split; try reflexivity; discriminate. Qed.

(** C10. In [printLogs], when [http.Get] returns an error and no response,
    nothing is returned before the response is used: reading
    [resp.Status] for the diagnostic panics on the nil pointer, before
    anything is printed.  When the error comes with a response, the status
    of that response is printed and its body is then decoded. *)
Theorem printLogs_uses_response_after_error (E : External) (t : Task) (st : St)
    (dir ip : string) (err : error) :
  LogDirectory E (clock st) t = inl dir ->
  SlaveIP E (S (clock st)) t = inl ip ->
  (httpGet E (S (S (clock st))) (logsURL ip dir (logStream E t))
   = HttpErr err None ->
   printLogs E t st
   = (Panicked "invalid memory address or nil pointer dereference",
      mkSt (S (S (S (clock st))))
        (trace st ++ [AskLogDirectory t; AskSlaveIP t;
                      Get (logsURL ip dir (logStream E t))]))) /\
  (forall resp,
      httpGet E (S (S (clock st))) (logsURL ip dir (logStream E t))
      = HttpErr err (Some resp) ->
      printLogs E t st
      = (Val tt,
         mkSt (S (S (S (clock st))))
           (trace st ++ [AskLogDirectory t; AskSlaveIP t;
                         Get (logsURL ip dir (logStream E t))]
            ++ [Print (MsgCouldNotFetchLogs (Status resp))]
            ++ match snd (decodeLogs E resp) with
               | Some derr => [Print (MsgError derr)]
               | None => []
               end
            ++ shownLines (fst (decodeLogs E resp))))).
Proof.
  intros Hdir Hip; split.
  - intros Hget; unfold printLogs; cbv zeta.
    now rewrite (printLogs_tail E t st dir ip Hdir Hip), Hget.
  - intros resp Hget.
    apply (printLogs_present E t st dir ip Hdir Hip _ resp true Hget).
    right; now exists err.
Qed.

Lemma printLogs_uses_response_after_error_witness :
  LogDirectory w_refused 0 finished = inl sandbox /\
  SlaveIP w_refused 1 finished = inl "10.0.0.7" /\
  httpGet w_refused 2 (logsURL "10.0.0.7" sandbox (logStream w_refused finished))
  = HttpErr (TransportError "connection refused") None /\
  fst (handleTask w_refused 1 Scenario.name 2 st0)
  = Panicked "invalid memory address or nil pointer dereference" /\
  printLogs w_refused finished st0
  = (Panicked "invalid memory address or nil pointer dereference",
     mkSt 3 [AskLogDirectory finished; AskSlaveIP finished;
             Get (logsURL "10.0.0.7" sandbox (logStream w_refused finished))]).
Proof.
  split; [reflexivity|]; split; [reflexivity|]; split; [reflexivity|].
  split; [reflexivity|].
  exact (proj1 (printLogs_uses_response_after_error w_refused finished st0
                  sandbox "10.0.0.7" (TransportError "connection refused")
                  eq_refl eq_refl) eq_refl).
Defined.

End LogFacts.

(** ** Submission *)

Module SubmitFacts.
Import GoStrings Mesos World Chronos MNotations Scenario Polls RunFacts.
Import MonitorFacts CatalogFacts.

(** Every run of [handleTask] starts by printing "scheduling task". *)
Lemma handleTask_starts E fuel name count st :
  exists l, trace (snd (handleTask E fuel name count st))
            = trace st ++ Print MsgScheduling :: l.
Proof.
  unfold handleTask.
  rewrite (bind_val (Println MsgScheduling) _ st tt
             (snd (Println MsgScheduling st))) by reflexivity.
  destruct (loop fuel (handleTask_iter E fuel name count) tt
              (snd (Println MsgScheduling st))) as [r st'] eqn:Hl.
  destruct (adds_loop any fuel (handleTask_iter E fuel name count) tt
              (any_handleTask_iter E fuel name count) _ _ _ Hl)
    as [_ [l [El _]]].
  exists l; simpl in *; now rewrite El, <- app_assoc.
Qed.

Lemma bind_rewrap (m : M (option error)) st :
  (err <- m ;;
   match err with
   | Some e => ret (Some e)
   | None => ret None
   end) st = m st.
Proof.
  unfold bind; destruct (m st) as [[[e|]|c|w|] st']; reflexivity.
Qed.

Lemma http_Post_run E url ct body st :
  http_Post E url ct body st
  = (Val (httpPost E (clock st) url ct body),
     mkSt (S (clock st)) (trace st ++ [Post url ct body])).
Proof. reflexivity. Qed.

(** [launchChronosOneOffCommand] from the answer to the submission on. *)
Lemma launch_posted E fuel url task st baseline st1 cj :
  scheduledTasks E fuel (TaskName task) st = (Val (inl baseline), st1) ->
  renderChronosTaskJSON E task = inl cj ->
  launchChronosOneOffCommand E fuel url task st
  = match httpPost E (clock st1) url "application/json" cj with
    | HttpErr err _ =>
        (Val (Some err),
         mkSt (S (clock st1)) (trace st1 ++ [Post url "application/json" cj]))
    | HttpOk resp =>
        if (StatusCode resp =? StatusNoContent)%Z
        then handleTask E fuel (TaskName task) (len baseline)
               (mkSt (S (clock st1))
                  ((trace st1 ++ [Post url "application/json" cj])
                   ++ [Print (MsgExecuting (Command task) (App task) (Tag task)
                                (Env task))]))
        else (Val (Some (ErrLaunchFailed (Body resp))),
              mkSt (S (clock st1)) (trace st1 ++ [Post url "application/json" cj]))
    end.
Proof.
  intros Hfetch Hrender; unfold launchChronosOneOffCommand.
  rewrite (bind_val _ _ _ _ _ Hfetch), Hrender.
  rewrite (bind_val _ _ _ _ _ (http_Post_run E _ _ _ _)).
  destruct (httpPost E (clock st1) url "application/json" cj) as [resp|err resp];
    [|reflexivity].
  destruct (StatusCode resp =? StatusNoContent)%Z; [|reflexivity].
  cbn [negb].
  rewrite (bind_val (Printf _) _ _ tt _) by reflexivity.
  now rewrite bind_rewrap.
Qed.

(** C8. Once the baseline has been fetched and the job rendered, the answer
    to the submission decides: with status 204 the command is announced and
    the result is that of the monitor, started with the baseline count;
    with any other status the result is the error carrying the body of the
    response and nothing happens after the request.  The monitor is entered
    (the announcement and "scheduling task" follow the request in the
    trace) if and only if the scheduler answered with status 204. *)
Theorem submission_acceptance (E : External) (fuel : nat) (url : string)
    (task : TaskVars) (st : St) (baseline : list Task) (st1 : St) (cj : string) :
  scheduledTasks E fuel (TaskName task) st = (Val (inl baseline), st1) ->
  renderChronosTaskJSON E task = inl cj ->
  let answer := httpPost E (clock st1) url "application/json" cj in
  let posted :=
    mkSt (S (clock st1)) (trace st1 ++ [Post url "application/json" cj]) in
  let executing :=
    Print (MsgExecuting (Command task) (App task) (Tag task) (Env task)) in
  (forall resp,
      answer = HttpOk resp -> StatusCode resp = StatusNoContent ->
      launchChronosOneOffCommand E fuel url task st
      = handleTask E fuel (TaskName task) (len baseline)
          (mkSt (clock posted) (trace posted ++ [executing]))) /\
  (forall resp,
      answer = HttpOk resp -> StatusCode resp <> StatusNoContent ->
      launchChronosOneOffCommand E fuel url task st
      = (Val (Some (ErrLaunchFailed (Body resp))), posted)) /\
  ((exists resp, answer = HttpOk resp /\ StatusCode resp = StatusNoContent) <->
   (exists l, trace (snd (launchChronosOneOffCommand E fuel url task st))
              = trace posted ++ executing :: Print MsgScheduling :: l)).
Proof.
  intros Hfetch Hrender answer posted executing.
  pose proof (launch_posted E fuel url task st baseline st1 cj Hfetch Hrender)
    as Hl.
  fold answer in Hl.
  assert (Hstop : forall r,
             launchChronosOneOffCommand E fuel url task st = (r, posted) ->
             ~ exists l, trace (snd (launchChronosOneOffCommand E fuel url task st))
                         = trace posted ++ executing :: Print MsgScheduling :: l).
  { intros r Hr [l El]; rewrite Hr in El; cbn [snd] in El.
    rewrite <- (app_nil_r (trace posted)) in El at 1.
    apply app_inv_head in El; discriminate El. }
  assert (Hgo : forall resp,
             answer = HttpOk resp -> StatusCode resp = StatusNoContent ->
             launchChronosOneOffCommand E fuel url task st
             = handleTask E fuel (TaskName task) (len baseline)
                 (mkSt (clock posted) (trace posted ++ [executing]))).
  { intros resp Ha Hs; rewrite Hl, Ha.
    apply Z.eqb_eq in Hs; now rewrite Hs. }
  assert (Hno : forall resp,
             answer = HttpOk resp -> StatusCode resp <> StatusNoContent ->
             launchChronosOneOffCommand E fuel url task st
             = (Val (Some (ErrLaunchFailed (Body resp))), posted)).
  { intros resp Ha Hs; rewrite Hl, Ha.
    apply Z.eqb_neq in Hs; now rewrite Hs. }
  split; [exact Hgo|]; split; [exact Hno|]; split.
  - intros (resp & Ha & Hs); rewrite (Hgo resp Ha Hs).
    destruct (handleTask_starts E fuel (TaskName task) (len baseline)
                (mkSt (clock posted) (trace posted ++ [executing]))) as [l El].
    exists l; rewrite El; cbn [trace]; now rewrite <- app_assoc.
  - intros Hentered.
    destruct answer as [resp|err resp] eqn:Ha.
    + destruct (Z.eq_dec (StatusCode resp) StatusNoContent) as [Hs|Hs].
      * now exists resp.
      * exfalso; exact (Hstop _ (Hno resp eq_refl Hs) Hentered).
    + exfalso; exact (Hstop _ Hl Hentered).
Qed.

Lemma submission_acceptance_witness :
  launchChronosOneOffCommand w_rejected 1 "http://chronos/submit" rake st0
  = (Val (Some (ErrLaunchFailed "invalid job")),
     mkSt 2 [Get "http://marathon/mesos/tasks?offset=0";
             Post "http://chronos/submit" "application/json" "{}"]) /\
  launchChronosOneOffCommand w_accepted 1 "http://chronos/submit" rake st0
  = handleTask w_accepted 1 Scenario.name 2
      (mkSt 2 [Get "http://marathon/mesos/tasks?offset=0";
               Post "http://chronos/submit" "application/json" "{}";
               Print (MsgExecuting "rake stuff:junk" "foo" "v1.2.3" "production")]).
Proof.
  split.
  - exact (proj1 (proj2 (submission_acceptance w_rejected 1
                           "http://chronos/submit" rake st0 [old; old]
                           (mkSt 1 [Get "http://marathon/mesos/tasks?offset=0"])
                           "{}" eq_refl eq_refl))
             (mkResponse 400 "400 Bad Request" "invalid job" None) eq_refl
             ltac:(discriminate)).
  - exact (proj1 (submission_acceptance w_accepted 1
                    "http://chronos/submit" rake st0 [old; old]
                    (mkSt 1 [Get "http://marathon/mesos/tasks?offset=0"])
                    "{}" eq_refl eq_refl)
             (mkResponse 204 "204 No Content" EmptyString None) eq_refl eq_refl).
Defined.

End SubmitFacts.

(** ** The run of the example *)

Module Example.
Import GoStrings Mesos World Chronos Cmd MNotations Scenario Polls.

(** [duncan run -a foo -e production rake stuff:junk] with two older records
    of the name: the record that appears is seen running, then finished
    after 12 seconds; its log is fetched from the worker and shown without
    the line of the executor. *)
Lemma run_example :
  runCmd_Run w_example 2 "foo" "production" ["rake"; "stuff:junk"] st0
  = (Val tt,
     mkSt 12
       [Get "http://consul/tag";
        Get "http://marathon/mesos/tasks?offset=0";
        Post "http://chronos/service/chronos/v1/scheduler/iso8601"
          "application/json" "{}";
        Print (MsgExecuting "rake stuff:junk" "foo" "v1.2.3" "production");
        Print MsgScheduling;
        Sleep 500; Get "http://marathon/mesos/tasks?offset=0";
        Print (MsgTaskState "TASK_RUNNING");
        AskLogDirectory (job "TASK_RUNNING" (Some 0%Q) None);
        ExecStart "open" [logPage];
        Sleep 500; Get "http://marathon/mesos/tasks?offset=0";
        Print (MsgTaskState "TASK_FINISHED");
        AskLogDirectory finished;
        ExecStart "open" [logPage];
        Print (MsgTaskFinished 12);
        AskLogDirectory finished;
        AskSlaveIP finished;
        Get (logsURL "10.0.0.7" sandbox "stdout");
        Print (MsgLogLine "migrating");
        Print (MsgLogLine "done")]).
Proof. reflexivity. Qed.

End Example.

(** * Further properties *)

(** ** [strings.Split] and [strings.Join] *)

Module SplitFacts.
Import GoStrings Specs.
Local Open Scope nat_scope.

Local Abbreviation str := string_of_list_ascii.

Lemma append_nil_r (s : string) : (s ++ EmptyString)%string = s.
Proof. induction s as [|a s IH]; simpl; [reflexivity | now rewrite IH]. Qed.

Lemma append_assoc (s t u : string) :
  ((s ++ t) ++ u)%string = (s ++ (t ++ u))%string.
Proof. induction s as [|a s IH]; simpl; [reflexivity | now rewrite IH]. Qed.

Lemma str_app l1 l2 : str (l1 ++ l2) = (str l1 ++ str l2)%string.
Proof. induction l1 as [|a l1 IH]; simpl; [reflexivity | now rewrite IH]. Qed.

Lemma str_rev_cons a cur :
  str (rev (a :: cur)) = (str (rev cur) ++ String a EmptyString)%string.
Proof. simpl; now rewrite str_app. Qed.

Lemma prefix_nil s : prefix EmptyString s = true.
Proof. now destruct s. Qed.

Lemma prefix_app s t : prefix s (s ++ t) = true.
Proof.
  induction s as [|a s IH]; simpl; [apply prefix_nil|].
  destruct (ascii_dec a a); [exact IH | congruence].
Qed.

Lemma prefix_head a s b t : a <> b -> prefix (String a s) (String b t) = false.
Proof. intros H; simpl; destruct (ascii_dec a b); [congruence | reflexivity]. Qed.

(** The piece being read is only a prefix of the first piece to come. *)
Lemma splitFrom_cur sep : forall s skip cur,
  splitFrom sep skip cur s = prepend (str (rev cur)) (splitFrom sep skip [] s).
Proof.
  induction s as [|a s IH]; intros skip cur; cbn [splitFrom].
  - simpl; now rewrite append_nil_r.
  - destruct skip as [|k]; [|apply IH].
    destruct (prefix sep (String a s)).
    + simpl; now rewrite append_nil_r.
    + rewrite (IH 0 (a :: cur)), (IH 0 [a]).
      destruct (splitFrom sep 0 [] s) as [|h tl]; simpl;
        rewrite str_app; simpl; [reflexivity | now rewrite append_assoc].
Qed.

Lemma splitFrom_nonempty sep s skip cur : splitFrom sep skip cur s <> [].
Proof.
  revert skip cur; induction s as [|a s IH]; intros skip cur; cbn [splitFrom];
    [discriminate|].
  destruct skip; [|apply IH].
  destruct (prefix sep (String a s)); [discriminate | apply IH].
Qed.

Lemma Join_prepend p l sep :
  l <> [] -> Join (prepend p l) sep = (p ++ Join l sep)%string.
Proof.
  destruct l as [|h tl]; [congruence|]; intros _; simpl.
  destruct tl; [reflexivity | now rewrite append_assoc].
Qed.

Lemma Join_cons e l sep :
  l <> [] -> Join (e :: l) sep = (e ++ sep ++ Join l sep)%string.
Proof. destruct l; [congruence | reflexivity]. Qed.

(** *** A separator of one byte *)

Section OneByte.
Variable c : ascii.
Let sep : string := String c EmptyString.

Lemma Split_sep s : Split (String c s) sep = EmptyString :: Split s sep.
Proof.
  unfold Split, sep; simpl.
  destruct (ascii_dec c c); [now rewrite prefix_nil | congruence].
Qed.

Lemma Split_other a s :
  a <> c -> Split (String a s) sep = prepend (String a EmptyString) (Split s sep).
Proof.
  intros Ha; unfold Split, sep; simpl.
  destruct (ascii_dec c a); [congruence|].
  now rewrite splitFrom_cur.
Qed.

(** Joining the pieces gives the string back. *)
Lemma Join_Split s : Join (Split s sep) sep = s.
Proof.
  induction s as [|a s IH]; [reflexivity|].
  destruct (ascii_dec a c) as [->|Ha].
  - rewrite Split_sep, Join_cons by apply splitFrom_nonempty.
    now rewrite IH.
  - rewrite (Split_other _ _ Ha), Join_prepend by apply splitFrom_nonempty.
    now rewrite IH.
Qed.

(** No piece contains the separator. *)
Lemma Split_lacks s : Forall (fun p => lacks c p = true) (Split s sep).
Proof.
  induction s as [|a s IH]; [repeat constructor|].
  destruct (ascii_dec a c) as [->|Ha].
  - rewrite Split_sep; constructor; [reflexivity | exact IH].
  - rewrite (Split_other _ _ Ha).
    destruct (Split s sep) as [|h tl]; simpl.
    + repeat constructor; unfold lacks; simpl.
      apply Ascii.eqb_neq in Ha; now rewrite Ha.
    + inversion IH; subst; constructor; [|assumption].
      unfold lacks in *; simpl.
      apply Ascii.eqb_neq in Ha; now rewrite Ha.
Qed.

Lemma Split_whole e : lacks c e = true -> Split e sep = [e].
Proof.
  induction e as [|a e IH]; [reflexivity|].
  unfold lacks; simpl; intros H; apply andb_true_iff in H as [Ha He].
  apply negb_true_iff, Ascii.eqb_neq in Ha.
  rewrite (Split_other _ _ Ha), IH by exact He; reflexivity.
Qed.

(** Splitting around a separator splits both sides. *)
Lemma Split_app e x :
  Split (e ++ String c x) sep = Split e sep ++ Split x sep.
Proof.
  induction e as [|a e IH]; simpl.
  - now rewrite Split_sep.
  - destruct (ascii_dec a c) as [->|Ha].
    + now rewrite !Split_sep, IH.
    + rewrite !(Split_other _ _ Ha), IH.
      pose proof (splitFrom_nonempty sep e 0 []) as Hne.
      fold (Split e sep) in Hne.
      destruct (Split e sep); [congruence | reflexivity].
Qed.

(** Splitting a join: every element is split in turn. *)
Lemma Split_Join_concat l :
  l <> [] ->
  Split (Join l sep) sep = concat (map (fun e => Split e sep) l).
Proof.
  induction l as [|e l IH]; [congruence|]; intros _.
  destruct l as [|e' l].
  - simpl; now rewrite app_nil_r.
  - rewrite Join_cons by discriminate.
    change (sep ++ Join (e' :: l) sep)%string
      with (String c (Join (e' :: l) sep)).
    rewrite Split_app, IH by discriminate; reflexivity.
Qed.

(** Round trip: elements without the separator are found again. *)
Lemma Split_Join l :
  l <> [] -> Forall (fun e => lacks c e = true) l ->
  Split (Join l sep) sep = l.
Proof.
  intros Hne Hl; rewrite Split_Join_concat by exact Hne.
  clear Hne; induction Hl as [|e l He Hl IH]; [reflexivity|].
  simpl; now rewrite (Split_whole _ He), IH.
Qed.

End OneByte.

End SplitFacts.

(** ** More on the catalog fetch *)

Module CatalogMore.
Import GoStrings Mesos World Chronos MNotations Scenario Polls Specs MoreRuns.
Import RunFacts.
Import MonitorFacts CatalogFacts.

(** An iteration makes one request, for its offset, and goes on, if at all,
    with the offset 100 further. *)
Lemma iter_request E offset acc st :
  exists c,
    scheduledTasks_iter E (offset, acc) st
    = (Val c, mkSt (S (clock st)) (trace st ++ [Get (tasksURL E offset)])) /\
    (forall offset' acc', c = Continue (offset', acc') ->
                          offset' = (offset + 100)%Z).
Proof.
  unfold scheduledTasks_iter.
  rewrite (bind_val _ _ _ _ _ (http_Get_run E _ st)).
  destruct (httpGet E (clock st) (tasksURL E offset)) as [resp|err resp];
    [|eexists; split; [reflexivity | discriminate]].
  destruct (decodeTasks E resp) as [page|err];
    [|eexists; split; [reflexivity | discriminate]].
  destruct (100 <=? len page)%Z; eexists; (split; [reflexivity|]).
  - intros o a H; now inversion H.
  - discriminate.
Qed.

Lemma loop_requests E : forall fuel offset acc st,
  exists n,
    n <= fuel /\ (0 < fuel -> 0 < n) /\
    snd (loop fuel (scheduledTasks_iter E) (offset, acc) st)
    = mkSt (clock st + n)
        (trace st ++ map (fun i => Get (tasksURL E (offset + 100 * Z.of_nat i)))
                       (seq 0 n)).
Proof.
  induction fuel as [|fuel IH]; intros offset acc st.
  - exists 0; repeat split; [lia|lia|].
    simpl; rewrite app_nil_r, Nat.add_0_r; now destruct st.
  - destruct (iter_request E offset acc st) as (c & Hit & Hnext).
    cbn [loop]; unfold bind; rewrite Hit.
    destruct c as [[offset' acc']|r].
    + rewrite (Hnext offset' acc' eq_refl).
      destruct (IH (offset + 100)%Z acc'
                  (mkSt (S (clock st)) (trace st ++ [Get (tasksURL E offset)])))
        as (n & Hn & _ & Hst).
      exists (S n); repeat split; [lia|lia|].
      rewrite Hst; cbn [clock trace].
      rewrite <- (requests_shift E offset n), <- app_assoc; cbn [app].
      f_equal; lia.
    + exists 1; repeat split; [lia|lia|].
      cbn [ret snd seq map].
      replace (offset + 100 * Z.of_nat 0)%Z with offset by lia.
      f_equal; lia.
Qed.

(** X1. Whatever the catalog answers, a fetch requests the offsets 0, 100,
    200, ... in this order, each once and without a gap, and does nothing
    else: it makes at least one request and at most as many as it is given
    iterations. *)
Theorem scheduledTasks_requests (E : External) (fuel : nat) (name : string)
    (st : St) :
  exists n,
    n <= fuel /\ (0 < fuel -> 0 < n) /\
    snd (scheduledTasks E fuel name st)
    = mkSt (clock st + n) (trace st ++ pageRequests E n).
Proof.
  destruct (loop_requests E fuel 0%Z [] st) as (n & Hn & Hpos & Hst).
  exists n; repeat split; [exact Hn | exact Hpos |].
  unfold scheduledTasks, bind.
  destruct (loop fuel (scheduledTasks_iter E) (0%Z, []) st) as [[r|c|w|] st1];
    cbn [snd] in Hst; subst st1; try reflexivity.
  destruct r as [tasks|err]; [|reflexivity].
  destruct (TasksFor E name tasks); reflexivity.
Qed.

(** The loop of [scheduledTasks] on pages of 100 records or more. *)
Lemma loop_full_pages E pages : forall acc offset st fuel,
  served E (clock st) offset pages ->
  Forall (fun p => 100 <= List.length p) pages ->
  loop (List.length pages + fuel) (scheduledTasks_iter E) (offset, acc) st
  = loop fuel (scheduledTasks_iter E)
      ((offset + 100 * Z.of_nat (List.length pages))%Z, acc ++ concat pages)
      (mkSt (clock st + List.length pages)
         (trace st ++
          map (fun i => Get (tasksURL E (offset + 100 * Z.of_nat i)))
              (seq 0 (List.length pages)))).
Proof.
  induction pages as [|p pages IH]; intros acc offset st fuel Hs Hfull.
  - cbn [List.length concat seq map Nat.add]; rewrite !app_nil_r.
    replace (offset + 100 * Z.of_nat 0)%Z with offset by lia.
    rewrite Nat.add_0_r; now destruct st.
  - destruct Hs as [(resp & Hget & Hdec) Hs].
    inversion Hfull as [|? ? Hp Hfull']; subst.
    cbn [List.length Nat.add loop]; unfold bind at 1.
    rewrite (iter_page _ _ _ _ _ _ Hget Hdec).
    replace (100 <=? len p)%Z with true
      by (symmetry; apply Z.leb_le; unfold len; lia).
    rewrite (IH (acc ++ p) (offset + 100)%Z
               (mkSt (S (clock st)) (trace st ++ [Get (tasksURL E offset)])) fuel
               Hs Hfull').
    cbn [clock trace concat].
    rewrite <- (requests_shift E offset (List.length pages)).
    rewrite <- !app_assoc; cbn [app].
    replace (offset + 100 + 100 * Z.of_nat (List.length pages))%Z
      with (offset + 100 * Z.of_nat (S (List.length pages)))%Z by lia.
    replace (S (clock st) + List.length pages)
      with (clock st + S (List.length pages)) by lia.
    reflexivity.
Qed.

Lemma fetch_page_failure (E : External) (name : string)
    (pages : list (list Task)) (st : St) (fuel : nat) (err : error) :
  served E (clock st) 0 pages ->
  Forall (fun p => 100 <= List.length p) pages ->
  List.length pages < fuel ->
  (exists resp,
      httpGet E (clock st + List.length pages)
        (tasksURL E (100 * Z.of_nat (List.length pages))) = HttpErr err resp) \/
  (exists resp,
      httpGet E (clock st + List.length pages)
        (tasksURL E (100 * Z.of_nat (List.length pages))) = HttpOk resp /\
      decodeTasks E resp = inr err) ->
  scheduledTasks E fuel name st
  = (Val (inr err),
     mkSt (clock st + S (List.length pages))
       (trace st ++ pageRequests E (S (List.length pages)))).
Proof.
  intros Hs Hfull Hfuel Hfail.
  replace fuel with (List.length pages + S (fuel - S (List.length pages))) by lia.
  unfold scheduledTasks, bind.
  rewrite (loop_full_pages E pages [] 0%Z st _ Hs Hfull).
  cbn [loop]; unfold bind, scheduledTasks_iter, http_Get, bind, tick, emit, ret.
  cbn [clock trace Z.add].
  assert (Hend : trace st ++ pageRequests E (S (List.length pages))
                 = (trace st ++
                    map (fun i => Get (tasksURL E (0 + 100 * Z.of_nat i)))
                        (seq 0 (List.length pages)))
                   ++ [Get (tasksURL E (100 * Z.of_nat (List.length pages)))]).
  { unfold pageRequests; rewrite seq_S, map_app, app_assoc; reflexivity. }
  rewrite Hend.
  replace (clock st + S (List.length pages))
    with (S (clock st + List.length pages)) by lia.
  destruct Hfail as [(resp & Hget)|(resp & Hget & Hdec)]; rewrite Hget;
    [reflexivity | now rewrite Hdec].
Qed.

(** X2. A failure on a later page aborts the whole fetch: after any number
    of pages of 100 records or more, a request that fails in transport, or
    whose answer cannot be decoded, makes [scheduledTasks] return that error
    and none of the records read so far. *)
Theorem scheduledTasks_page_failure (E : External) (name : string)
    (pages : list (list Task)) (st : St) (fuel : nat) (err : error) :
  served E (clock st) 0 pages ->
  Forall (fun p => 100 <= List.length p) pages ->
  List.length pages < fuel ->
  (exists resp,
      httpGet E (clock st + List.length pages)
        (tasksURL E (100 * Z.of_nat (List.length pages))) = HttpErr err resp) \/
  (exists resp,
      httpGet E (clock st + List.length pages)
        (tasksURL E (100 * Z.of_nat (List.length pages))) = HttpOk resp /\
      decodeTasks E resp = inr err) ->
  scheduledTasks E fuel name st
  = (Val (inr err),
     mkSt (clock st + S (List.length pages))
       (trace st ++ pageRequests E (S (List.length pages)))).
Proof. exact (fetch_page_failure E name pages st fuel err). Qed.

Lemma scheduledTasks_page_failure_witness :
  scheduledTasks w_second_page_bad 3 Scenario.name st0
  = (Val (inr (DecodeError "invalid character")),
     mkSt 2 [Get "http://marathon/mesos/tasks?offset=0";
             Get "http://marathon/mesos/tasks?offset=100"]).
Proof.
  apply (scheduledTasks_page_failure w_second_page_bad Scenario.name
           [repeat other 100] st0 3 (DecodeError "invalid character")).
  - simpl; repeat split; eexists; split; reflexivity.
  - repeat constructor; simpl; lia.
  - simpl; lia.
  - right; eexists; split; reflexivity.
Defined.

End CatalogMore.

(** ** More on submission and the monitor *)

Module SubmitMore.
Import GoStrings Mesos World Chronos MNotations Scenario Polls Specs MoreRuns.
Import RunFacts MonitorFacts CatalogFacts CatalogMore SubmitFacts.

Lemma adds_impl {A} (p q : Event -> bool) (m : M A) :
  (forall e, p e = true -> q e = true) -> adds p m -> adds q m.
Proof.
  intros Hpq H st r st' Hr; destruct (H _ _ _ Hr) as [C [l [El Hl]]].
  split; [exact C|]; exists l; split; [exact El|].
  apply forallb_forall; intros e He.
  apply Hpq; exact (proj1 (forallb_forall _ _) Hl e He).
Qed.

Lemma posts_app st l :
  List.length (filter is_post (trace st ++ l))
  = posts st + List.length (filter is_post l).
Proof. unfold posts; now rewrite filter_app, length_app. Qed.

Lemma no_post_filter l : forallb not_post l = true -> filter is_post l = [].
Proof.
  induction l as [|e l IH]; simpl; [reflexivity|].
  intros H; apply andb_true_iff in H as [He Hl].
  unfold not_post in He; apply negb_true_iff in He; rewrite He; auto.
Qed.

Lemma adds_no_post {A} (m : M A) st :
  adds not_post m -> posts (snd (m st)) = posts st.
Proof.
  intros Hm; destruct (m st) as [r st'] eqn:Hr.
  destruct (Hm _ _ _ Hr) as [_ [l [El Hl]]]; cbn [snd].
  unfold posts at 1; rewrite El, posts_app, (no_post_filter _ Hl); simpl; lia.
Qed.

Lemma posts_le_adds {A} (m : M A) : adds not_post m -> posts_le 0 m.
Proof.
  intros Hm st r st' Hr; pose proof (adds_no_post m st Hm) as H.
  rewrite Hr in H; cbn [snd] in H; lia.
Qed.

Lemma posts_le_bind {A B} n1 n2 (m : M A) (k : A -> M B) :
  posts_le n1 m -> (forall a, posts_le n2 (k a)) -> posts_le (n1 + n2) (bind m k).
Proof.
  intros Hm Hk st r st' H; unfold bind in H.
  destruct (m st) as [[a|c|w|] s1] eqn:Hr;
    try (inversion H; subst; specialize (Hm _ _ _ Hr); lia).
  specialize (Hm _ _ _ Hr); specialize (Hk a _ _ _ H); lia.
Qed.

Lemma posts_le_weaken {A} n n' (m : M A) : n <= n' -> posts_le n m -> posts_le n' m.
Proof. intros Hn Hm st r st' H; specialize (Hm _ _ _ H); lia. Qed.

Section NoPost.
Variable E : External.

Lemma np_http_Get url : adds not_post (http_Get E url).
Proof. unfold http_Get; adds_auto. Qed.

Lemma np_scheduledTasks fuel name : adds not_post (scheduledTasks E fuel name).
Proof.
  apply (adds_impl is_get); [|apply adds_scheduledTasks].
  intros [] H; try discriminate; reflexivity.
Qed.

Lemma np_callLogDirectory t : adds not_post (callLogDirectory E t).
Proof. unfold callLogDirectory; adds_auto. Qed.

Lemma np_callSlaveIP t : adds not_post (callSlaveIP E t).
Proof. unfold callSlaveIP; adds_auto. Qed.

Hint Resolve np_http_Get np_scheduledTasks np_callLogDirectory np_callSlaveIP
  adds_deref adds_index : adds.

Lemma np_openLogPage t : adds not_post (openLogPage E t).
Proof. unfold openLogPage, Printf, Println; adds_auto. Qed.

Lemma np_printLines lines : adds not_post (printLines lines).
Proof.
  induction lines as [|l rest IH]; simpl; [apply adds_ret|].
  unfold Printf; adds_auto; exact IH.
Qed.

Hint Resolve np_openLogPage np_printLines : adds.

Lemma np_printLogs t : adds not_post (printLogs E t).
Proof. unfold printLogs, Printf, Println; adds_auto. Qed.

Hint Resolve np_printLogs : adds.

Lemma np_handleTask_switch t : adds not_post (handleTask_switch E t).
Proof. unfold handleTask_switch, Printf; adds_auto. Qed.

Hint Resolve np_handleTask_switch : adds.

Lemma np_handleTask fuel name count : adds not_post (handleTask E fuel name count).
Proof.
  unfold handleTask, handleTask_iter, handleTask_selected, timeSleep, Printf,
    Println; adds_auto.
Qed.

Lemma one_http_Post url ct body : posts_le 1 (http_Post E url ct body).
Proof.
  intros st r st' H; rewrite http_Post_run in H; inversion H; subst.
  unfold posts at 1; cbn [trace]; rewrite posts_app; simpl; lia.
Qed.

Lemma one_launch fuel url task :
  posts_le 1 (launchChronosOneOffCommand E fuel url task).
Proof.
  unfold launchChronosOneOffCommand.
  apply (posts_le_bind 0 1); [apply posts_le_adds, np_scheduledTasks|].
  intros [tasks|err]; [|apply (posts_le_weaken 0); [lia|apply posts_le_adds, adds_ret]].
  destruct (renderChronosTaskJSON E task) as [cj|err];
    [|apply (posts_le_weaken 0); [lia|apply posts_le_adds, adds_ret]].
  apply (posts_le_bind 1 0); [apply one_http_Post|].
  intros [resp|err resp]; apply posts_le_adds; [|apply adds_ret].
  destruct (negb _); [apply adds_ret|].
  unfold Printf; adds_auto; apply np_handleTask.
Qed.

Lemma one_RunCommand fuel app env cmd : posts_le 1 (RunCommand E fuel app env cmd).
Proof.
  unfold RunCommand.
  apply (posts_le_bind 0 1).
  - apply posts_le_adds; unfold fetchCurrentTag; adds_auto.
  - intros [tag [err|]];
      [apply (posts_le_weaken 0); [lia|apply posts_le_adds, adds_ret]|].
    apply (posts_le_bind 1 0); [apply one_launch|].
    intros [e|]; apply posts_le_adds, adds_ret.
Qed.

End NoPost.

(** X3. No retry of the submission: whatever the environment answers and
    however long the run is followed, [RunCommand] and
    [launchChronosOneOffCommand] send at most one POST, and the monitor
    [handleTask] sends none. *)
Theorem at_most_one_submission (E : External) (fuel : nat) (st : St) :
  (forall app env cmd,
      posts (snd (RunCommand E fuel app env cmd st)) <= posts st + 1) /\
  (forall url task,
      posts (snd (launchChronosOneOffCommand E fuel url task st))
      <= posts st + 1) /\
  (forall name count,
      posts (snd (handleTask E fuel name count st)) = posts st).
Proof.
  repeat split.
  - intros app env cmd.
    destruct (RunCommand E fuel app env cmd st) as [r st'] eqn:Hr.
    exact (one_RunCommand E fuel app env cmd _ _ _ Hr).
  - intros url task.
    destruct (launchChronosOneOffCommand E fuel url task st) as [r st'] eqn:Hr.
    exact (one_launch E fuel url task _ _ _ Hr).
  - intros name count; apply adds_no_post, np_handleTask.
Qed.




(** X5. No retry of a poll: when the fetch of a poll fails, the loop of
    [handleTask] returns that error at once; in particular a first poll
    whose request fails in transport, or whose answer cannot be decoded,
    ends [handleTask] after one sleep and one request. *)
Theorem handleTask_poll_failure (E : External) (fuel : nat) (name : string)
    (count : Z) (err : error) :
  (forall n st st',
      scheduledTasks E fuel name (snd (timeSleep 500 st)) = (Val (inr err), st') ->
      loop (S n) (handleTask_iter E fuel name count) tt st
      = (Val (Some err), st')) /\
  (forall st,
      (exists resp, httpGet E (clock st) (tasksURL E 0) = HttpErr err resp) \/
      (exists resp, httpGet E (clock st) (tasksURL E 0) = HttpOk resp /\
                    decodeTasks E resp = inr err) ->
      handleTask E (S fuel) name count st
      = (Val (Some err),
         mkSt (S (clock st))
           (trace st ++ [Print MsgScheduling; Sleep 500; Get (tasksURL E 0)]))).
Proof.
  assert (Hloop : forall fuel' n st st',
             scheduledTasks E fuel' name (snd (timeSleep 500 st))
             = (Val (inr err), st') ->
             loop (S n) (handleTask_iter E fuel' name count) tt st
             = (Val (Some err), st')).
  { intros fuel' n st st' Hpoll; apply loop_leave; unfold handleTask_iter.
    rewrite (bind_val (timeSleep 500) _ st tt (snd (timeSleep 500 st)))
      by reflexivity.
    now rewrite (bind_val _ _ _ _ _ Hpoll). }
  split; [apply Hloop|].
  intros st Hfail; unfold handleTask.
  rewrite (bind_val (Println MsgScheduling) _ st tt
             (snd (Println MsgScheduling st))) by reflexivity.
  rewrite (Hloop (S fuel) fuel _
             (mkSt (S (clock st))
                (trace st ++ [Print MsgScheduling; Sleep 500;
                              Get (tasksURL E 0)]))); [reflexivity|].
  rewrite (fetch_page_failure E name [] _ (S fuel) err); cbn [List.length].
  - cbn [timeSleep emit Println snd clock trace pageRequests seq map].
    rewrite <- !app_assoc, Nat.add_1_r; reflexivity.
  - exact I.
  - constructor.
  - lia.
  - cbn [timeSleep emit Println snd clock]; rewrite Nat.add_0_r; exact Hfail.
Qed.

End SubmitMore.

(** ** More on the log helpers *)

Module LogMore.
Import GoStrings Regexp Mesos World Chronos MNotations Scenario Polls Specs.
Import MoreRuns RunFacts MonitorFacts CatalogFacts LogFacts SplitFacts.
Local Abbreviation str := string_of_list_ascii.

(** A string without the separator is one piece. *)
Lemma splitFrom_absent sep : forall s cur,
  Contains s sep = false ->
  splitFrom sep 0 cur s = [(str (rev cur) ++ s)%string].
Proof.
  induction s as [|a s IH]; intros cur H.
  - simpl; now rewrite append_nil_r.
  - cbn [Contains] in H; apply orb_false_iff in H as [Hp Hs].
    cbn [splitFrom]; rewrite Hp, (IH _ Hs), str_rev_cons, append_assoc.
    reflexivity.
Qed.

Lemma splitFrom_skip sep : forall x tail cur,
  splitFrom sep (String.length x) cur (x ++ tail) = splitFrom sep 0 cur tail.
Proof.
  induction x as [|a x IH]; intros tail cur; [reflexivity|].
  simpl; apply IH.
Qed.

(** A string that starts with the separator: an empty piece, then the
    pieces of the rest. *)
Lemma Split_leading a sep' tail :
  Split (String a sep' ++ tail) (String a sep')
  = EmptyString :: Split tail (String a sep').
Proof.
  unfold Split.
  change (String a sep' ++ tail)%string with (String a (sep' ++ tail)).
  cbn [splitFrom].
  change (String a (sep' ++ tail)) with (String a sep' ++ tail)%string.
  rewrite prefix_app; cbn [rev string_of_list_ascii String.length].
  replace (S (String.length sep') - 1) with (String.length sep') by lia.
  now rewrite splitFrom_skip.
Qed.

(** The first piece of a string that starts with a segment [id] without
    ["/"], followed by ["/"], when the separator starts with ["/"]: the
    segment, then nothing or something that starts with ["/"]. *)
Lemma first_piece sep' : forall id rest cur,
  lacks "/" id = true ->
  exists x tl,
    splitFrom (String "/" sep') 0 cur (id ++ String "/" rest)
    = (str (rev cur) ++ id ++ x)%string :: tl /\
    (x = EmptyString \/ exists x', x = String "/" x').
Proof.
  induction id as [|a id IH]; intros rest cur Hid.
  - cbn [append splitFrom].
    destruct (prefix (String "/" sep') (String "/" rest)).
    + exists EmptyString; eexists; split; [|now left].
      now rewrite append_nil_r.
    + rewrite splitFrom_cur.
      pose proof (splitFrom_nonempty (String "/" sep') rest 0 []) as Hne.
      destruct (splitFrom (String "/" sep') 0 [] rest) as [|h tl];
        [congruence|].
      exists (String "/" h), tl; split; [|right; now exists h].
      cbn [prepend]; now rewrite str_rev_cons, append_assoc.
  - unfold lacks in Hid; cbn [all_chars] in Hid.
    apply andb_true_iff in Hid as [Ha Hid].
    apply negb_true_iff, Ascii.eqb_neq in Ha.
    change (String a id ++ String "/" rest)%string
      with (String a (id ++ String "/" rest)).
    cbn [splitFrom]; rewrite prefix_head by congruence.
    destruct (IH rest (a :: cur) Hid) as (x & tl & Hsp & Hx).
    exists x, tl; split; [|exact Hx].
    rewrite Hsp, str_rev_cons, append_assoc; reflexivity.
Qed.

(** The segment is found again as the first piece before ["/"]. *)
Lemma head_segment id x :
  lacks "/" id = true ->
  x = EmptyString \/ (exists x', x = String "/" x') ->
  exists tl, Split (id ++ x) "/" = id :: tl.
Proof.
  intros Hid [->|[x' ->]].
  - rewrite append_nil_r, (Split_whole "/" _ Hid); now exists [].
  - rewrite (Split_app "/"), (Split_whole "/" _ Hid); eexists; reflexivity.
Qed.

Lemma openLogPage_from_directory E t st dir :
  LogDirectory E (clock st) t = inl dir ->
  openLogPage E t st
  = (let p := Split dir slavesMarker in
     p1 <- index p 1 ;;
     slaveID <- index (Split p1 "/") 0 ;;
     let url := (marathon_host E ++ "/mesos/#/agents/" ++ slaveID
                 ++ "/browse?path=" ++ dir)%string in
     n <- tick ;;
     emit (ExecStart "open" [url]) ;;
     match execStart E n "open" [url] with
     | Some _ => Println MsgCouldNotOpen
     | None => ret tt
     end) (mkSt (S (clock st)) (trace st ++ [AskLogDirectory t])).
Proof.
  intros Hdir; unfold openLogPage.
  rewrite (bind_val _ _ _ _ _ (callLogDirectory_run E t st)), Hdir.
  now rewrite (bind_val (ret dir) _ _ dir _) by reflexivity.
Qed.

(** X6. [openLogPage] assumes the marker: for a log directory that does not
    contain "/var/lib/mesos/slave/slaves/", it panics on the index [p[1]]
    right after the directory was resolved, and [open] is not started. *)
Theorem openLogPage_without_marker (E : External) (t : Task) (st : St)
    (dir : string) :
  LogDirectory E (clock st) t = inl dir ->
  Contains dir slavesMarker = false ->
  openLogPage E t st
  = (Panicked "index out of range",
     mkSt (S (clock st)) (trace st ++ [AskLogDirectory t])).
Proof.
  intros Hdir Hno; rewrite (openLogPage_from_directory _ _ _ _ Hdir).
  cbv zeta; unfold Split; rewrite (splitFrom_absent _ _ _ Hno).
  reflexivity.
Qed.

Lemma openLogPage_without_marker_witness :
  openLogPage w_tmp_dir finished st0
  = (Panicked "index out of range", mkSt 1 [AskLogDirectory finished]).
Proof.
  apply (openLogPage_without_marker w_tmp_dir finished st0 "/tmp/sandbox");
    reflexivity.
Defined.

(** X7. For a log directory made of the marker, a segment without "/" and
    a path below it, [openLogPage] takes that segment as the agent and
    starts [open] once, on the page of this agent and directory; a failed
    start is reported and is not fatal. *)
Theorem openLogPage_agent (E : External) (t : Task) (st : St)
    (id rest : string) :
  let dir := (slavesMarker ++ id ++ String "/" rest)%string in
  let url := (marathon_host E ++ "/mesos/#/agents/" ++ id
              ++ "/browse?path=" ++ dir)%string in
  LogDirectory E (clock st) t = inl dir ->
  lacks "/" id = true ->
  openLogPage E t st
  = (Val tt,
     mkSt (S (S (clock st)))
       (trace st ++ [AskLogDirectory t; ExecStart "open" [url]]
        ++ match execStart E (S (clock st)) "open" [url] with
           | Some _ => [Print MsgCouldNotOpen]
           | None => []
           end)).
Proof.
  intros dir url Hdir Hid; subst dir url.
  rewrite (openLogPage_from_directory _ _ _ _ Hdir); cbv zeta.
  unfold slavesMarker at 1 2; rewrite Split_leading.
  destruct (first_piece "var/lib/mesos/slave/slaves/" id rest [] Hid)
    as (x & tl & Hsp & Hx).
  change (str (rev []) ++ id ++ x)%string with (id ++ x)%string in Hsp.
  unfold Split at 1; rewrite Hsp.
  destruct (head_segment id x Hid Hx) as [tl' Hhd].
  unfold index at 1; cbn [nth_error].
  rewrite (bind_val (ret (id ++ x)%string) _ _ _ _) by reflexivity.
  rewrite Hhd; unfold index; cbn [nth_error].
  rewrite (bind_val (ret id) _ _ _ _) by reflexivity.
  unfold Println, bind, tick, emit, ret; cbn [clock trace].
  destruct (execStart E (S (clock st)) "open" _);
    cbn [clock trace]; rewrite <- !app_assoc; reflexivity.
Qed.

Lemma openLogPage_agent_witness :
  openLogPage w_running finished st0
  = (Val tt, mkSt 2 [AskLogDirectory finished; ExecStart "open" [logPage]]).
Proof.
  exact (openLogPage_agent w_running finished st0 "S1"
           "frameworks/F1/executors/ct/runs/latest" eq_refl eq_refl).
Defined.

(** X8. The log shown is the payload without the lines of the executor: for
    a payload made of lines joined by newlines, [printLogs] prints, in
    order, exactly the lines that do not contain "cpp:"; and whatever the
    payload, no line it prints contains "cpp:". *)
Theorem printLines_filter (st : St) :
  (forall ls,
      ls <> [] ->
      Forall (fun l => lacks (ascii_of_nat 10) l = true) ls ->
      printLines (Split (Join ls newline) newline) st
      = (Val tt,
         mkSt (clock st)
           (trace st ++ map (fun l => Print (MsgLogLine l))
                          (filter (fun l => negb (Contains l "cpp:")) ls)))) /\
  (forall data l,
      In (Print (MsgLogLine l))
         (trace (snd (printLines (Split data newline) st))) ->
      In (Print (MsgLogLine l)) (trace st) \/ Contains l "cpp:" = false).
Proof.
  split.
  - intros ls Hne Hls; rewrite printLines_run; unfold newline.
    now rewrite (Split_Join (ascii_of_nat 10) ls Hne Hls).
  - intros data l; rewrite printLines_run; cbn [snd trace].
    intros H; apply in_app_or in H as [H|H]; [now left|right].
    apply in_map_iff in H as (l' & Heq & Hin); inversion Heq; subst l'.
    apply filter_In in Hin as [_ Hin]; now apply negb_true_iff in Hin.
Qed.

Lemma printLines_filter_witness :
  printLines
    (Split (Join ["I0101 exec.cpp:12] Starting task"; "migrating"; "done"]
              newline) newline) st0
  = (Val tt, mkSt 0 [Print (MsgLogLine "migrating"); Print (MsgLogLine "done")]).
Proof.
  apply (proj1 (printLines_filter st0)
           ["I0101 exec.cpp:12] Starting task"; "migrating"; "done"]).
  - discriminate.
  - repeat constructor.
Defined.

End LogMore.

(** ** The [run] command *)

Module RunCmdFacts.
Import GoStrings Namer Mesos World Chronos Cmd MNotations Scenario Specs.
Import MoreRuns MonitorFacts SplitFacts.

Lemma Join_flatten a b l sep :
  l <> [] -> Join [a; b; Join l sep] sep = Join (a :: b :: l) sep.
Proof. destruct l; [congruence | reflexivity]. Qed.

(** X9. The name of the job comes from the arguments of the command line:
    [runCmd] joins them with spaces and [sanitizedCommand] splits them again,
    so each argument without a space is one token, and the name is the join
    with "-" of the app, the environment and what each argument gives.  An
    argument that holds spaces counts as several tokens. *)
Theorem run_name_from_args (app env : string) (args : list string) :
  args <> [] ->
  sanitizedCommand (Join args " ")
  = Join (map sanitizedToken (concat (map (fun a => Split a " ") args))) "-" /\
  (Forall (fun a => lacks " " a = true) args ->
   deriveTaskName app env (Join args " ")
   = Join (app :: env :: map sanitizedToken args) "-").
Proof.
  intros Hne; split.
  - unfold sanitizedCommand; now rewrite (Split_Join_concat " " args Hne).
  - intros Hargs; unfold deriveTaskName, sanitizedCommand.
    rewrite (Split_Join " " args Hne Hargs).
    apply Join_flatten; destruct args; [congruence | discriminate].
Qed.

Lemma run_name_from_args_witness :
  deriveTaskName "foo" "production" (Join ["rake"; "db:migrate"] " ")
  = Join ["foo"; "production"; sanitizedToken "rake"; sanitizedToken "db:migrate"]
      "-".
Proof.
  apply (proj2 (run_name_from_args "foo" "production" ["rake"; "db:migrate"]
                  ltac:(discriminate))).
  repeat constructor.
Defined.

(** The exit status of [duncan run]: without arguments it prints
    "must supply COMMAND to run" and exits with -1 before any request; with
    arguments it exits with -1, after printing the error, exactly when
    [RunCommand] returns an error, and returns normally when it returns
    nil. *)
Theorem runCmd_exit (E : External) (fuel : nat) (app env : string)
    (args : list string) (st : St) :
  (args = [] ->
   runCmd_Run E fuel app env args st
   = (Exited (-1), mkSt (clock st) (trace st ++ [Print MsgMustSupplyCommand]))) /\
  (args <> [] ->
   forall res st',
     RunCommand E fuel app env (Join args " ") st = (Val res, st') ->
     runCmd_Run E fuel app env args st
     = match res with
       | Some e => (Exited (-1), mkSt (clock st') (trace st' ++ [Print (MsgError e)]))
       | None => (Val tt, st')
       end).
Proof.
  split.
  - intros ->; reflexivity.
  - intros Hne res st' Hrun; unfold runCmd_Run.
    replace (len args =? 0)%Z with false
      by (symmetry; apply Z.eqb_neq; destruct args; [congruence|unfold len; simpl; lia]).
    rewrite (bind_val (ret tt) _ st tt st) by reflexivity.
    rewrite (bind_val _ _ _ _ _ Hrun).
    now destruct res.
Qed.

End RunCmdFacts.

(** ** The monad of the other packages *)

Module ProcFacts.
Import World(Res, Val, Exited, Panicked, OutOfFuel).
Import Proc.

Lemma bind_val_proc {Ev Store A B} (m : M Ev Store A) (k : A -> M Ev Store B)
    (st : St Ev Store) a st' :
  m st = (Val a, st') -> bind m k st = k a st'.
Proof. unfold bind; now intros ->. Qed.

Lemma bind_panicked_proc {Ev Store A B} (m : M Ev Store A)
    (k : A -> M Ev Store B) (st : St Ev Store) w st' :
  m st = (Panicked w, st') -> bind m k st = (Panicked w, st').
Proof. unfold bind; now intros ->. Qed.

End ProcFacts.

(** ** The [scale] command *)

Module ScaleFacts.
Import GoStrings Specs Strconv Mesos.
Import World(Res, Val, Exited, Panicked, OutOfFuel).
Import Proc ScaleCmd ScaleSpecs.

Lemma accepted_well_formed b p : accepted b p = true <-> well_formed b p.
Proof.
  unfold accepted, well_formed; split.
  - pose proof (SplitFacts.Join_Split "=" p) as HJ.
    pose proof (SplitFacts.Split_lacks "=" p) as HL.
    destruct (Split p "=") as [|a [|c [|d l]]]; try discriminate.
    destruct (Atoi b c) as [n|] eqn:HA; [|discriminate]. intros _.
    exists a, c, n. inversion HL as [|? ? Ha HL']; subst.
    inversion HL' as [|? ? Hc _]; subst.
    repeat split; try assumption; try reflexivity; symmetry; exact HJ.
  - intros (proc & count & n & -> & Hp & Hc & HA).
    change (proc ++ "=" ++ count)%string with (proc ++ String "=" count)%string.
    rewrite SplitFacts.Split_app, (SplitFacts.Split_whole _ _ Hp),
      (SplitFacts.Split_whole _ _ Hc). cbn [app]. now rewrite HA.
Qed.

Lemma usage_run (st : St) :
  printUsageAndExit st
  = (Exited (-1), mkSt (clock st) (trace st ++ [Print MsgUsage]) (store st)).
Proof. reflexivity. Qed.

Lemma checkArg_run E p (st : St) :
  checkArg E p tt st
  = if accepted (intSize E) p then (Val tt, st)
    else (Exited (-1),
          mkSt (clock st) (trace st ++ [Print MsgUsage]) (store st)).
Proof.
  unfold checkArg, accepted.
  destruct (Split p "=") as [|a [|c [|d l]]]; try reflexivity.
  cbn. destruct (Atoi (intSize E) c); reflexivity.
Qed.

Lemma check_all E args (st : St) :
  forEach args (checkArg E) tt st
  = if forallb (accepted (intSize E)) args then (Val tt, st)
    else (Exited (-1),
          mkSt (clock st) (trace st ++ [Print MsgUsage]) (store st)).
Proof.
  induction args as [|p args IH]; [reflexivity|].
  cbn [forEach forallb]. unfold bind at 1. rewrite checkArg_run.
  destruct (accepted (intSize E) p); cbn [andb]; [|reflexivity].
  destruct st; apply IH.
Qed.

Lemma known_env_test env :
  negb (String.eqb env EmptyString) && negb (String.eqb env "stage")
    && negb (String.eqb env "production") = false <-> known_env env.
Proof.
  unfold known_env.
  destruct (String.eqb_spec env EmptyString), (String.eqb_spec env "stage"),
    (String.eqb_spec env "production"); cbn; intuition congruence.
Qed.

Lemma all_well_formed b args :
  forallb (accepted b) args = true <-> Forall (well_formed b) args.
Proof.
  rewrite forallb_forall, Forall_forall.
  split; intros H p Hp; apply accepted_well_formed, H, Hp.
Qed.

(** X10.  Arguments that pass the checks of [scale] - at least one, a flag
    [env] that is empty, [stage] or [production], and every argument of the
    form [proc=count] with one [=] and a count [Atoi] reads - are handed to
    [marathon.Scale] once and unchanged, nothing being printed before; its
    error is printed and makes the command exit with -1. *)
Theorem scale_accepts E app env args (st : St) :
  args <> [] -> known_env env -> Forall (well_formed (intSize E)) args ->
  Run E app env args st
  = match marathonScale E (clock st) app env args with
    | None =>
        (Val tt,
         mkSt (S (clock st)) (trace st ++ [Scale app env args]) (store st))
    | Some err =>
        (Exited (-1),
         mkSt (S (clock st))
           (trace st ++ [Scale app env args; Print (MsgErr err)]) (store st))
    end.
Proof.
  intros Hne Henv Hall. unfold Run.
  destruct args as [|p args]; [congruence|]. cbn [List.length Nat.eqb].
  apply known_env_test in Henv. rewrite Henv.
  apply all_well_formed in Hall.
  unfold bind at 1. cbn [ret]. unfold bind at 1. cbn [ret].
  unfold bind at 1. rewrite check_all, Hall.
  unfold bind, tick, emit, ret, osExit; cbn.
  destruct (marathonScale E (clock st) app env (p :: args)); cbn;
    [rewrite <- app_assoc|]; reflexivity.
Qed.

Lemma scale_accepts_witness :
  Run scaleOk "foo" "production" ["web=2"; "worker=-5"] st0
  = (Val tt, mkSt 1 [Scale "foo" "production" ["web=2"; "worker=-5"]] tt).
Proof.
  apply (scale_accepts scaleOk "foo" "production" ["web=2"; "worker=-5"] st0).
  - discriminate.
  - right; right; reflexivity.
  - repeat constructor.
    + exists "web", "2", 2%Z. repeat split; reflexivity.
    + exists "worker", "-5", (-5)%Z. repeat split; reflexivity.
Defined.

(** X11.  Arguments that fail a check of [scale] never reach
    [marathon.Scale]: the command prints one line - the usage, or the
    complaint about the flag [env] when there are arguments - and exits with
    -1. *)
Theorem scale_rejects E app env args (st : St) :
  args = [] \/ ~ known_env env \/ ~ Forall (well_formed (intSize E)) args ->
  Run E app env args st
  = (Exited (-1),
     mkSt (clock st)
       (trace st ++ [Print (match args with
                            | [] => MsgUsage
                            | _ :: _ =>
                                if String.eqb env EmptyString
                                   || String.eqb env "stage"
                                   || String.eqb env "production"
                                then MsgUsage else MsgBadEnv env
                            end)])
       (store st)).
Proof.
  intros H. unfold Run.
  destruct args as [|p args]; [reflexivity|]. cbn [List.length Nat.eqb].
  unfold bind at 1. cbn [ret].
  destruct (negb (String.eqb env EmptyString) && negb (String.eqb env "stage")
            && negb (String.eqb env "production")) eqn:Henv.
  - assert (String.eqb env EmptyString || String.eqb env "stage"
            || String.eqb env "production" = false) as ->.
    { destruct (String.eqb env EmptyString), (String.eqb env "stage"),
        (String.eqb env "production"); cbn in *; congruence. }
    reflexivity.
  - assert (String.eqb env EmptyString || String.eqb env "stage"
            || String.eqb env "production" = true) as ->.
    { destruct (String.eqb env EmptyString), (String.eqb env "stage"),
        (String.eqb env "production"); cbn in *; congruence. }
    apply known_env_test in Henv.
    destruct H as [H|[H|H]]; [discriminate | contradiction |].
    unfold bind at 1. cbn [ret]. unfold bind at 1. rewrite check_all.
    destruct (forallb (accepted (intSize E)) (p :: args)) eqn:Hall;
      [|reflexivity].
    apply all_well_formed in Hall. contradiction.
Qed.

Lemma scale_rejects_witness :
  Run scaleOk "foo" "stage" ["web=2=3"] st0
  = (Exited (-1), mkSt 0 [Print MsgUsage] tt).
Proof.
  apply (scale_rejects scaleOk "foo" "stage" ["web=2=3"] st0).
  right; right. intros H. apply all_well_formed in H. discriminate H.
Defined.

End ScaleFacts.

(** ** Package vault *)

Module VaultFacts.
Import GoStrings Specs Mesos.
Import World(Res, Val, Exited, Panicked, OutOfFuel).
Import World(Response, StatusCode, Status, Body, ReadErr, HttpResult, HttpOk, HttpErr).
Import World(StatusOK, StatusNoContent, mkResponse).
Import Proc ProcNotations ProcFacts Vault VaultSpecs.

(** *** Maps *)

Lemma keys_NoDup (kv : StrMap.t string) : NoDup (map fst (StrMap.elements kv)).
Proof.
  pose proof (StrMap.elements_3w kv) as H.
  induction H as [|[k v] l Hn _ IH]; cbn; constructor; [|exact IH].
  intros Hin. apply Hn. apply in_map_iff in Hin as ([k' v'] & Hk & Hin').
  cbn in Hk; subst k'. apply SetoidList.InA_alt. exists (k, v').
  split; [reflexivity|assumption].
Qed.

Lemma keys_In (kv : StrMap.t string) k :
  In k (map fst (StrMap.elements kv)) <-> StrMap.find k kv <> None.
Proof.
  rewrite <- StrMapFacts.in_find_iff, StrMapFacts.elements_in_iff. split.
  - intros Hin. apply in_map_iff in Hin as ([k' v] & Hk & Hin).
    cbn in Hk; subst k'. exists v. apply SetoidList.InA_alt. exists (k, v).
    split; [split; reflexivity | assumption].
  - intros (v & Hin). apply SetoidList.InA_alt in Hin as ([k' v'] & [Hk Hv] & Hin).
    cbn in Hk, Hv; subst. apply in_map_iff. exists (k', v').
    split; [reflexivity|assumption].
Qed.

Lemma find_remove (kv : StrMap.t string) key k :
  StrMap.find k (StrMap.remove key kv)
  = if String.eqb k key then None else StrMap.find k kv.
Proof.
  rewrite StrMapFacts.remove_o.
  destruct (OrderedTypeEx.String_as_OT.eq_dec key k) as [e|n],
    (String.eqb_spec k key); try reflexivity; congruence.
Qed.

Lemma find_add (kv : StrMap.t string) key v k :
  StrMap.find k (StrMap.add key v kv)
  = if String.eqb key k then Some v else StrMap.find k kv.
Proof.
  rewrite StrMapFacts.add_o.
  destruct (OrderedTypeEx.String_as_OT.eq_dec key k) as [e|n],
    (String.eqb_spec key k); try reflexivity; congruence.
Qed.

Lemma no_keys (kv : StrMap.t string) :
  map fst (StrMap.elements kv) = [] -> StrMap.cardinal kv = 0.
Proof.
  rewrite StrMap.cardinal_1. now destruct (StrMap.elements kv).
Qed.

(** *** Runs *)

Section Runs.
Variable E : External.
Hypothesis fair : fair_order E.

Lemma updateSecrets_run url (st : St) :
  validURL E url = true ->
  exists r,
    updateSecrets E url Obj st
    = (Val r,
       mkSt (S (clock st))
         (trace st ++ [Do "POST" url (vault_token E) (Some (store st))])
         (store st))
    /\ (r = None <-> stored E (clock st) url (store st)).
Proof.
  intros Hurl.
  unfold updateSecrets, stored, kvPairs, newRequest, bind, get, tick, emit.
  rewrite Hurl; cbn.
  destruct (clientDo E (clock st) "POST" url (vault_token E) (Some (store st)))
    as [resp|err resp] eqn:Hdo; cbn.
  - destruct (StatusCode resp =? StatusNoContent)%Z eqn:Hs; cbn.
    + eexists; split; [reflexivity|]. split; [|reflexivity].
      intros _. exists resp. split; [reflexivity|]. now apply Z.eqb_eq.
    + destruct (ReadErr resp); (eexists; split; [reflexivity|]);
        (split; [discriminate|]); intros (resp' & Hr & Hc);
        inversion Hr; subst; apply Z.eqb_eq in Hc; congruence.
  - eexists; split; [reflexivity|]. split; [discriminate|].
    intros (resp' & Hr & _); discriminate.
Qed.

(** The inner loop of [Delete] over the keys [l] of the map. *)
Lemma delete_range key l :
  forall (kv : StrMap.t string) (count : Z) clk tr,
    NoDup l -> (forall k, In k l -> StrMap.find k kv <> None) ->
    exists kv' count',
      forEach l
        (fun k c =>
           m' <- get ;;
           match m' with
           | None => ret c
           | Some kv' =>
               match StrMap.find k kv' with
               | Some v =>
                   (if String.eqb k key then deleteKey Obj k else ret tt) ;;
                   m <- kvPairs Obj ;;
                   ret (mapLen m)
               | None => ret c
               end
           end) count (mkSt clk tr (Some kv))
      = (Val count', mkSt clk tr (Some kv'))
      /\ (l = [] -> count' = count)
      /\ (l <> [] -> count' = Z.of_nat (StrMap.cardinal kv'))
      /\ (In key l ->
          forall k, StrMap.find k kv'
                    = if String.eqb k key then None else StrMap.find k kv)
      /\ (~ In key l -> kv' = kv).
Proof.
  induction l as [|k rest IH]; intros kv count clk tr Hnd Hin.
  - exists kv, count. cbn. repeat split; try tauto; congruence.
  - inversion Hnd as [|? ? Hk Hnd']; subst.
    cbn [forEach]. unfold bind at 1. unfold bind at 1. cbn [get store].
    destruct (StrMap.find k kv) as [v|] eqn:Hf;
      [|exfalso; apply (Hin k); [now left | assumption]].
    destruct (String.eqb_spec k key) as [->|Hne].
    + destruct (IH (StrMap.remove key kv)
                  (Z.of_nat (StrMap.cardinal (StrMap.remove key kv))) clk tr Hnd')
        as (kv' & count' & Hrun & H0 & H1 & _ & H3).
      { intros k' Hk'. rewrite find_remove.
        destruct (String.eqb_spec k' key) as [->|_]; [contradiction|].
        apply Hin; now right. }
      exists kv', count'. split; [exact Hrun|].
      specialize (H3 Hk). subst kv'.
      split; [discriminate|]. split.
      * intros _. destruct rest; [now apply H0 | apply H1; discriminate].
      * split; [intros _ k0; apply find_remove | intros Hn; exfalso; apply Hn; now left].
    + destruct (IH kv (Z.of_nat (StrMap.cardinal kv)) clk tr Hnd')
        as (kv' & count' & Hrun & H0 & H1 & H2 & H3).
      { intros k' Hk'. apply Hin; now right. }
      exists kv', count'. split; [exact Hrun|].
      split; [discriminate|]. split.
      * intros _. destruct rest as [|k2 rest].
        -- rewrite (H0 eq_refl), (H3 (fun x => x)). reflexivity.
        -- apply H1; discriminate.
      * split.
        -- intros [He|Hr]; [congruence | now apply H2].
        -- intros Hn. apply H3. intros Hr. apply Hn. now right.
Qed.

Lemma delete1_run key (kv : StrMap.t string) count (st : St) :
  store st = Some kv ->
  (map fst (StrMap.elements kv) = [] -> count = 0%Z) ->
  exists kv',
    delete1 E Obj key count st
    = (Val (Z.of_nat (StrMap.cardinal kv')),
       mkSt (S (clock st)) (trace st) (Some kv'))
    /\ forall k, StrMap.find k kv'
                 = if String.eqb k key then None else StrMap.find k kv.
Proof.
  intros Hst Hcount. destruct st as [clk tr m]; cbn in Hst; subst m.
  pose proof (fair clk kv) as Hperm.
  destruct (delete_range key (rangeOrder E clk kv) kv count (S clk) tr)
    as (kv' & count' & Hrun & H0 & H1 & H2 & H3).
  { eapply Permutation.Permutation_NoDup;
      [apply Permutation.Permutation_sym, Hperm | apply keys_NoDup]. }
  { intros k Hk. apply keys_In. eapply Permutation.Permutation_in; eassumption. }
  assert (count' = Z.of_nat (StrMap.cardinal kv')) as Hc.
  { destruct (rangeOrder E clk kv) as [|k0 l0] eqn:Hl; [|apply H1; discriminate].
    rewrite (H0 eq_refl), (H3 (fun x => x)).
    apply Permutation.Permutation_nil in Hperm.
    rewrite (Hcount Hperm), (no_keys _ Hperm). reflexivity. }
  exists kv'. split.
  - unfold delete1.
    match goal with
    | |- bind ?m _ _ = _ =>
        assert (m (mkSt clk tr (Some kv))
                = (Val count', mkSt (S clk) tr (Some kv'))) as Hrm
          by exact Hrun
    end.
    rewrite (bind_val_proc _ _ _ _ _ Hrm).
    unfold bind, kvPairs, get, Printf, ret; cbn [store mapLen].
    rewrite Hc, Z.eqb_refl. reflexivity.
  - intros k.
    destruct (in_dec string_dec key (rangeOrder E clk kv)) as [Hi|Hn];
      [now apply H2|].
    rewrite (H3 Hn). destruct (String.eqb_spec k key) as [->|]; [|reflexivity].
    destruct (StrMap.find key kv) eqn:Hf; [|reflexivity].
    exfalso. apply Hn. eapply Permutation.Permutation_in;
      [apply Permutation.Permutation_sym, Hperm|].
    apply keys_In. congruence.
Qed.

Lemma delete_all keys :
  forall (kv : StrMap.t string) count (st : St),
    store st = Some kv ->
    (map fst (StrMap.elements kv) = [] -> count = 0%Z) ->
    exists n kv' count',
      forEach keys (delete1 E Obj) count st
      = (Val count', mkSt n (trace st) (Some kv'))
      /\ forall k, StrMap.find k kv'
                   = if existsb (String.eqb k) keys then None
                     else StrMap.find k kv.
Proof.
  induction keys as [|key keys IH]; intros kv count st Hst Hcount.
  - exists (clock st), kv, count. destruct st; cbn in *; subst. now split.
  - destruct (delete1_run key kv count st Hst Hcount) as (kv1 & Hrun & Hfind).
    destruct (IH kv1 (Z.of_nat (StrMap.cardinal kv1))
                (mkSt (S (clock st)) (trace st) (Some kv1)) eq_refl)
      as (n & kv' & count' & Hrun' & Hfind').
    { intros He. now rewrite (no_keys _ He). }
    exists n, kv', count'. split.
    + cbn [forEach]. rewrite (bind_val_proc _ _ _ _ _ Hrun). exact Hrun'.
    + intros k. rewrite Hfind', Hfind. cbn [existsb].
      destruct (String.eqb k key), (existsb (String.eqb k) keys); reflexivity.
Qed.

Lemma delete_all_nil keys (st : St) :
  store st = None -> forEach keys (delete1 E Obj) 0%Z st = (Val 0%Z, st).
Proof.
  intros Hst. induction keys as [|key keys IH]; [reflexivity|].
  cbn [forEach]. erewrite bind_val_proc; [exact IH|].
  destruct st as [clk tr m]; cbn in Hst; subst m. reflexivity.
Qed.

End Runs.

(** *** [Write] *)

Lemma calm_ret {A} (a : A) : calm (ret a).
Proof.
  intros st r st' H; inversion H; subst.
  repeat split; [lia | exists []; cbn; now rewrite app_nil_r | left; eauto].
Qed.

Lemma calm_panic {A} w : calm (A := A) (panic w).
Proof.
  intros st r st' H; inversion H; subst.
  repeat split; [lia | exists []; cbn; now rewrite app_nil_r | right; eauto].
Qed.

Lemma calm_get : calm get.
Proof.
  intros st r st' H; inversion H; subst.
  repeat split; [lia | exists []; cbn; now rewrite app_nil_r | left; eauto].
Qed.

Lemma calm_tick : calm tick.
Proof.
  intros st r st' H; inversion H; subst; cbn.
  repeat split; [lia | exists []; cbn; now rewrite app_nil_r | left; eauto].
Qed.

Lemma calm_Printf m : calm (Printf m).
Proof.
  intros st r st' H; inversion H; subst; cbn.
  repeat split; [lia | exists [m]; reflexivity | left; eauto].
Qed.

Lemma calm_index {A} (a : list A) i : calm (index a i).
Proof.
  unfold index. destruct (nth_error a i); [apply calm_ret | apply calm_panic].
Qed.

Lemma calm_kvPairs s : calm (kvPairs s).
Proof. destruct s; [apply calm_panic | apply calm_get]. Qed.

Lemma calm_bind {A B} (m : M A) (k : A -> M B) :
  calm m -> (forall a, calm (k a)) -> calm (bind m k).
Proof.
  intros Hm Hk st r st' H. unfold bind in H.
  destruct (m st) as [r1 st1] eqn:Hm1.
  destruct (Hm _ _ _ Hm1) as (Hs & Hc & (msgs & Ht) & Hr).
  destruct r1 as [a|c|w|].
  - destruct (Hk a _ _ _ H) as (Hs' & Hc' & (msgs' & Ht') & Hr').
    split; [congruence|]. split; [lia|]. split; [|exact Hr'].
    exists (msgs ++ msgs'). now rewrite Ht', Ht, map_app, app_assoc.
  - destruct Hr as [[a Ha]|[w Hw]]; discriminate.
  - inversion H; subst. repeat split; eauto.
  - destruct Hr as [[a Ha]|[w Hw]]; discriminate.
Qed.

Lemma calm_forEach {A C} (l : list A) (body : A -> C -> M C) :
  (forall x c, calm (body x c)) -> forall c, calm (forEach l body c).
Proof.
  intros Hb. induction l as [|x l IH]; intros c; cbn [forEach].
  - apply calm_ret.
  - apply calm_bind; [apply Hb | exact IH].
Qed.

Lemma calm_rangeMap E {C} s (body : string -> string -> C -> M C) c :
  (forall k v c, calm (body k v c)) -> calm (rangeMap E s body c).
Proof.
  intros Hb. unfold rangeMap.
  apply calm_bind; [apply calm_kvPairs|]. intros [kv|]; [|apply calm_ret].
  apply calm_bind; [apply calm_tick|]. intros n.
  apply calm_forEach. intros k c'.
  apply calm_bind; [apply calm_get|]. intros [kv'|]; [|apply calm_ret].
  destruct (StrMap.find k kv'); [apply Hb | apply calm_ret].
Qed.

Lemma calm_announce E s kvp u : calm (announce E s kvp u).
Proof.
  unfold announce. apply calm_rangeMap. intros k v c.
  apply calm_bind; [apply calm_index|]. intros p0.
  destruct (String.eqb k p0); [|apply calm_ret].
  apply calm_bind; [apply calm_index|]. intros p1. apply calm_Printf.
Qed.

(** The pieces of an element with and without [=]. *)
Lemma Split_pair kvp :
  lacks "=" kvp = false ->
  exists a b r, Split kvp "=" = a :: b :: r.
Proof.
  intros Hl.
  pose proof (SplitFacts.Join_Split "=" kvp) as HJ.
  pose proof (SplitFacts.Split_lacks "=" kvp) as HL.
  pose proof (SplitFacts.splitFrom_nonempty "=" kvp 0 []) as Hne.
  fold (Split kvp "=") in Hne.
  destruct (Split kvp "=") as [|a [|b r]]; [congruence | | eauto].
  cbn in HJ. inversion HL; subst. congruence.
Qed.

(** One step of the second loop of [Write] returns only on a map that is
    not nil and for an element with a [=]. *)
Lemma store1_shape s kvp (st : St) :
  (exists kv,
      s = Obj /\ store st = Some kv /\ lacks "=" kvp = false
      /\ store1 s kvp tt st
         = (Val tt,
            mkSt (clock st) (trace st)
              (Some (StrMap.add (key kvp) (value kvp) kv))))
  \/ (exists w, store1 s kvp tt st = (Panicked w, st)).
Proof.
  unfold store1, key, value. destruct s; [right; eexists; reflexivity|].
  destruct st as [clk tr m]. unfold bind at 1. cbn [kvPairs get store].
  destruct (lacks "=" kvp) eqn:Hl.
  - right. rewrite (SplitFacts.Split_whole _ _ Hl). eexists; reflexivity.
  - destruct (Split_pair kvp Hl) as (a & b & r & ->).
    destruct m as [kv|].
    + left. exists kv. repeat split.
    + right. eexists. reflexivity.
Qed.

Lemma store_loop_panics s kvs :
  forall st : St,
    (kvs <> [] /\ (s = Nil \/ store st = None))
    \/ Exists (fun kvp => lacks "=" kvp = true) kvs ->
    exists w st',
      forEach kvs (store1 s) tt st = (Panicked w, st')
      /\ trace st' = trace st.
Proof.
  induction kvs as [|kvp kvs IH]; intros st H.
  - destruct H as [[H _]|H]; [congruence | inversion H].
  - cbn [forEach].
    destruct (store1_shape s kvp st)
      as [(kv & Hs & Hst & Hl & Hrun)|(w & Hrun)].
    + rewrite (bind_val_proc _ _ _ _ _ Hrun).
      destruct (IH (mkSt (clock st) (trace st)
                      (Some (StrMap.add (key kvp) (value kvp) kv))))
        as (w & st' & Hrun' & Ht).
      { right. destruct H as [[_ [H|H]]|H]; [congruence | congruence |].
        inversion H; subst; [congruence | assumption]. }
      exists w, st'. now split.
    + rewrite (bind_panicked_proc _ _ _ _ _ Hrun). now exists w, st.
Qed.

(** X12.  For a URL [http.NewRequest] accepts, [Delete] takes the given
    keys, and no other, out of the map of the object it is given, whatever
    Vault answers afterwards; it sends one POST
    with the map that is left and returns the object when the answer is 204.
    The line [deleted key] is never printed: the count it compares with is
    taken after the removal. *)
Theorem Delete_removes E url keys (st : St) :
  fair_order E ->
  validURL E url = true ->
  exists n m' r,
    Delete E url keys Obj st
    = (Val r,
       mkSt (S n) (trace st ++ [Do "POST" url (vault_token E) (Some m')]) m')
    /\ pruned keys (store st) m'
    /\ (r = (Obj, None) <-> stored E n url m').
Proof.
  intros fair Hurl. unfold Delete.
  assert (exists n m' c,
             forEach keys (delete1 E Obj) 0%Z st = (Val c, mkSt n (trace st) m')
             /\ pruned keys (store st) m') as (n & m' & c & Hrun & Hp).
  { destruct (store st) as [kv|] eqn:Hst.
    - destruct (delete_all E fair keys kv 0%Z st Hst (fun _ => eq_refl))
        as (n & kv' & c & Hrun & Hfind).
      exists n, (Some kv'), c. now split.
    - exists (clock st), None, 0%Z. split; [|exact I].
      rewrite (delete_all_nil E keys st Hst). destruct st; cbn in *; now subst. }
  rewrite (bind_val_proc _ _ _ _ _ Hrun).
  destruct (updateSecrets_run E url (mkSt n (trace st) m') Hurl)
    as (r & Hup & Hr).
  rewrite (bind_val_proc _ _ _ _ _ Hup). cbn [clock trace store] in *.
  exists n, m'. destruct r as [err|].
  - exists (Nil, Some err). split; [reflexivity|]. split; [exact Hp|].
    split; [discriminate|]. intros H. apply Hr in H. discriminate.
  - exists (Obj, None). split; [reflexivity|]. split; [exact Hp|].
    split; [intros _; now apply Hr | reflexivity].
Qed.

Lemma Delete_removes_witness :
  exists n m' r,
    Delete (vaultOk []) "u" ["a"] Obj (holding [("a", "1"); ("b", "2")])
    = (Val r,
       mkSt (S n) ([] ++ [Do "POST" "u" "token" (Some m')]) m')
    /\ pruned ["a"] (Some (mapOf [("a", "1"); ("b", "2")])) m'
    /\ (r = (Obj, None) <-> stored (vaultOk []) n "u" m').
Proof.
  apply (Delete_removes (vaultOk []) "u" ["a"]
           (holding [("a", "1"); ("b", "2")])).
  - intros n kv. apply Permutation.Permutation_refl.
  - reflexivity.
Defined.

(** X13.  [Write] panics, having sent nothing to Vault, when it is given no
    object, when the map of the object is nil and there is an element to
    write, or when an element has no [=]: the second loop takes the piece
    after the [=] of every element. *)
Theorem Write_panics E url kvs s (st : St) :
  s = Nil \/ (store st = None /\ kvs <> [])
  \/ Exists (fun kvp => lacks "=" kvp = true) kvs ->
  exists w msgs st',
    Write E url kvs s st = (Panicked w, st')
    /\ trace st' = trace st ++ map Print msgs.
Proof.
  intros H. unfold Write.
  destruct (forEach kvs (announce E s) tt st) as [r1 st1] eqn:H1.
  destruct (calm_forEach kvs (announce E s) (calm_announce E s) tt _ _ _ H1)
    as (Hs & _ & (msgs & Ht) & [[[] ->]|[w ->]]).
  2:{ exists w, msgs, st1. split; [|exact Ht].
      now rewrite (bind_panicked_proc _ _ _ _ _ H1). }
  rewrite (bind_val_proc _ _ _ _ _ H1).
  destruct kvs as [|kvp kvs].
  - destruct H as [->|[[_ H]|H]]; [|congruence|inversion H].
    cbn in H1. inversion H1; subst st1.
    exists "invalid memory address or nil pointer dereference", [], st.
    split; [reflexivity | cbn; now rewrite app_nil_r].
  - destruct (store_loop_panics s (kvp :: kvs) st1) as (w & st' & Hrun & Ht').
    { destruct H as [->|[[H _]|H]].
      - left. split; [discriminate | now left].
      - left. split; [discriminate | right; congruence].
      - now right. }
    exists w, msgs, st'. split; [|congruence].
    now rewrite (bind_panicked_proc _ _ _ _ _ Hrun).
Qed.

Lemma Write_panics_witness :
  exists w msgs st',
    Write (vaultOk []) "u" ["a=1"; "b"] Obj (holding [("a", "0")])
    = (Panicked w, st')
    /\ trace st' = [] ++ map Print msgs.
Proof.
  apply (Write_panics (vaultOk []) "u" ["a=1"; "b"] Obj (holding [("a", "0")])).
  right; right. apply Exists_cons_tl, Exists_cons_hd. reflexivity.
Defined.

Section Announce.
Variable E : External.
Hypothesis fair : fair_order E.

(** The inner loop of the first loop of [Write] over the keys [l]. *)
Lemma announce_range (kv : StrMap.t string) a b r l :
  forall clk tr,
    NoDup l ->
    forEach l
      (fun k c =>
         m' <- get ;;
         match m' with
         | None => ret c
         | Some kv' =>
             match StrMap.find k kv' with
             | Some v =>
                 p0 <- index (a :: b :: r) 0 ;;
                 if String.eqb k p0
                 then p1 <- index (a :: b :: r) 1 ;; Printf (MsgChanging k v p1)
                 else ret tt
             | None => ret c
             end
         end) tt (mkSt clk tr (Some kv))
    = (Val tt,
       mkSt clk
         (tr ++ if existsb (String.eqb a) l
                then match StrMap.find a kv with
                     | Some v => [Print (MsgChanging a v b)]
                     | None => []
                     end
                else [])
         (Some kv)).
Proof.
  induction l as [|k l IH]; intros clk tr Hnd.
  - cbn. now rewrite app_nil_r.
  - inversion Hnd as [|? ? Hk Hnd']; subst.
    cbn [forEach existsb]. unfold bind at 1. unfold bind at 1. cbn [get store].
    destruct (String.eqb_spec a k) as [<-|Hne].
    + assert (existsb (String.eqb a) l = false) as Hex.
      { destruct (existsb (String.eqb a) l) eqn:Hex; [|reflexivity].
        apply existsb_exists in Hex as (x & Hx & He).
        apply String.eqb_eq in He; subst x. contradiction. }
      cbn [orb]. destruct (StrMap.find a kv) as [v|] eqn:Hf.
      * cbn [index nth_error]. unfold bind at 1. cbn [ret].
        rewrite String.eqb_refl. unfold bind at 1. cbn [ret].
        unfold Printf, emit; cbn [clock trace store].
        rewrite IH by assumption. rewrite Hex, app_nil_r. reflexivity.
      * cbn [ret]. rewrite IH by assumption. now rewrite Hex.
    + cbn [orb]. destruct (StrMap.find k kv) as [v|] eqn:Hf.
      * cbn [index nth_error]. unfold bind at 1. cbn [ret].
        destruct (String.eqb_spec k a) as [->|_]; [congruence|].
        cbn [ret]. now apply IH.
      * cbn [ret]. now apply IH.
Qed.

Lemma announce_run (kv : StrMap.t string) kvp (st : St) :
  store st = Some kv -> lacks "=" kvp = false ->
  announce E Obj kvp tt st
  = (Val tt,
     mkSt (S (clock st))
       (trace st ++ match StrMap.find (key kvp) kv with
                    | Some v => [Print (MsgChanging (key kvp) v (value kvp))]
                    | None => []
                    end)
       (Some kv)).
Proof.
  intros Hst Hl. destruct st as [clk tr m]; cbn in Hst; subst m.
  unfold announce, rangeMap, key, value.
  destruct (Split_pair kvp Hl) as (a & b & r & ->). cbn [nth].
  unfold bind at 1. cbn [kvPairs get store].
  unfold bind at 1. cbn [tick clock trace store].
  pose proof (fair clk kv) as Hperm.
  rewrite announce_range.
  2:{ eapply Permutation.Permutation_NoDup;
      [apply Permutation.Permutation_sym, Hperm | apply keys_NoDup]. }
  cbn [clock trace]. f_equal. f_equal. f_equal.
  destruct (StrMap.find a kv) as [v|] eqn:Hf;
    [|now destruct (existsb (String.eqb a) (rangeOrder E clk kv))].
  assert (existsb (String.eqb a) (rangeOrder E clk kv) = true) as ->;
    [|reflexivity].
  apply existsb_exists. exists a. split; [|apply String.eqb_refl].
  eapply Permutation.Permutation_in;
    [apply Permutation.Permutation_sym, Hperm|].
  apply keys_In. congruence.
Qed.

Lemma announce_all (kv : StrMap.t string) kvs :
  forall st : St,
    store st = Some kv ->
    Forall (fun kvp => lacks "=" kvp = false) kvs ->
    forEach kvs (announce E Obj) tt st
    = (Val tt,
       mkSt (clock st + List.length kvs) (trace st ++ changes kv kvs)
         (Some kv)).
Proof.
  induction kvs as [|kvp kvs IH]; intros st Hst Hall.
  - destruct st; cbn in *; subst.
    now rewrite Nat.add_0_r, app_nil_r.
  - inversion Hall as [|? ? Hl Hall']; subst. cbn [forEach].
    rewrite (bind_val_proc _ _ _ _ _ (announce_run kv kvp st Hst Hl)).
    rewrite IH by (try reflexivity; assumption).
    cbn [clock trace store List.length changes flat_map].
    unfold changes. rewrite <- app_assoc.
    replace (S (clock st) + List.length kvs)
      with (clock st + S (List.length kvs)) by lia.
    reflexivity.
Qed.

End Announce.

Lemma store_all kvs :
  forall (kv : StrMap.t string) (st : St),
    store st = Some kv ->
    Forall (fun kvp => lacks "=" kvp = false) kvs ->
    exists kv',
      forEach kvs (store1 Obj) tt st
      = (Val tt, mkSt (clock st) (trace st) (Some kv'))
      /\ forall k,
          StrMap.find k kv'
          = match written kvs k with
            | Some v => Some v
            | None => StrMap.find k kv
            end.
Proof.
  induction kvs as [|kvp kvs IH]; intros kv st Hst Hall.
  - exists kv. destruct st; cbn in *; subst. now split.
  - inversion Hall as [|? ? Hl Hall']; subst. cbn [forEach].
    destruct (store1_shape Obj kvp st)
      as [(kv0 & _ & Hst0 & _ & Hrun)|(w & Hrun)].
    + assert (kv0 = kv) by congruence. subst kv0.
      rewrite (bind_val_proc _ _ _ _ _ Hrun).
      destruct (IH (StrMap.add (key kvp) (value kvp) kv)
                  (mkSt (clock st) (trace st)
                     (Some (StrMap.add (key kvp) (value kvp) kv)))
                  eq_refl Hall') as (kv' & Hrun' & Hfind).
      exists kv'. split; [exact Hrun'|].
      intros k. rewrite Hfind, find_add. cbn [written].
      destruct (written kvs k); [reflexivity|].
      now destruct (String.eqb (key kvp) k).
    + exfalso.
      unfold store1 in Hrun. destruct st as [clk tr m]; cbn in Hst; subst m.
      destruct (Split_pair kvp Hl) as (a & b & r & Hsp).
      rewrite Hsp in Hrun. discriminate Hrun.
Qed.

(** X14.  For a URL [http.NewRequest] accepts, on a map that is not nil and
    for elements that all have a [=], [Write] prints one line for every element whose key the map held before
    the call, with the value it held then; it gives every key the value of
    the last element that names it, the value ending at a second [=]; and it
    sends one POST with the new map, which stays in the object whatever
    Vault answers. *)
Theorem Write_stores E url kvs (kv : StrMap.t string) (st : St) :
  fair_order E ->
  validURL E url = true ->
  store st = Some kv ->
  Forall (fun kvp => lacks "=" kvp = false) kvs ->
  exists n kv' r,
    Write E url kvs Obj st
    = (Val r,
       mkSt (S n)
         (trace st ++ changes kv kvs
            ++ [Do "POST" url (vault_token E) (Some (Some kv'))])
         (Some kv'))
    /\ (forall k,
           StrMap.find k kv'
           = match written kvs k with
             | Some v => Some v
             | None => StrMap.find k kv
             end)
    /\ (r = (Obj, None) <-> stored E n url (Some kv')).
Proof.
  intros fair Hurl Hst Hall. unfold Write.
  rewrite (bind_val_proc _ _ _ _ _ (announce_all E fair kv kvs st Hst Hall)).
  destruct (store_all kvs kv
              (mkSt (clock st + List.length kvs) (trace st ++ changes kv kvs)
                 (Some kv)) eq_refl Hall) as (kv' & Hrun & Hfind).
  rewrite (bind_val_proc _ _ _ _ _ Hrun). cbn [clock trace store].
  destruct (updateSecrets_run E url
              (mkSt (clock st + List.length kvs) (trace st ++ changes kv kvs)
                 (Some kv')) Hurl) as (r & Hup & Hr).
  rewrite (bind_val_proc _ _ _ _ _ Hup). cbn [clock trace store] in *.
  rewrite <- app_assoc.
  exists (clock st + List.length kvs), kv'. destruct r as [err|].
  - exists (Nil, Some err). split; [reflexivity|]. split; [exact Hfind|].
    split; [discriminate|]. intros H. apply Hr in H. discriminate.
  - exists (Obj, None). split; [reflexivity|]. split; [exact Hfind|].
    split; [intros _; now apply Hr | reflexivity].
Qed.

Lemma Write_stores_witness :
  exists n kv' r,
    Write (vaultOk []) "u" ["a=b=c"; "x=1"; "a=2"] Obj (holding [("a", "0")])
    = (Val r,
       mkSt (S n)
         ([] ++ changes (mapOf [("a", "0")]) ["a=b=c"; "x=1"; "a=2"]
            ++ [Do "POST" "u" "token" (Some (Some kv'))])
         (Some kv'))
    /\ (forall k,
           StrMap.find k kv'
           = match written ["a=b=c"; "x=1"; "a=2"] k with
             | Some v => Some v
             | None => StrMap.find k (mapOf [("a", "0")])
             end)
    /\ (r = (Obj, None) <-> stored (vaultOk []) n "u" (Some kv')).
Proof.
  apply (Write_stores (vaultOk []) "u" ["a=b=c"; "x=1"; "a=2"]
           (mapOf [("a", "0")]) (holding [("a", "0")])).
  - intros n kv. apply Permutation.Permutation_refl.
  - reflexivity.
  - reflexivity.
  - repeat constructor.
Defined.

(** *** [Read] *)

(** X15.  For a URL [http.NewRequest] accepts, [Read] sends one GET with
    the token and does not panic.  It returns secrets only when the answer
    is 200 and decodes to a map with at least one pair; a nil or empty map
    is the error [no secrets yet]. *)
Theorem Read_result E url (st : St) :
  validURL E url = true ->
  exists r,
    Read E url st
    = (Val r,
       mkSt (S (clock st))
         (trace st ++ [Do "GET" url (vault_token E) None]) (store st))
    /\ (forall s,
           r = inl s
           <-> exists resp,
               clientDo E (clock st) "GET" url (vault_token E) None
               = HttpOk resp
               /\ StatusCode resp = StatusOK
               /\ decodeSecrets E resp = inl s
               /\ (0 < mapLen s)%Z)
    /\ (r = inr NoSecretsYet
        <-> exists resp s,
            clientDo E (clock st) "GET" url (vault_token E) None = HttpOk resp
            /\ StatusCode resp = StatusOK
            /\ decodeSecrets E resp = inl s
            /\ mapLen s = 0%Z).
Proof.
  intros Hurl.
  assert (forall s, (0 <= mapLen s)%Z) as Hpos.
  { intros [kv|]; cbn; lia. }
  unfold Read, readSecrets, newRequest, bind, tick, emit. rewrite Hurl; cbn.
  destruct (clientDo E (clock st) "GET" url (vault_token E) None)
    as [resp|err resp] eqn:Hdo; cbn.
  - destruct (StatusCode resp =? StatusOK)%Z eqn:Hs; cbn.
    + apply Z.eqb_eq in Hs.
      destruct (decodeSecrets E resp) as [s|err] eqn:Hd; cbn.
      * destruct (mapLen s =? 0)%Z eqn:Hlen; cbn.
        -- apply Z.eqb_eq in Hlen.
           eexists; split; [reflexivity|]. split.
           ++ intros s'. split; [discriminate|].
              intros (resp' & Hr & _ & Hd' & Hl).
              inversion Hr; subst resp'. rewrite Hd in Hd'.
              inversion Hd'; subst. lia.
           ++ split; [|reflexivity]. intros _. exists resp, s. auto.
        -- apply Z.eqb_neq in Hlen. specialize (Hpos s).
           eexists; split; [reflexivity|]. split.
           ++ intros s'. split.
              ** intros H; inversion H; subst s'. exists resp.
                 repeat split; try assumption; lia.
              ** intros (resp' & Hr & _ & Hd' & Hl).
                 inversion Hr; subst resp'. congruence.
           ++ split; [discriminate|].
              intros (resp' & s' & Hr & _ & Hd' & Hl).
              inversion Hr; subst resp'. rewrite Hd in Hd'.
              inversion Hd'; subst. contradiction.
      * eexists; split; [reflexivity|]. split.
        -- intros s'. split; [discriminate|].
           intros (resp' & Hr & _ & Hd' & _).
           inversion Hr; subst resp'. congruence.
        -- split; [discriminate|].
           intros (resp' & s' & Hr & _ & Hd' & _).
           inversion Hr; subst resp'. congruence.
    + apply Z.eqb_neq in Hs.
      destruct (ReadErr resp); cbn; (eexists; split; [reflexivity|]); split;
        try (intros s'); (split; [discriminate|]).
      all: try (intros (resp' & Hr & Hc & _); inversion Hr; subst; contradiction).
      all: intros (resp' & s' & Hr & Hc & _); inversion Hr; subst; contradiction.
  - eexists; split; [reflexivity|]. split.
    + intros s'. split; [discriminate|]. intros (resp' & Hr & _). discriminate.
    + split; [discriminate|]. intros (resp' & s' & Hr & _). discriminate.
Qed.

Lemma Read_result_witness :
  exists r,
    Read (vaultOk [("a", "1")]) "u" (holding [])
    = (Val r, mkSt 1 ([] ++ [Do "GET" "u" "token" None]) (Some (mapOf [])))
    /\ (forall s,
           r = inl s
           <-> exists resp,
               clientDo (vaultOk [("a", "1")]) 0 "GET" "u" "token" None
               = HttpOk resp
               /\ StatusCode resp = StatusOK
               /\ decodeSecrets (vaultOk [("a", "1")]) resp = inl s
               /\ (0 < mapLen s)%Z)
    /\ (r = inr NoSecretsYet
        <-> exists resp s,
            clientDo (vaultOk [("a", "1")]) 0 "GET" "u" "token" None
            = HttpOk resp
            /\ StatusCode resp = StatusOK
            /\ decodeSecrets (vaultOk [("a", "1")]) resp = inl s
            /\ mapLen s = 0%Z).
Proof.
  apply (Read_result (vaultOk [("a", "1")]) "u" (holding [])).
  reflexivity.
Defined.

End VaultFacts.

(** ** Package marathon *)

Module MarathonFacts.
Import Mesos.
Import World(Res, Val, Exited, Panicked, OutOfFuel).
Import World(Response, HttpResult, HttpOk, HttpErr).
Import Chronos(Ctl, Continue, Leave).
Import Proc ProcNotations ProcFacts Marathon MarathonSpecs.

Lemma rounds_snoc url n :
  rounds url (S n) = rounds url n ++ [Sleep 5000; Get url].
Proof.
  induction n as [|n IH]; [reflexivity|].
  cbn [rounds app] in *. now rewrite <- IH.
Qed.

Lemma poll_pending E (st : St) :
  pending E (clock st) ->
  poll E st
  = (Val (Continue tt),
     mkSt (S (clock st))
       (trace st ++ [Sleep 5000; Get (deploymentsURL E)]) (store st)).
Proof.
  intros (resp & len & Hget & Hdec).
  unfold poll, bind, emit, tick; cbn. rewrite Hget, Hdec; cbn.
  now rewrite <- app_assoc.
Qed.

Lemma poll_settled E (st : St) :
  settled E (clock st) ->
  poll E st
  = (Val (Leave None),
     mkSt (S (clock st))
       (trace st ++ [Sleep 5000; Get (deploymentsURL E)] ++ [Print MsgDone])
       (store st)).
Proof.
  intros (resp & Hget & Hdec).
  unfold poll, bind, emit, tick; cbn. rewrite Hget, Hdec; cbn.
  now rewrite <- !app_assoc.
Qed.

Lemma poll_failed E (st : St) err :
  failed E (clock st) err ->
  poll E st
  = (Val (Leave (Some err)),
     mkSt (S (clock st))
       (trace st ++ [Sleep 5000; Get (deploymentsURL E)]) (store st)).
Proof.
  intros [(resp & Hget)|(resp & Hget & Hdec)];
    unfold poll, bind, emit, tick; cbn; rewrite Hget; [|rewrite Hdec]; cbn;
    now rewrite <- app_assoc.
Qed.

(** The loop while deployments are in progress. *)
Lemma loop_pending E n :
  forall fuel (st : St),
    (forall i, i < n -> pending E (clock st + i)) ->
    n <= fuel ->
    loop fuel (poll E) st
    = loop (fuel - n) (poll E)
        (mkSt (clock st + n) (trace st ++ rounds (deploymentsURL E) n)
           (store st)).
Proof.
  induction n as [|n IH]; intros fuel st Hp Hf.
  - destruct st; cbn. now rewrite Nat.sub_0_r, Nat.add_0_r, app_nil_r.
  - destruct fuel as [|fuel]; [lia|]. cbn [loop].
    rewrite (bind_val_proc _ _ _ _ _ (poll_pending E st ltac:(
      replace (clock st) with (clock st + 0) by lia; apply Hp; lia))).
    rewrite IH.
    + cbn [clock trace store]. rewrite <- app_assoc.
      replace (S (clock st) + n) with (clock st + S n) by lia.
      reflexivity.
    + intros i Hi. cbn [clock].
      replace (S (clock st) + i) with (clock st + S i) by lia.
      apply Hp; lia.
    + lia.
Qed.

Lemma waitForDeployment_start E fuel id (st : St) :
  waitForDeployment E fuel id st
  = loop fuel (poll E)
      (mkSt (clock st) (trace st ++ [Print MsgWaiting; GoSpinner]) (store st)).
Proof.
  unfold waitForDeployment, bind, emit; cbn. now rewrite <- app_assoc.
Qed.

(** X16.  [waitForDeployment] sleeps five seconds before every request,
    the first too, and goes on while the list of deployments it gets is not
    empty.  It returns nil, after printing [DONE], at the first poll that
    shows no deployment at all - the [id] it is given plays no part - and
    the error of the first poll that fails, without [DONE]. *)
Theorem waitForDeployment_polls E fuel id n (st : St) :
  (forall i, i < n -> pending E (clock st + i)) ->
  n < fuel ->
  (settled E (clock st + n) ->
   waitForDeployment E fuel id st
   = (Val None,
      mkSt (clock st + S n)
        (trace st ++ [Print MsgWaiting; GoSpinner]
           ++ rounds (deploymentsURL E) (S n) ++ [Print MsgDone])
        (store st)))
  /\ (forall err,
         failed E (clock st + n) err ->
         waitForDeployment E fuel id st
         = (Val (Some err),
            mkSt (clock st + S n)
              (trace st ++ [Print MsgWaiting; GoSpinner]
                 ++ rounds (deploymentsURL E) (S n))
              (store st))).
Proof.
  intros Hp Hf.
  rewrite waitForDeployment_start.
  rewrite (loop_pending E n fuel) by (cbn [clock]; assumption || lia).
  cbn [clock trace store].
  destruct (fuel - n) as [|f] eqn:Hfn; [lia|]. cbn [loop].
  replace (clock st + S n) with (S (clock st + n)) by lia.
  rewrite rounds_snoc. split.
  - intros Hs. erewrite bind_val_proc by (apply poll_settled; exact Hs).
    cbn [ret clock trace store]. now rewrite <- !app_assoc.
  - intros err He.
    erewrite bind_val_proc by (apply poll_failed with (err := err); exact He).
    cbn [ret clock trace store]. now rewrite <- !app_assoc.
Qed.

Lemma waitForDeployment_polls_witness :
  waitForDeployment (busyFor 2) 5 "any" (mkSt 0 [] tt)
  = (Val None,
     mkSt 3
       ([Print MsgWaiting; GoSpinner]
          ++ rounds (deploymentsURL (busyFor 2)) 3 ++ [Print MsgDone])
       tt).
Proof.
  apply (waitForDeployment_polls (busyFor 2) 5 "any" 2 (mkSt 0 [] tt)).
  - intros i Hi. exists (World.mkResponse World.StatusOK "200 OK" "busy" None), 0.
    destruct i as [|[|i]]; [split; reflexivity | split; reflexivity | lia].
  - lia.
  - exists (World.mkResponse World.StatusOK "200 OK" "idle" None).
    split; reflexivity.
Defined.

End MarathonFacts.

(** ** Task names, piece by piece *)

Module NameMore.
Import GoStrings Utf8 Regexp Namer Specs NameSpecs.
Local Open Scope nat_scope.

Lemma DecodeRuneInString_within s :
  snd (DecodeRuneInString s) <= String.length s.
Proof.
  destruct s as [|c0 t0]; [simpl; lia|].
  unfold DecodeRuneInString.
  destruct (first (byteval c0)) as [[[sz lo] hi]|]; [|simpl; lia].
  repeat match goal with
         | |- context [if ?b then _ else _] => destruct b
         | |- context [match ?t with EmptyString => _ | String _ _ => _ end] =>
             destruct t
         end; simpl; lia.
Qed.

Lemma take_drop n s : (take n s ++ drop n s)%string = s.
Proof.
  revert s; induction n as [|n IH]; intros [|c s]; simpl; auto.
  now rewrite IH.
Qed.

Lemma drop_drop n m s : drop n (drop m s) = drop (m + n) s.
Proof.
  revert s; induction m as [|m IH]; intros s; [reflexivity|].
  destruct s as [|c s]; simpl; [now destruct n | apply IH].
Qed.

Lemma drop_all s n : String.length s <= n -> drop n s = EmptyString.
Proof.
  revert s; induction n as [|n IH]; intros [|c s] H; simpl in *; auto; try lia.
  apply IH; lia.
Qed.

Lemma take_all s n : String.length s <= n -> take n s = s.
Proof.
  revert s; induction n as [|n IH]; intros [|c s] H; simpl in *; auto; try lia.
  rewrite IH; [reflexivity | lia].
Qed.

Lemma drop_nonempty s n : n < String.length s -> drop n s <> EmptyString.
Proof.
  intros H E. apply (f_equal String.length) in E.
  rewrite Utf8Facts.length_drop in E. simpl in E. lia.
Qed.

Lemma lowerRun_rest s : lowerRun (drop (lowerRun s) s) = 0.
Proof.
  induction s as [|c s IH]; [reflexivity|]. simpl.
  destruct (is_lower c) eqn:Hc; simpl; [exact IH | now rewrite Hc].
Qed.

Lemma dashFrom_skip k s : dashFrom k s = dashFrom 0 (drop k s).
Proof.
  revert s; induction k as [|k IH]; intros s; [reflexivity|].
  destruct s as [|c s]; [reflexivity|]. cbn [dashFrom drop]. apply IH.
Qed.

Lemma dashFrom_lower w r :
  all_chars is_lower w = true ->
  dashFrom 0 (w ++ r) = (w ++ dashFrom 0 r)%string.
Proof.
  induction w as [|c w IH]; [reflexivity|]. simpl.
  intros H. apply andb_true_iff in H as [Hc Hw].
  now rewrite Hc, IH.
Qed.

(** A rune that is not a lower-case letter gives one separator. *)
Lemma dashFrom_other s :
  s <> EmptyString -> lowerRun s = 0 ->
  dashFrom 0 s
  = String "-" (dashFrom 0 (drop (snd (DecodeRuneInString s)) s)).
Proof.
  intros Hne Hrun.
  pose proof (Utf8Facts.DecodeRuneInString_width s Hne) as [Hw _].
  destruct s as [|c s]; [congruence|].
  cbn [lowerRun] in Hrun. cbn [dashFrom].
  destruct (is_lower c); [discriminate|].
  rewrite dashFrom_skip.
  destruct (snd (DecodeRuneInString (String c s))) as [|w]; [lia|].
  cbn [drop]. replace (S w - 1) with w by lia. reflexivity.
Qed.

(** One iteration of the loop of [allMatches] for ["[a-z]*"]. *)
Lemma allMatches_step fuel s n pos i prev :
  allMatches (S fuel) execLowerStar s n pos i prev
  = if (i <? n) && (pos <=? String.length s) then
      if pos + lowerRun (drop pos s) =? pos then
        if negb (Z.of_nat pos =? prev)%Z
        then (pos, pos + lowerRun (drop pos s))
               :: allMatches fuel execLowerStar s n
                    (if 0 <? stepWidth s pos then pos + stepWidth s pos
                     else String.length s + 1)
                    (S i) (Z.of_nat (pos + lowerRun (drop pos s)))
        else allMatches fuel execLowerStar s n
               (if 0 <? stepWidth s pos then pos + stepWidth s pos
                else String.length s + 1)
               i (Z.of_nat (pos + lowerRun (drop pos s)))
      else (pos, pos + lowerRun (drop pos s))
             :: allMatches fuel execLowerStar s n
                  (pos + lowerRun (drop pos s)) (S i)
                  (Z.of_nat (pos + lowerRun (drop pos s)))
    else [].
Proof. reflexivity. Qed.

Section Matches.
Variable s : string.

Local Abbreviation text := (fun m : nat * nat => slice (fst m) (snd m) s).

(** The matches from [pos] on, joined: the rest of the string with its
    other runes replaced.  Right after a match ([prev = pos]) the empty
    match at [pos] is refused, and the separator of the next match stands
    for the rune stepped over. *)
Lemma allMatches_dashed fuel :
  forall pos i prev,
    String.length s + 2 <= fuel + pos -> i <= pos -> pos <= String.length s ->
    let l := allMatches fuel execLowerStar s (String.length s + 1) pos i prev in
    (Z.of_nat pos <> prev ->
     l <> [] /\ Join (map text l) "-" = dashFrom 0 (drop pos s))
    /\ (Z.of_nat pos = prev -> lowerRun (drop pos s) = 0 ->
        (l = [] /\ drop pos s = EmptyString)
        \/ (l <> []
            /\ dashFrom 0 (drop pos s) = String "-" (Join (map text l) "-"))).
Proof.
  induction fuel as [|fuel IH]; intros pos i prev Hf Hi Hp; [lia|].
  cbn zeta. rewrite allMatches_step.
  replace ((i <? String.length s + 1) && (pos <=? String.length s)) with true
    by (symmetry; apply andb_true_iff; split;
        [apply Nat.ltb_lt | apply Nat.leb_le]; lia).
  set (run := lowerRun (drop pos s)).
  assert (Hrun_le : pos + run <= String.length s).
  { assert (run <= String.length (drop pos s)) as H.
    { unfold run. generalize (drop pos s). intros t.
      induction t as [|c t IHt]; simpl; [lia|].
      destruct (is_lower c); simpl; lia. }
    rewrite Utf8Facts.length_drop in H. lia. }
  destruct (pos + run =? pos) eqn:Hem.
  - (* an empty match *)
    apply Nat.eqb_eq in Hem. assert (run = 0) as Hrun by lia.
    destruct (Nat.eq_dec pos (String.length s)) as [Hend|Hmid].
    + (* at the end *)
      assert (drop pos s = EmptyString) as Hd by (apply drop_all; lia).
      assert (stepWidth s pos = 0) as Hw by (unfold stepWidth; now rewrite Hd).
      rewrite Hw. cbn [Nat.ltb Nat.leb].
      assert (forall i' prev',
                 allMatches fuel execLowerStar s (String.length s + 1)
                   (String.length s + 1) i' prev' = []) as Hstop.
      { intros i' prev'. destruct fuel; [reflexivity|].
        rewrite allMatches_step.
        replace (String.length s + 1 <=? String.length s) with false
          by (symmetry; apply Nat.leb_gt; lia).
        now rewrite andb_false_r. }
      rewrite !Hstop. split.
      * intros Hne. apply Z.eqb_neq in Hne. rewrite Hne. cbn [negb].
        split; [discriminate|]. cbn [map Join]. cbn [fst snd].
        rewrite NamerFacts.slice_run, Hrun, Hd. reflexivity.
      * intros He _. apply Z.eqb_eq in He. rewrite He. cbn [negb].
        left. now split.
    + (* before a rune that is not a lower-case letter *)
      assert (drop pos s <> EmptyString) as Hne by (apply drop_nonempty; lia).
      pose proof (Utf8Facts.DecodeRuneInString_width _ Hne) as [Hw1 _].
      pose proof (DecodeRuneInString_within (drop pos s)) as Hw2.
      rewrite Utf8Facts.length_drop in Hw2.
      fold (stepWidth s pos) in Hw1, Hw2.
      replace (0 <? stepWidth s pos) with true
        by (symmetry; apply Nat.ltb_lt; lia).
      pose proof (dashFrom_other _ Hne Hrun) as Hd.
      rewrite drop_drop in Hd. fold (stepWidth s pos) in Hd.
      split.
      * intros Hn. apply Z.eqb_neq in Hn. rewrite Hn. cbn [negb].
        destruct (IH (pos + stepWidth s pos) (S i) (Z.of_nat (pos + run)))
          as [HA _]; try lia.
        destruct HA as [Hl HJ]; [lia|].
        split; [discriminate|]. cbn [map].
        destruct (map text (allMatches fuel execLowerStar s
                             (String.length s + 1) (pos + stepWidth s pos)
                             (S i) (Z.of_nat (pos + run)))) as [|e es] eqn:Hm.
        { apply map_eq_nil in Hm. contradiction. }
        rewrite SplitFacts.Join_cons by discriminate.
        rewrite HJ, Hd. cbn [fst snd].
        rewrite NamerFacts.slice_run, Hrun. reflexivity.
      * intros He _. apply Z.eqb_eq in He. rewrite He. cbn [negb].
        destruct (IH (pos + stepWidth s pos) i (Z.of_nat (pos + run)))
          as [HA _]; try lia.
        destruct HA as [Hl HJ]; [lia|].
        right. split; [exact Hl|]. now rewrite HJ, Hd.
  - (* a run of lower-case letters *)
    apply Nat.eqb_neq in Hem. assert (0 < run) as Hrun by lia.
    assert (Join (map text
                    ((pos, pos + run)
                       :: allMatches fuel execLowerStar s
                            (String.length s + 1) (pos + run) (S i)
                            (Z.of_nat (pos + run)))) "-"
            = dashFrom 0 (drop pos s)) as HJ.
    { destruct (IH (pos + run) (S i) (Z.of_nat (pos + run))) as [_ HB];
        try lia.
      specialize (HB eq_refl).
      assert (lowerRun (drop (pos + run) s) = 0) as Hrest.
      { rewrite <- drop_drop. apply lowerRun_rest. }
      specialize (HB Hrest).
      rewrite <- (take_drop run (drop pos s)).
      rewrite dashFrom_lower by apply NamerFacts.lowerRun_lower.
      rewrite drop_drop. cbn [map]. cbn [fst snd].
      rewrite NamerFacts.slice_run. fold run.
      destruct HB as [[Hl Hd]|[Hl Hd]].
      - rewrite Hl, Hd. cbn [map Join dashFrom].
        now rewrite SplitFacts.append_nil_r.
      - rewrite Hd.
        destruct (map text (allMatches fuel execLowerStar s
                             (String.length s + 1) (pos + run) (S i)
                             (Z.of_nat (pos + run)))) as [|e es] eqn:Hm.
        { apply map_eq_nil in Hm. contradiction. }
        rewrite SplitFacts.Join_cons by discriminate. reflexivity. }
    split.
    + intros _. split; [discriminate | exact HJ].
    + intros _ Hz. fold run in Hz. lia.
Qed.

End Matches.

(** The matches of a piece, joined. *)
Lemma FindAllString_dashed t :
  Join (FindAllString_lowerStar t) "-" = dashed t.
Proof.
  unfold FindAllString_lowerStar, dashed.
  destruct (allMatches_dashed t (String.length t + 2) 0 0 (-1)%Z) as [HA _];
    try lia.
  destruct HA as [_ HJ]; [lia|]. exact HJ.
Qed.

(** *** Commands of plain ASCII *)

Lemma plain_byte c :
  plain c = true -> negb (Ascii.eqb c " ") = true ->
  (byteval c <? RuneSelf)%N = true /\ IsSpace (byteval c) = false.
Proof.
  unfold plain, RuneSelf, IsSpace. intros Hp Hs.
  apply andb_true_iff in Hp as [Hlt Hws].
  apply negb_true_iff in Hs. apply Ascii.eqb_neq in Hs.
  assert (byteval c <> 32%N) as H32.
  { intros E. apply Hs. unfold byteval in E.
    rewrite <- (ascii_N_embedding c), E. reflexivity. }
  apply N.ltb_lt in Hlt. apply negb_true_iff in Hws.
  split; [apply N.ltb_lt; exact Hlt|].
  replace (byteval c <=? 255)%N with true by (symmetry; apply N.leb_le; lia).
  assert (byteval c < 9 \/ 13 < byteval c)%N as Hout.
  { apply andb_false_iff in Hws as [H|H]; apply N.leb_gt in H; lia. }
  repeat (apply orb_false_iff; split); apply N.eqb_neq; lia.
Qed.

Lemma plain_decode c t :
  (byteval c <? RuneSelf)%N = true ->
  DecodeRuneInString (String c t) = (byteval c, 1).
Proof.
  intros H. unfold DecodeRuneInString, RuneSelf in *.
  apply N.ltb_lt in H.
  assert (first (byteval c) = None) as ->.
  { unfold first. replace (byteval c <? 194)%N with true; [reflexivity|].
    symmetry; apply N.ltb_lt; lia. }
  replace (byteval c <? 128)%N with true by (symmetry; apply N.ltb_lt; lia).
  reflexivity.
Qed.

Lemma dashed_ascii t :
  all_chars (fun c => (byteval c <? RuneSelf)%N) t = true ->
  dashed t = dashBytes t.
Proof.
  unfold dashed. induction t as [|c t IH]; [reflexivity|].
  cbn [all_chars]. intros H. apply andb_true_iff in H as [Hc Ht].
  cbn [dashFrom dashBytes]. rewrite (plain_decode c t Hc). cbn [snd Nat.sub].
  rewrite (IH Ht). now destruct (is_lower c).
Qed.

Lemma byteAt_all (p : N -> bool) t :
  p 0%N = true -> all_chars (fun c => p (byteval c)) t = true ->
  forall i, p (byteAt t i) = true.
Proof.
  intros H0 Ht i. unfold byteAt. generalize (Z.to_nat i). clear i.
  induction t as [|c t IH]; intros n; [exact H0|].
  cbn [all_chars] in Ht. apply andb_true_iff in Ht as [Hc Ht].
  destruct n as [|n]; cbn [String.get]; [exact Hc | now apply IH].
Qed.

(** A piece without white space is left as it is. *)
Lemma TrimSpace_none t :
  all_chars (fun c => (byteval c <? RuneSelf)%N
                      && negb (IsSpace (byteval c))) t = true ->
  TrimSpace t = t.
Proof.
  intros Ht. unfold TrimSpace.
  assert (TrimLeftSpace t = t) as ->.
  { unfold TrimLeftSpace. destruct t as [|c t]; [reflexivity|].
    cbn [all_chars] in Ht. apply andb_true_iff in Ht as [Hc _].
    apply andb_true_iff in Hc as [Hlt Hsp]. apply negb_true_iff in Hsp.
    cbn [trimLeftFrom]. rewrite (plain_decode c t Hlt). now rewrite Hsp. }
  unfold TrimRightSpace.
  pose proof (byteAt_all (fun b => (b <? RuneSelf)%N && negb (IsSpace b)) t
                eq_refl Ht) as Hat.
  destruct t as [|c t]; [reflexivity|].
  set (s := String c t) in *.
  assert (0 < String.length s) as Hlen by (unfold s; simpl; lia).
  cbn [lastIndexNonSpace].
  replace (0 <? Z.of_nat (String.length s))%Z with true
    by (symmetry; apply Z.ltb_lt; lia).
  rewrite Nat2Z.id, (take_all s (String.length s)) by lia.
  specialize (Hat (Z.of_nat (String.length s) - 1)%Z).
  apply andb_true_iff in Hat as [Hlt Hsp]. apply negb_true_iff in Hsp.
  unfold DecodeLastRuneInString.
  replace (Z.of_nat (String.length s) =? 0)%Z with false
    by (symmetry; apply Z.eqb_neq; lia).
  rewrite Hlt, Hsp. change (Z.of_nat 1) with 1%Z.
  replace (0 <=? Z.of_nat (String.length s) - 1)%Z with true
    by (symmetry; apply Z.leb_le; lia).
  replace (RuneSelf <=? byteAt s (Z.of_nat (String.length s) - 1))%N
    with false by (symmetry; apply N.leb_gt; now apply N.ltb_lt).
  cbn [andb].
  replace (Z.to_nat (Z.of_nat (String.length s) - 1 + 1))
    with (String.length s) by lia.
  apply take_all; lia.
Qed.

Lemma all_chars_Join_inv p l sep :
  all_chars p (Join l sep) = true -> Forall (fun e => all_chars p e = true) l.
Proof.
  induction l as [|e l IH]; [constructor|].
  destruct l as [|e' l'].
  - intros H; constructor; [exact H | constructor].
  - rewrite (SplitFacts.Join_cons e (e' :: l') sep) by discriminate.
    rewrite !NamerFacts.all_chars_app. intros H.
    apply andb_true_iff in H as [He H]. apply andb_true_iff in H as [_ H].
    constructor; [exact He | now apply IH].
Qed.

Lemma dashBytes_app a b : dashBytes (a ++ b) = (dashBytes a ++ dashBytes b)%string.
Proof. induction a as [|c a IH]; [reflexivity|]. simpl. now rewrite IH. Qed.

Lemma dashBytes_Join l :
  dashBytes (Join l " ") = Join (map dashBytes l) "-".
Proof.
  induction l as [|e l IH]; [reflexivity|].
  destruct l as [|e' l']; [reflexivity|].
  rewrite (SplitFacts.Join_cons e (e' :: l') " ") by discriminate.
  change (map dashBytes (e :: e' :: l'))
    with (dashBytes e :: dashBytes e' :: map dashBytes l').
  rewrite (SplitFacts.Join_cons (dashBytes e)
             (dashBytes e' :: map dashBytes l') "-") by discriminate.
  rewrite !dashBytes_app, IH. reflexivity.
Qed.

Lemma sanitizedToken_plain c :
  all_chars plain c = true -> lacks " " c = true ->
  sanitizedToken c = dashBytes c.
Proof.
  intros Hp Hs. unfold sanitizedToken.
  assert (all_chars (fun c => (byteval c <? RuneSelf)%N
                              && negb (IsSpace (byteval c))) c = true) as H.
  { unfold lacks in Hs. induction c as [|a c IH]; [reflexivity|].
    cbn [all_chars] in *.
    apply andb_true_iff in Hp as [Ha Hp]. apply andb_true_iff in Hs as [Hb Hs].
    destruct (plain_byte a Ha Hb) as [H1 H2]. rewrite H1, H2. cbn.
    now apply IH. }
  rewrite (TrimSpace_none c H), FindAllString_dashed.
  apply dashed_ascii. eapply NamerFacts.all_chars_weaken; [|exact H].
  intros a Ha. now apply andb_true_iff in Ha as [Ha _].
Qed.

Lemma sanitizedCommand_plain cmd :
  all_chars plain cmd = true -> sanitizedCommand cmd = dashBytes cmd.
Proof.
  intros Hp. unfold sanitizedCommand.
  pose proof (SplitFacts.Join_Split " " cmd) as HJ.
  pose proof (SplitFacts.Split_lacks " " cmd) as HL.
  change (String " " EmptyString) with " " in HJ, HL.
  rewrite <- HJ at 2. rewrite dashBytes_Join. f_equal.
  rewrite <- HJ in Hp. apply all_chars_Join_inv in Hp.
  revert Hp HL. generalize (Split cmd " "). intros l Hp HL.
  induction l as [|e l IH]; [reflexivity|].
  inversion Hp; inversion HL; subst. cbn [map].
  rewrite sanitizedToken_plain by assumption. f_equal. now apply IH.
Qed.

(** C3, as the code has it.  The name is the join with "-" of the app, the
    environment and the sanitized command, which is the join with "-" of
    what each piece of the command between single spaces gives.  A piece is
    first trimmed of white space at both ends; then every rune of it that is
    not a lower-case letter is replaced by one "-", which is what its
    successive matches of "[a-z]*" joined with "-" amount to.  So a command
    of ASCII bytes without tab, line feed, vertical tab, form feed and
    carriage return is sanitized byte by byte, its spaces too; "stuff:junk"
    gives the two segments "stuff-junk", the example is named
    "foo-production-rake-stuff-junk", and a tab before or a line feed after
    "ab" leaves "ab".  The sanitized command has only lower-case letters and
    "-", and so has the whole name when the app and the environment have.
    A piece without lower-case letters gives only separators: none when it
    is empty, one for each of the characters of "123".  [RunCommand] submits
    the job under this name. *)
Theorem task_name_derivation :
  (forall app env cmd,
      deriveTaskName app env cmd
      = (app ++ "-" ++ env ++ "-"
         ++ Join (map (fun c => dashed (TrimSpace c)) (Split cmd " ")) "-")%string) /\
  (forall c, sanitizedToken c = dashed (TrimSpace c)) /\
  (forall cmd, all_chars plain cmd = true ->
               sanitizedCommand cmd = dashBytes cmd) /\
  deriveTaskName "foo" "production" "rake stuff:junk"
  = "foo-production-rake-stuff-junk" /\
  sanitizedToken "stuff:junk" = "stuff-junk" /\
  sanitizedToken (String (ascii_of_nat 9) "ab") = "ab" /\
  sanitizedToken ("ab" ++ String (ascii_of_nat 10) EmptyString) = "ab" /\
  (forall cmd, all_chars name_char (sanitizedCommand cmd) = true) /\
  (forall app env cmd,
      all_chars name_char app = true -> all_chars name_char env = true ->
      all_chars name_char (deriveTaskName app env cmd) = true) /\
  (forall c, all_chars (fun ch => negb (is_lower ch)) c = true ->
             all_chars is_dash (sanitizedToken c) = true) /\
  sanitizedToken EmptyString = EmptyString /\
  sanitizedToken "123" = "---" /\
  (forall E fuel app env cmd st resp,
      World.httpGet E (World.clock st) (World.CurrentDeploymentTagURL E app env)
      = World.HttpOk resp ->
      World.StatusCode resp <> World.StatusForbidden ->
      World.ReadErr resp = None ->
      Chronos.RunCommand E fuel app env cmd st
      = Chronos.launchChronosOneOffCommand E fuel
          (World.chronos_host E ++ "/service/chronos/v1/scheduler/iso8601")%string
          (World.mkTaskVars app env (World.Body resp) cmd
             (deriveTaskName app env cmd))
          (World.mkSt (S (World.clock st))
             (World.trace st
              ++ [World.Get (World.CurrentDeploymentTagURL E app env)]))).
Proof.
  assert (forall c, sanitizedToken c = dashed (TrimSpace c)) as Htok
    by (intros c; apply FindAllString_dashed).
  split.
  { intros app env cmd. unfold deriveTaskName, sanitizedCommand.
    rewrite (map_ext sanitizedToken (fun c => dashed (TrimSpace c)) Htok).
    reflexivity. }
  split; [exact Htok|].
  split; [exact sanitizedCommand_plain|].
  split; [reflexivity|].
  split; [reflexivity|].
  split; [reflexivity|].
  split; [reflexivity|].
  split; [exact NamerFacts.sanitizedCommand_chars|].
  split.
  { intros app env cmd Happ Henv; unfold deriveTaskName.
    apply NamerFacts.all_chars_Join; [reflexivity|].
    repeat constructor; auto using NamerFacts.sanitizedCommand_chars. }
  split; [exact NamerFacts.sanitizedToken_no_lower|].
  split; [reflexivity|].
  split; [reflexivity|].
  exact NamerFacts.RunCommand_task.
Qed.

End NameMore.

(** ** The log page of a running job *)

Module MonitorMore.
Import GoStrings Mesos World Chronos MNotations Scenario Polls Specs.
Import MonitorSpecs RunFacts MonitorFacts LogFacts SplitFacts LogMore.






End MonitorMore.
